(** * neural-networks-cli: the data preparation pipeline of [bin/prep.js]

    A shallow embedding of the enrichment pipeline (row model, chronological
    sort, percentage changes, moving averages, window-length configuration)
    together with the part of the JavaScript runtime the pipeline calls.

    - JavaScript numbers are IEEE 754 binary64 values: Rocq's primitive
      [float], whose [+], [-], [*], [/] and comparisons are the very same
      operations.
    - JavaScript strings are modelled as [string], a sequence of code units
      below 256.
    - A row object is a finite map from column names to cell values; reading an
      absent property gives [None], JavaScript's [undefined]. The order in
      which an object lists its properties is not recorded.
    - A thrown [TypeError] and [process.exit] are results of their own. *)

From Stdlib Require Import ZArith Floats Uint63 Lia Ascii String.
From stdpp Require Import base option list gmap strings pretty.

Local Open Scope string_scope.
Local Open Scope Z_scope.

(** ** The runtime: values, results, strings and numbers *)

Module JS.

(** A cell is a string (as the CSV parser delivers it) or a number. *)
Inductive value : Type :=
| VStr (s : string)
| VNum (x : float).

(** The outcome of running a piece of the program. *)
Inductive result (A : Type) : Type :=
| Ok (a : A)
| TypeError
| Exit (code : Z).
Arguments Ok {A} a.
Arguments TypeError {A}.
Arguments Exit {A} code.

#[export] Instance result_ret : MRet result := fun A a => Ok a.
#[export] Instance result_bind : MBind result := fun A B f m =>
  match m with
  | Ok a => f a
  | TypeError => TypeError
  | Exit c => Exit c
  end.

(** [xs.map(f)] for an [f] that may throw: the first failure is the result. *)
Fixpoint mapR {A B : Type} (f : A -> result B) (l : list A) : result (list B) :=
  match l with
  | [] => Ok []
  | a :: l' => b ← f a; bs ← mapR f l'; Ok (b :: bs)
  end.

(** [const pipe = (...fns) => x => fns.reduce((y, f) => f(y), x)] *)
Definition pipe {A : Type} (fns : list (A -> result A)) (x : A) : result A :=
  fold_left (fun y f => y ≫= f) fns (Ok x).

(** *** Strings *)

(** The white space and line terminators that [trim] and the numeric
    conversions strip, among code units below 256. *)
Definition is_white_space (a : ascii) : bool :=
  let n := N_of_ascii a in
  ((9 <=? n) && (n <=? 13) || (n =? 32) || (n =? 160))%N.

Fixpoint trim_start (s : string) : string :=
  match s with
  | String a s' => if is_white_space a then trim_start s' else s
  | EmptyString => EmptyString
  end.

Fixpoint trim_end (s : string) : string :=
  match s with
  | String a s' =>
      match trim_end s' with
      | EmptyString => if is_white_space a then EmptyString else String a EmptyString
      | t => String a t
      end
  | EmptyString => EmptyString
  end.

(** [s.trim()] *)
Definition trim (s : string) : string := trim_end (trim_start s).

(** [s.replace(/,/g, '')] *)
Fixpoint remove_commas (s : string) : string :=
  match s with
  | String a s' => if Ascii.eqb a "," then remove_commas s' else String a (remove_commas s')
  | EmptyString => EmptyString
  end.

(** [s.split(',')]: always at least one piece. *)
Fixpoint split_comma (s : string) : list string :=
  match s with
  | EmptyString => [EmptyString]
  | String a s' =>
      if Ascii.eqb a "," then EmptyString :: split_comma s'
      else match split_comma s' with
           | piece :: rest => String a piece :: rest
           | [] => [String a EmptyString]
           end
  end.

(** [v.replace(/,/g, '')] on a property read: only a string has the method. *)
Definition replace_commas (v : option value) : result string :=
  match v with
  | Some (VStr s) => Ok (remove_commas s)
  | Some (VNum _) => TypeError
  | None => TypeError
  end.

(** *** Decimal literals and their binary64 value *)

Definition digit_of (a : ascii) : option Z :=
  let n := Z.of_N (N_of_ascii a) in
  if (48 <=? n) && (n <=? 57) then Some (n - 48) else None.

(** The longest run of decimal digits at the front, and what follows it. *)
Fixpoint take_digits (s : string) : list Z * string :=
  match s with
  | String a s' =>
      match digit_of a with
      | Some d => let '(ds, rest) := take_digits s' in (d :: ds, rest)
      | None => ([], s)
      end
  | EmptyString => ([], s)
  end.

Definition digits_value (ds : list Z) : Z :=
  fold_left (fun acc d => 10 * acc + d) ds 0.

(** A sign at the front, if any: [true] for a minus. *)
Definition take_sign (s : string) : bool * string :=
  match s with
  | String "-" s' => (true, s')
  | String "+" s' => (false, s')
  | _ => (false, s)
  end.

(** A parsed [StrDecimalLiteral]: [Infinity], or the digits [M] read as
    an integer with a power of ten [E], standing for [M * 10^E]. *)
Inductive decimal : Type :=
| DInfinity (neg : bool)
| DFinite (neg : bool) (M : Z) (E : Z).

(** [ExponentPart]: [e] or [E], an optional sign, at least one digit. *)
Definition take_exponent (s : string) : Z * string :=
  match s with
  | String a s' =>
      if Ascii.eqb a "e" || Ascii.eqb a "E" then
        let '(neg, s'') := take_sign s' in
        match take_digits s'' with
        | ([], _) => (0, s)
        | (ds, rest) => ((if neg then - digits_value ds else digits_value ds), rest)
        end
      else (0, s)
  | EmptyString => (0, s)
  end.

(** The longest prefix of [s] that is a [StrDecimalLiteral], with the rest of
    [s]; [None] when no prefix is one. *)
Definition take_decimal (s : string) : option (decimal * string) :=
  let '(neg, s1) := take_sign s in
  match String.eqb (String.substring 0 8 s1) "Infinity" with
  | true => Some (DInfinity neg, String.substring 8 (String.length s1 - 8) s1)
  | false =>
      let '(ip, s2) := take_digits s1 in
      let '(fp, s3) :=
        match s2 with
        | String "." s2' =>
            let '(fp, s3) := take_digits s2' in
            match ip, fp with
            | [], [] => ([], s2)
            | _, _ => (fp, s3)
            end
        | _ => ([], s2)
        end in
      match ip, fp with
      | [], [] => None
      | _, _ =>
          let '(e, s4) := take_exponent s3 in
          Some (DFinite neg (digits_value (ip ++ fp)) (e - Z.of_nat (length fp)), s4)
      end
  end.

(** The binary64 value nearest to [M * 10^E] (ties to even), for [M >= 0]. *)
Definition SF_of_decimal (neg : bool) (M E : Z) : spec_float :=
  match M with
  | Zpos m =>
      if 0 <=? E then binary_normalize prec emax (cond_Zopp neg (M * 10 ^ E)) 0 false
      else SFdiv prec emax (S754_finite neg m 0) (S754_finite false (Z.to_pos (10 ^ (- E))) 0)
  | _ => S754_zero neg
  end.

Definition float_of_decimal (d : decimal) : float :=
  match d with
  | DInfinity neg => if neg then neg_infinity else infinity
  | DFinite neg M E => SF2Prim (SF_of_decimal neg M E)
  end.

(** [parseFloat(s)]: leading white space is skipped, the longest decimal
    literal at the front is converted, [NaN] when there is none. *)
Definition parseFloat (s : string) : float :=
  match take_decimal (trim_start s) with
  | Some (d, _) => float_of_decimal d
  | None => nan
  end.

Definition radix_digit_of (radix : Z) (a : ascii) : option Z :=
  let n := Z.of_N (N_of_ascii a) in
  let d := if (48 <=? n) && (n <=? 57) then n - 48
           else if (97 <=? n) && (n <=? 102) then n - 87
           else if (65 <=? n) && (n <=? 70) then n - 55
           else radix in
  if d <? radix then Some d else None.

Fixpoint radix_value (radix : Z) (acc : Z) (s : string) : option Z :=
  match s with
  | String a s' =>
      match radix_digit_of radix a with
      | Some d => radix_value radix (radix * acc + d) s'
      | None => None
      end
  | EmptyString => Some acc
  end.

(** [NonDecimalIntegerLiteral]: [0x], [0o] or [0b] and at least one digit. *)
Definition non_decimal_literal (s : string) : option Z :=
  match s with
  | String "0" (String a (String b s' as ds)) =>
      if Ascii.eqb a "x" || Ascii.eqb a "X" then radix_value 16 0 ds
      else if Ascii.eqb a "o" || Ascii.eqb a "O" then radix_value 8 0 ds
      else if Ascii.eqb a "b" || Ascii.eqb a "B" then radix_value 2 0 ds
      else None
  | _ => None
  end.

(** [Number(s)] for a string: white space is trimmed at both ends, the empty
    string is [+0], and the whole of what is left has to be a numeric literal. *)
Definition StringToNumber (s : string) : float :=
  match trim s with
  | EmptyString => PrimFloat.zero
  | t =>
      match take_decimal t with
      | Some (d, EmptyString) => float_of_decimal d
      | _ =>
          match non_decimal_literal t with
          | Some z => SF2Prim (binary_normalize prec emax z 0 false)
          | None => nan
          end
      end
  end.

(** [Number(v)] on a property read. *)
Definition ToNumber (v : option value) : float :=
  match v with
  | Some (VStr s) => StringToNumber s
  | Some (VNum x) => x
  | None => nan
  end.

(** The global [isNaN] applied to a string. *)
Definition isNaN (s : string) : bool := is_nan (StringToNumber s).

(** *** Numbers to strings *)

(** The position [n] of the decimal point of [m * 2^e]:
    [10^(n-1) <= m * 2^e < 10^n]. *)
Definition decimal_point (m : positive) (e : Z) : Z :=
  let p := if 0 <=? e then Zpos m * 2 ^ e else Zpos m in
  let q := if 0 <=? e then 1 else 2 ^ (- e) in
  if q <=? p then Z.of_nat (String.length (pretty (p / q)))
  else 1 - Z.of_nat (String.length (pretty ((q - 1) / p))).

(** The [k]-digit candidates around [m * 2^e]: the integer [s] below
    [m * 2^e / 10^(n-k)] or the one above, when its decimal reads back as [x];
    of two that do, the nearer one. *)
Definition digits_candidate (x : float) (m : positive) (e n k : Z) : option Z :=
  let E := n - k in
  let p := if 0 <=? e then Zpos m * 2 ^ e else Zpos m in
  let q := if 0 <=? e then 1 else 2 ^ (- e) in
  let lo := if 0 <=? E then p / (q * 10 ^ E) else (p * 10 ^ (- E)) / q in
  let back s := (SF2Prim (SF_of_decimal false s E) =? x)%float in
  let lo_nearer :=
    let l := if 0 <=? E then 2 * p else 2 * p * 10 ^ (- E) in
    let r := if 0 <=? E then (2 * lo + 1) * 10 ^ E * q else (2 * lo + 1) * q in
    (l <? r) || ((l =? r) && Z.even lo) in
  match back lo, back (lo + 1) with
  | true, true => Some (if lo_nearer then lo else lo + 1)
  | true, false => Some lo
  | false, true => Some (lo + 1)
  | false, false => None
  end.

(** The shortest digit string [s] and the decimal point [n] with
    [s * 10^(n - k)] reading back as [x], [k] the number of digits of [s]. *)
Definition shortest_digits (x : float) (m : positive) (e : Z) : Z * Z :=
  let n := decimal_point m e in
  let found :=
    fold_left (fun acc k =>
                 match acc with
                 | Some _ => acc
                 | None => option_map (fun s => (s, k)) (digits_candidate x m e n k)
                 end) (map Z.of_nat (seq 1 17)) None in
  match found with
  | Some (s, k) => if s =? 10 ^ k then (1, n + 1) else (s, n)
  | None => (Zpos m, 0)
  end.

Fixpoint zeros (n : nat) : string :=
  match n with
  | O => EmptyString
  | S n' => String "0" (zeros n')
  end.

(** [Number::toString(x)] in radix 10, as a template literal applies it. *)
Definition toString (x : float) : string :=
  match Prim2SF x with
  | S754_nan => "NaN"
  | S754_zero _ => "0"
  | S754_infinity s => if s then "-Infinity" else "Infinity"
  | S754_finite s m e =>
      let '(d, n) := shortest_digits (PrimFloat.abs x) m e in
      let ds := pretty d in
      let k := Z.of_nat (String.length ds) in
      let body :=
        if (k <=? n) && (n <=? 21) then ds +:+ zeros (Z.to_nat (n - k))
        else if (0 <? n) && (n <=? 21) then
          String.substring 0 (Z.to_nat n) ds +:+ "." +:+
          String.substring (Z.to_nat n) (Z.to_nat (k - n)) ds
        else if (-6 <? n) && (n <=? 0) then "0." +:+ zeros (Z.to_nat (- n)) +:+ ds
        else
          let mant := if k =? 1 then ds
                      else String.substring 0 1 ds +:+ "." +:+
                           String.substring 1 (Z.to_nat (k - 1)) ds in
          mant +:+ "e" +:+ (if 0 <=? n - 1 then "+" else "-") +:+ pretty (Z.abs (n - 1)) in
      if s then "-" +:+ body else body
  end.

(** [x.toFixed(f)]: the integer [n] nearest to [x * 10^f] (the larger of two),
    written with [f] digits after the point. *)
Definition toFixed (f : nat) (x : float) : string :=
  match Prim2SF x with
  | S754_finite s m e =>
      if (0 <=? e) && (10 ^ 21 <=? Zpos m * 2 ^ e) then toString x
      else
        let scale := 10 ^ Z.of_nat f in
        let n := if 0 <=? e then Zpos m * 2 ^ e * scale
                 else (2 * Zpos m * scale + 2 ^ (- e)) / 2 ^ (- e + 1) in
        let ds := pretty n in
        let ds := zeros (S f - String.length ds) +:+ ds in
        let k := String.length ds in
        let body := match f with
                    | O => ds
                    | _ => String.substring 0 (k - f) ds +:+ "." +:+ String.substring (k - f) f ds
                    end in
        if s then "-" +:+ body else body
  | S754_zero _ =>
      match f with
      | O => "0"
      | _ => "0." +:+ zeros f
      end
  | _ => toString x
  end.

(** *** Arrays *)

(** A natural number (an array index, a count) as a number. *)
Definition number_of_nat (n : nat) : float := of_uint63 (Uint63.of_Z (Z.of_nat n)).

Inductive integer_or_infinity : Type :=
| IInt (z : Z)
| IPosInf
| INegInf.

Definition ToIntegerOrInfinity (x : float) : integer_or_infinity :=
  match Prim2SF x with
  | S754_nan | S754_zero _ => IInt 0
  | S754_infinity s => if s then INegInf else IPosInf
  | S754_finite s m e => IInt (cond_Zopp s (Z.shiftl (Zpos m) e))
  end.

(** A relative index of [slice], clamped into [0 .. len]. *)
Definition relative_index (len : Z) (r : integer_or_infinity) : Z :=
  match r with
  | INegInf => 0
  | IPosInf => len
  | IInt z => if z <? 0 then Z.max (len + z) 0 else Z.min z len
  end.

(** [l.slice(start, end)] *)
Definition slice {A : Type} (l : list A) (start final : float) : list A :=
  let len := Z.of_nat (length l) in
  let k := relative_index len (ToIntegerOrInfinity start) in
  let f := relative_index len (ToIntegerOrInfinity final) in
  take (Z.to_nat (Z.max (f - k) 0)) (drop (Z.to_nat k) l).

(** [l.reduce(f, acc)] *)
Definition reduce {A B : Type} (f : B -> A -> B) (l : list A) (acc : B) : B :=
  fold_left f l acc.

(** [l.reduce((acc, a, i) => ..., acc)], the callback using the index. *)
Fixpoint reduce_indexed {A B : Type} (f : B -> A -> nat -> B) (i : nat) (l : list A) (acc : B) : B :=
  match l with
  | [] => acc
  | a :: l' => reduce_indexed f (S i) l' (f acc a i)
  end.

(** [l.reduce(f, acc)] for a callback that may throw. *)
Fixpoint reduceR {A B : Type} (f : B -> A -> result B) (l : list A) (acc : B) : result B :=
  match l with
  | [] => Ok acc
  | a :: l' => acc' ← f acc a; reduceR f l' acc'
  end.

(** A computed property key [[k]]: [undefined] names the property "undefined". *)
Definition property_key (k : option string) : string := default "undefined" k.

(** [data[z][key]], read where [0 <= z] has been checked and [z] is below the
    index of the current row. *)
Definition element_prop (data : list (gmap string value)) (z : Z) (key : string) : option value :=
  if z <? 0 then None else data !! Z.to_nat z ≫= lookup key.

(** [v !== s] for a property read [v] and a string [s]. *)
Definition strict_neq (v : option value) (s : string) : bool :=
  match v with
  | Some (VStr t) => negb (String.eqb t s)
  | _ => true
  end.

(** The time value of [new Date(v)], [Date_parse] being the host's [Date.parse]
    ([NaN] for a string it does not read as a date). *)
Definition TimeClip (x : float) : float :=
  match ToIntegerOrInfinity x with
  | IInt z =>
      if is_nan x || (8640000000000000 <? Z.abs z) then nan
      else SF2Prim (binary_normalize prec emax z 0 false)
  | _ => nan
  end.

Definition Date_value (Date_parse : string -> float) (v : option value) : float :=
  match v with
  | Some (VStr s) => Date_parse s
  | Some (VNum x) => TimeClip x
  | None => nan
  end.

(** [Object.assign(target, source)]: each property of [source] is assigned
    to [target], replacing a property of the same name. The assignment to
    [__proto__] goes to the setter that every plain object inherits, which
    does nothing with a value that is not an object, as no cell is: that
    property is not stored. An object is a finite map here: the order in
    which it lists its properties (the order in which they were first
    assigned, which [Object.keys] follows) is not recorded. *)
Definition Object_assign (target source : gmap string value) : gmap string value :=
  delete "__proto__" source ∪ target.

(** [l.sort(comparefn)], stable as ECMAScript 2019 requires: an element moves
    behind another only when [comparefn] of the two is positive ([NaN] counts
    as zero). On a [comparefn] that is consistent on the elements every stable
    sort gives this result; for the comparison of the program that is a list
    whose dates are all readable, or all unreadable. On any other list the
    language leaves the order to the engine; this definition then gives one
    such order, which need not be the engine's, and what is stated about the
    order of the result is stated for lists of the first kind. *)
Fixpoint sort_insert {A : Type} (comparefn : A -> A -> float) (x : A) (l : list A) : list A :=
  match l with
  | [] => [x]
  | y :: l' => if (0 <? comparefn x y)%float then y :: sort_insert comparefn x l' else x :: l
  end.

Definition Array_sort {A : Type} (comparefn : A -> A -> float) (l : list A) : list A :=
  foldr (sort_insert comparefn) [] l.

(** [data.map((row, i) => ...)] over row objects that the callback changes in
    place: [store] holds the rows as they are now, so the callback at index [i]
    sees what the calls before it wrote; the new array holds the same objects,
    that is the store at the end. *)
Fixpoint map_in_place (f : list (gmap string value) -> nat -> gmap string value ->
                           result (gmap string value))
  (n i : nat) (store : list (gmap string value)) : result (list (gmap string value)) :=
  match n with
  | O => Ok store
  | S n' =>
      match store !! i with
      | Some row => row' ← f store i row; map_in_place f n' (S i) (<[i := row']> store)
      | None => Ok store
      end
  end.

Definition Array_map_rows f (data : list (gmap string value)) :=
  map_in_place f (length data) 0%nat data.

(** *** Regular expressions

    The patterns of the program have no repetition: characters, the classes
    [.] and [\w], the assertions [^] and [$], sequence and alternative. *)
Inductive regex : Type :=
| RChar (c : ascii)
| RAny
| RWord
| RBol
| REol
| RSeq (r1 r2 : regex)
| RAlt (r1 r2 : regex).

(** The line terminators, which [.] does not match, and the characters of
    [\w], among code units below 256. *)
Definition is_line_terminator (a : ascii) : bool :=
  let n := N_of_ascii a in
  ((n =? 10) || (n =? 13))%N.

Definition is_word_char (a : ascii) : bool :=
  let n := N_of_ascii a in
  ((48 <=? n) && (n <=? 57) || (65 <=? n) && (n <=? 90) ||
   (97 <=? n) && (n <=? 122) || (n =? 95))%N.

(** The ways [r] matches at the front of [s], in the order backtracking tries
    them: what is left of [s] after each. [at_start] tells whether [s] is the
    whole input, which is what [^] asks. *)
Fixpoint matches (r : regex) (at_start : bool) (s : string) : list (bool * string) :=
  match r with
  | RChar c =>
      match s with
      | String a s' => if Ascii.eqb a c then [(false, s')] else []
      | EmptyString => []
      end
  | RAny =>
      match s with
      | String a s' => if is_line_terminator a then [] else [(false, s')]
      | EmptyString => []
      end
  | RWord =>
      match s with
      | String a s' => if is_word_char a then [(false, s')] else []
      | EmptyString => []
      end
  | RBol => if at_start then [(at_start, s)] else []
  | REol =>
      match s with
      | EmptyString => [(at_start, s)]
      | String _ _ => []
      end
  | RSeq r1 r2 => flat_map (fun m => matches r2 (fst m) (snd m)) (matches r1 at_start s)
  | RAlt r1 r2 => (matches r1 at_start s ++ matches r2 at_start s)%list
  end.

(** [r.exec(s)] for a pattern without flags: the first position, from the
    left, where [r] matches; the text before the match and the text after it. *)
Fixpoint RegExp_exec (r : regex) (at_start : bool) (s : string) : option (string * string) :=
  match matches r at_start s with
  | m :: _ => Some (EmptyString, snd m)
  | [] =>
      match s with
      | String a s' =>
          match RegExp_exec r false s' with
          | Some (before, rest) => Some (String a before, rest)
          | None => None
          end
      | EmptyString => None
      end
  end.

(** [!!s.match(r)] *)
Definition String_match (s : string) (r : regex) : bool :=
  match RegExp_exec r true s with
  | Some _ => true
  | None => false
  end.

(** [s.replace(r, replacement)] for a pattern without the flag [g] and a
    replacement without [$]. *)
Definition String_replace (s : string) (r : regex) (replacement : string) : string :=
  match RegExp_exec r true s with
  | Some (before, rest) => before +:+ replacement +:+ rest
  | None => s
  end.

(** The pattern of a text without special characters. *)
Fixpoint RLiteral (s : string) (rest : regex) : regex :=
  match s with
  | EmptyString => rest
  | String a s' => RSeq (RChar a) (RLiteral s' rest)
  end.

(** [s.split(separator)] for a separator of one character: always at least
    one piece. *)
Fixpoint split (separator : ascii) (s : string) : list string :=
  match s with
  | EmptyString => [EmptyString]
  | String a s' =>
      if Ascii.eqb a separator then EmptyString :: split separator s'
      else match split separator s' with
           | piece :: rest => String a piece :: rest
           | [] => [String a EmptyString]
           end
  end.

(** A string as a condition: the empty string and [undefined] are false. *)
Definition truthy (v : option string) : bool :=
  match v with
  | Some (String _ _) => true
  | _ => false
  end.

End JS.

(** ** The program: [bin/prep.js] *)

Module Prep.
Import JS.

Abbreviation object := (gmap string value).

Definition CURRENCY_DECIMAL_PLACES : nat := 2.
Definition DATE_CELL : string := "Date".
Definition NOT_APPLICABLE : string := "-".
Definition VALUE_CELLS : list string := ["Open"; "High"; "Low"; "Close"].

Definition rowsToObjects (rows : list (list string)) (headers : list string) : list object :=
  map (fun row =>
         reduce_indexed (fun accum elem i =>
                           Object_assign accum {[ property_key (headers !! i) := VStr elem ]})
           0 row ∅) rows.

Definition sortDataByDate (Date_parse : string -> float) (dateKey : string)
  (data : list object) : list object :=
  Array_sort (fun a b => (Date_value Date_parse (a !! dateKey)
                          - Date_value Date_parse (b !! dateKey))%float) data.

Definition numberToCurrencyValue (num : float) : string :=
  toFixed CURRENCY_DECIMAL_PLACES num.

Definition movingAverage (multiplier : float) (data : list object) : result (list object) :=
  Array_map_rows (fun data i row =>
    let epoch := "days" in
    let avgs :=
      reduce (fun avgAccum cell =>
        let movingAverageCellName :=
          cell +:+ " Moving Average - " +:+ toString multiplier +:+ " " +:+ epoch in
        if (number_of_nat i <? multiplier - 1)%float then
          <[movingAverageCellName := VStr NOT_APPLICABLE]> avgAccum
        else
          let sum :=
            reduce (fun cellAccum row => (cellAccum + ToNumber (row !! cell))%float)
              (slice data (number_of_nat i + 1 - multiplier)%float (number_of_nat i + 1)%float)
              0%float in
          let movingAverage := (sum / multiplier)%float in
          <[movingAverageCellName := VStr (numberToCurrencyValue movingAverage)]> avgAccum)
        VALUE_CELLS ∅ in
    Ok (Object_assign row avgs)) data.

Definition DEFAULT_MOVING_AVERAGES : list float := [5; 50; 100; 200]%float.

Definition percentagesChangeInVolume (data : list object) : result (list object) :=
  let volumeKey := "Volume" in
  Array_map_rows (fun data i row =>
    change ←
      (if (Z.of_nat i - 1 >=? 0)
          && strict_neq (row !! volumeKey) NOT_APPLICABLE
          && strict_neq (element_prop data (Z.of_nat i - 1) volumeKey) NOT_APPLICABLE
       then
         oldText ← replace_commas (element_prop data (Z.of_nat i - 1) volumeKey);
         let oldVolume := parseFloat oldText in
         newText ← replace_commas (row !! volumeKey);
         let newVolume := parseFloat newText in
         Ok (VNum ((newVolume - oldVolume) / oldVolume * 100)%float)
       else Ok (VStr "-"));
    Ok (Object_assign row {[ "Daily Change in Volume" := change ]})) data.

Definition percentagesChangeInPrices (data : list object) : result (list object) :=
  let priceKeys := ["Open"; "High"; "Low"; "Close"] in
  Array_map_rows (fun data i row =>
    changes ←
      reduceR (fun accum key =>
        change ←
          (if (Z.of_nat i - 1 >? 0)
              && strict_neq (row !! key) NOT_APPLICABLE
              && strict_neq (element_prop data (Z.of_nat i - 1) key) NOT_APPLICABLE
           then
             oldText ← replace_commas (element_prop data (Z.of_nat i - 1) key);
             let oldValue := parseFloat oldText in
             newText ← replace_commas (row !! key);
             let newValue := parseFloat newText in
             Ok (VNum ((newValue - oldValue) / oldValue * 100)%float)
           else Ok (VStr "-"));
        Ok (Object_assign accum {[ key +:+ " - Daily Percentage Change" := change ]}))
        priceKeys ∅;
    Ok (Object_assign row changes)) data.

(** [avgsString] is the [--moving-averages] argument, [None] when it is not
    given; [process.exit(1)] is the result [Exit 1]. *)
Definition formatInputtedMovingAverages (avgsString : option string) : result (option (list float)) :=
  match avgsString with
  | None | Some EmptyString => Ok None
  | Some avgsString =>
      lengths ← mapR (fun a => if isNaN a then Exit 1 else Ok (StringToNumber a))
                  (map trim (split_comma avgsString));
      Ok (Some lengths)
  end.

Definition movingAverages (avgsString : option string) : result (list (list object -> result (list object))) :=
  formatted ← formatInputtedMovingAverages avgsString;
  let movingAverageLengths := default DEFAULT_MOVING_AVERAGES formatted in
  Ok (map (fun len => movingAverage len) movingAverageLengths).

(** The argument list of [pipe] is built first, [movingAverages()] with it. *)
Definition prepareData (avgsString : option string) (data : list object) : result (list object) :=
  stages ← movingAverages avgsString;
  pipe (percentagesChangeInVolume :: percentagesChangeInPrices :: stages) data.

(** [main], from the parsed CSV to the records handed to [output]. *)
Definition main (Date_parse : string -> float) (avgsString : option string)
  (csv : list (list string)) : result (list object) :=
  let headers := default [] (csv !! 0%nat) in
  let data := rowsToObjects (drop 1 csv) headers in
  pipe [fun data => Ok (sortDataByDate Date_parse DATE_CELL data);
        prepareData avgsString] data.

(** What the program takes from its host: the packages [untildify],
    [csv-stringify], Node's [path.resolve] and [process.cwd()], and
    [JSON.stringify(data, null, 4)]. [Object_keys] is [Object.keys]: the names
    of the properties of an object in the order the engine keeps, which the
    map does not record. *)
Record host : Type := {
  untildify : string -> string;
  path_resolve : list string -> string;
  process_cwd : string;
  Object_keys : object -> list string;
  csv_stringify : list (list (option value)) -> string;
  JSON_stringify : list object -> string
}.

Definition isHomePath (file : string) : bool :=
  String_match file (RSeq RBol (RChar "~")).

Definition isAbsolutePath (file : string) : bool :=
  String_match file
    (RAlt (RSeq RBol (RSeq (RChar ".") (RChar "/")))
       (RAlt (RSeq RBol (RSeq (RChar ".") (RSeq (RChar ".") (RChar "/"))))
          RWord)).

Definition getFilePath (h : host) (file : string) : string :=
  if isHomePath file then untildify h file
  else if isAbsolutePath file then path_resolve h [file]
  else path_resolve h [process_cwd h; file].

(** The two output types, and the extension of each. *)
Inductive format : Type :=
| JSON
| CSV.

Definition extension_of (f : format) : string :=
  match f with
  | JSON => "json"
  | CSV => "csv"
  end.

(** The arguments as [getOutputFilename] parses them: [--output], [-o] and
    the first free argument, each [None] when it is [undefined]. *)
Record filename_args : Type := {
  arg_output : option string;
  arg_o : option string;
  arg_input : option string
}.

(** The pattern is built from the template [`\.${extension}$`], whose text is
    [.json$] or [.csv$]: the template takes the backslash. [file.match] on
    [undefined] is a [TypeError]. *)
Definition getOutputFilename (h : host) (args : filename_args) (extension : format) :
  result string :=
  let outputFile := if truthy (arg_output args) then arg_output args else arg_o args in
  match outputFile with
  | Some (String _ _ as outputFile) =>
      if String_match outputFile (RSeq RAny (RLiteral (extension_of extension) REol))
      then Ok (getFilePath h outputFile)
      else Ok (getFilePath h (outputFile +:+ "." +:+ extension_of extension))
  | _ =>
      match arg_input args with
      | Some file =>
          let inputFilePath := getFilePath h file in
          let inputFilename :=
            String_replace (default EmptyString (last (split "/" inputFilePath)))
              (RSeq (RChar ".") (RLiteral "csv" REol)) EmptyString in
          Ok (inputFilename +:+ ".normalized." +:+ extension_of extension)
      | None => TypeError
      end
  end.

Definition convertToJson (h : host) (data : list object) : string :=
  JSON_stringify h data.

(** [Object.values(row)]: the cells in the order of the names. *)
Definition Object_values (h : host) (row : object) : list (option value) :=
  (fun k => row !! k) <$> Object_keys h row.

(** [Object.keys(data[0])] on no record is a [TypeError]. *)
Definition convertToCsv (h : host) (data : list object) : result string :=
  match data !! 0%nat with
  | Some first =>
      let headers := (fun k => Some (VStr k)) <$> Object_keys h first in
      let body := Object_values h <$> drop 1 data in
      Ok (csv_stringify h (headers :: body))
  | None => TypeError
  end.

(** The arguments as [output] parses them: the flags as conditions. *)
Record output_args : Type := {
  arg_json : bool;
  arg_j : bool;
  arg_csv : bool;
  arg_c : bool
}.

Definition hasMultipleOutputTypes (args : output_args) : bool :=
  let count := 0%nat in
  let count := if arg_json args || arg_j args then S count else count in
  let count := if arg_csv args || arg_c args then S count else count in
  (1 <? count)%nat.

(** [output], up to the file it asks [saveToFile] to write: the path and the
    text. *)
Definition output (h : host) (args : output_args) (name_args : filename_args)
  (data : list object) : result (string * string) :=
  _ ← (if hasMultipleOutputTypes args then Exit 1 else Ok tt);
  let outputFormat := if arg_json args || arg_j args then JSON else CSV in
  filename ← getOutputFilename h name_args outputFormat;
  match outputFormat with
  | JSON => Ok (filename, convertToJson h data)
  | CSV =>
      let pathToFile := getFilePath h filename in
      text ← convertToCsv h data;
      Ok (pathToFile, text)
  end.

End Prep.

(** ** Definitions for the statements *)

Import JS Prep.

(** The rows [r] and [r0] hold the same in the columns [K]. *)
Definition agree_row (K : string -> Prop) (r r0 : object) : Prop :=
  forall k, K k -> r !! k = r0 !! k.

(** The text [s] with its commas stripped, said with the library's filter on
    the list of its characters. *)
Definition commas_stripped (s : string) : string :=
  string_of_list_ascii
    (List.filter (fun a => negb (Ascii.eqb a ",")) (list_ascii_of_string s)).

(** A binary64 value on the integer scale of the smallest subnormal, which
    keeps the order: a finite [m * 2^e] is [m * 2^(e + 1074)], the infinities
    lie outside every finite value. *)
Definition float_key (x : spec_float) : Z :=
  match x with
  | S754_zero _ | S754_nan => 0
  | S754_infinity s => cond_Zopp s (2 ^ 2100)
  | S754_finite s m e => cond_Zopp s (Zpos m * 2 ^ (e + 1074))
  end.

(** [x] rounded to two decimals, said with the arithmetic of whole numbers.
    The magnitude of a finite [x] is its key over [2^1074], so
    [nearest_hundredths] is the whole number of hundredths nearest to that
    magnitude, the larger of two that are as near (half away from zero). The
    text is the whole part, a point and the two last digits, behind a minus
    sign when [x] is negative. *)
Definition nearest_hundredths (x : float) : Z :=
  (200 * Z.abs (float_key (Prim2SF x)) + 2 ^ 1074) / 2 ^ 1075.

Definition rounded_to_two_decimals (x : float) : string :=
  let n := nearest_hundredths x in
  (if (x <? 0)%float then "-" else "") +:+
  pretty (n / 100) +:+ "." +:+ pretty (n / 10 mod 10) +:+ pretty (n mod 10).

(** No neighbour is out of order for [comparefn]. *)
Fixpoint in_order {A : Type} (comparefn : A -> A -> float) (l : list A) : bool :=
  match l with
  | a :: (b :: _) as l' => negb (0 <? comparefn a b)%float && in_order comparefn l'
  | _ => true
  end.

(** [l.map(g)] with the index, on rows that nothing changes meanwhile. *)
Fixpoint mapR_indexed (g : nat -> object -> result object) (i : nat) (l : list object) :
  result (list object) :=
  match l with
  | [] => Ok []
  | r :: l' => r' ← g i r; rest ← mapR_indexed g (S i) l'; Ok (r' :: rest)
  end.

(** The columns the stages read. *)
Definition source_column (k : string) : Prop :=
  k ∈ ["Volume"; "Open"; "High"; "Low"; "Close"].

(** The columns the stages write: the volume change, the price change of a
    field, and the moving average of a field for a window length. *)
Definition volume_column : string := "Daily Change in Volume".

Definition price_column (key : string) : string := key +:+ " - Daily Percentage Change".

Definition moving_average_column (multiplier : float) (cell : string) : string :=
  cell +:+ " Moving Average - " +:+ toString multiplier +:+ " days".

(** The value [percentagesChangeInVolume] computes for row [i]. *)
Definition volume_change (data : list object) (i : nat) (row : object) : result value :=
  if (Z.of_nat i - 1 >=? 0)
     && strict_neq (row !! "Volume") NOT_APPLICABLE
     && strict_neq (element_prop data (Z.of_nat i - 1) "Volume") NOT_APPLICABLE
  then
    oldText ← replace_commas (element_prop data (Z.of_nat i - 1) "Volume");
    newText ← replace_commas (row !! "Volume");
    Ok (VNum ((parseFloat newText - parseFloat oldText) / parseFloat oldText * 100)%float)
  else Ok (VStr "-").

(** The value [percentagesChangeInPrices] computes for row [i] and [key]. *)
Definition price_change (data : list object) (i : nat) (row : object) (key : string) : result value :=
  if (Z.of_nat i - 1 >? 0)
     && strict_neq (row !! key) NOT_APPLICABLE
     && strict_neq (element_prop data (Z.of_nat i - 1) key) NOT_APPLICABLE
  then
    oldText ← replace_commas (element_prop data (Z.of_nat i - 1) key);
    newText ← replace_commas (row !! key);
    Ok (VNum ((parseFloat newText - parseFloat oldText) / parseFloat oldText * 100)%float)
  else Ok (VStr "-").

(** The sum [movingAverage] takes over its window, and the cell it writes. *)
Definition window_sum (multiplier : float) (data : list object) (i : nat) (cell : string) : float :=
  reduce (fun cellAccum row => (cellAccum + ToNumber (row !! cell))%float)
    (slice data (number_of_nat i + 1 - multiplier)%float (number_of_nat i + 1)%float) 0%float.

Definition moving_average_cell (multiplier : float) (data : list object) (i : nat) (cell : string) : value :=
  if (number_of_nat i <? multiplier - 1)%float then VStr NOT_APPLICABLE
  else VStr (numberToCurrencyValue (window_sum multiplier data i cell / multiplier)%float).

(** The text of a moving-average cell, for the window length [len] and the
    row [i] of [data]: the sentinel while the row index is below [len - 1];
    from there on, unless the average of the window is [NaN], the average
    rounded to two decimals when it is below [1e21] in magnitude, and the
    text that [Number] has of itself otherwise ([1e+21], [Infinity]). *)
Definition average_text (len : float) (data : list object) (i : nat) (cell text : string) :
  Prop :=
  if (number_of_nat i <? len - 1)%float then text = NOT_APPLICABLE
  else
    let average := (window_sum len data i cell / len)%float in
    is_nan average = false ->
    text = if (PrimFloat.abs average <? 1e21)%float then rounded_to_two_decimals average
           else toString average.

(** Columns written one after the other into an object. *)
Definition write_columns (name : string -> string) (val : string -> value)
  (keys : list string) (acc : object) : object :=
  fold_left (fun a c => <[name c := val c]> a) keys acc.
Arguments write_columns : simpl never.

(** What a failed result stands for when a value is wanted. *)
Definition result_value (r : result value) : value :=
  match r with
  | Ok v => v
  | _ => VStr EmptyString
  end.

(** The rows the three stages compute, each from the rows it was given. *)
Definition volume_row (data : list object) (i : nat) (row : object) : result object :=
  change ← volume_change data i row;
  Ok (<[volume_column := change]> row).

Definition price_row (data : list object) (i : nat) (row : object) : result object :=
  _ ← mapR (price_change data i row) VALUE_CELLS;
  Ok (write_columns price_column (fun key => result_value (price_change data i row key))
        VALUE_CELLS row).

Definition moving_average_row (multiplier : float) (data : list object) (i : nat) (row : object) :
  result object :=
  Ok (write_columns (moving_average_column multiplier)
        (moving_average_cell multiplier data i) VALUE_CELLS row).

(** [c] shifted left by [t] bits, and the binary64 value of a natural number
    below [2^53]: its 53-bit mantissa and its exponent. *)
Definition shl (c : positive) (t : Z) : positive :=
  match t with
  | Zpos k => Pos.iter xO c k
  | _ => c
  end.

Definition SFnat (z : Z) : spec_float :=
  match z with
  | Zpos c => S754_finite false (shl c (53 - Zpos (digits2_pos c))) (Zpos (digits2_pos c) - 53)
  | _ => S754_zero false
  end.

(** A cell that holds a string, as every cell of a parsed CSV does. *)
Definition is_string (v : option value) : bool :=
  match v with
  | Some (VStr _) => true
  | _ => false
  end.

(** Every row has a string in each of the columns [keys]. *)
Definition columns_are_strings (keys : list string) (data : list object) : bool :=
  forallb (fun row : object => forallb (fun key => is_string (row !! key)) keys) data.

(** What [binary_round_aux] returns has the sign it was given. *)
Definition has_sign (s : bool) (x : spec_float) : Prop :=
  match x with
  | S754_zero s' | S754_infinity s' | S754_finite s' _ _ => s' = s
  | S754_nan => True
  end.

(** The date a record is sorted by, and the test for a sequence in ascending
    order of date. *)
Definition date_of (Date_parse : string -> float) (dateKey : string) (row : object) : float :=
  Date_value Date_parse (row !! dateKey).

Fixpoint ascending (date : object -> float) (l : list object) : bool :=
  match l with
  | a :: (b :: _) as l' => (date a <=? date b)%float && ascending date l'
  | _ => true
  end.

(** The row [row'] is [row] with the columns [name c], [c] in [keys], written,
    each with a value that satisfies [P]. *)
Definition writes (name : string -> string) (keys : list string) (P : value -> Prop)
  (row row' : object) : Prop :=
  exists val, row' = write_columns name val keys row /\ forall c, c ∈ keys -> P (val c).

(** The kinds of value the stages write. *)
Definition is_change (v : value) : Prop :=
  v = VStr NOT_APPLICABLE \/ exists x, v = VNum x.

Definition is_average (v : value) : Prop :=
  v = VStr NOT_APPLICABLE \/ exists x, v = VStr (numberToCurrencyValue x).

(** A stage keeps the rows: as many rows in the same places, every column
    outside [written] with the value it had, every column of [written] set,
    and no column removed. *)
Definition keeps_rows (written : list string) (data out : list object) : Prop :=
  length out = length data /\
  forall i row, data !! i = Some row ->
    exists row', out !! i = Some row' /\
      (forall k, k ∉ written -> row' !! k = row !! k) /\
      (forall k, k ∈ written -> is_Some (row' !! k)) /\
      (forall k, is_Some (row !! k) -> is_Some (row' !! k)).

(** The row has a string in each of the columns [keys]. *)
Definition strings_in (keys : list string) (row : object) : Prop :=
  forall key, key ∈ keys -> is_string (row !! key) = true.

(** The column [k] of [row] is set, to a value that satisfies [P]. *)
Definition at_column (P : value -> Prop) (row : object) (k : string) : Prop :=
  exists v, row !! k = Some v /\ P v.

(** A row after the whole pipeline: each percentage change is the sentinel or
    a number, each moving average the sentinel or a text of
    [numberToCurrencyValue], which may be [NaN] or [Infinity]. *)
Definition enriched (lengths : list float) (row : object) : Prop :=
  at_column is_change row volume_column /\
  (forall key, key ∈ VALUE_CELLS -> at_column is_change row (price_column key)) /\
  (forall len cell, len ∈ lengths -> cell ∈ VALUE_CELLS ->
     at_column is_average row (moving_average_column len cell)).

(** The days from 1970-01-01 to the day [d] of the month [m] of the year [y]. *)
Definition days_from_civil (y m d : Z) : Z :=
  let y' := if m <=? 2 then y - 1 else y in
  let era := y' / 400 in
  let yoe := y' - era * 400 in
  let doy := (153 * (if 2 <? m then m - 3 else m + 9) + 2) / 5 + d - 1 in
  let doe := yoe * 365 + yoe / 4 - yoe / 100 + doy in
  era * 146097 + doe - 719468.

(** A sample host [Date.parse]: a string [YYYY-MM-DD] with a month of 1 .. 12
    and a day of 1 .. 31 is midnight UTC of that day, in milliseconds since
    1970-01-01; every other string is [NaN]. *)
Definition Date_parse_iso (s : string) : float :=
  match take_digits s with
  | ([y1; y2; y3; y4], String "-" s1) =>
      match take_digits s1 with
      | ([m1; m2], String "-" s2) =>
          match take_digits s2 with
          | ([d1; d2], EmptyString) =>
              let y := digits_value [y1; y2; y3; y4] in
              let m := digits_value [m1; m2] in
              let d := digits_value [d1; d2] in
              if (1 <=? m) && (m <=? 12) && (1 <=? d) && (d <=? 31) then
                SF2Prim (binary_normalize prec emax (days_from_civil y m d * 86400000) 0 false)
              else nan
          | _ => nan
          end
      | _ => nan
      end
  | _ => nan
  end.

(** ** Sample data *)

Definition example_header : list string := ["Date"; "Volume"; "Open"; "High"; "Low"; "Close"].

(** Three days with the volumes 100, "-" and 150. *)
Definition volumes_100_dash_150 : list object :=
  rowsToObjects [["2020-01-01"; "100"; "10"; "10"; "10"; "10"];
                 ["2020-01-02"; "-"; "20"; "20"; "20"; "20"];
                 ["2020-01-03"; "150"; "30"; "30"; "30"; "30"]] example_header.

(** Three days with the volumes 1,000, 1,500 and 3,000,000. *)
Definition volumes_with_commas : list object :=
  rowsToObjects [["2020-01-01"; "1,000"; "10"; "10"; "10"; "10"];
                 ["2020-01-02"; "1,500"; "20"; "20"; "20"; "20"];
                 ["2020-01-03"; "3,000,000"; "30"; "30"; "30"; "30"]] example_header.

(** Three days with the prices 10, 20 and 30 in all four fields. *)
Definition prices_10_20_30 : list object :=
  rowsToObjects [["2020-01-01"; "1,000"; "10"; "10"; "10"; "10"];
                 ["2020-01-02"; "1,100"; "20"; "20"; "20"; "20"];
                 ["2020-01-03"; "1,200"; "30"; "30"; "30"; "30"]] example_header.

(** Five days with the prices 10, 20, 30, 40 and 50 in all four fields. *)
Definition prices_10_to_50 : list object :=
  rowsToObjects [["2020-01-01"; "1,000"; "10"; "10"; "10"; "10"];
                 ["2020-01-02"; "1,100"; "20"; "20"; "20"; "20"];
                 ["2020-01-03"; "1,200"; "30"; "30"; "30"; "30"];
                 ["2020-01-04"; "1,300"; "40"; "40"; "40"; "40"];
                 ["2020-01-05"; "1,400"; "50"; "50"; "50"; "50"]] example_header.

(** Three days with the closing prices 10, "-" and 30. *)
Definition closes_10_dash_30 : list object :=
  rowsToObjects [["2020-01-01"; "1,000"; "10"; "10"; "10"; "10"];
                 ["2020-01-02"; "1,100"; "20"; "20"; "20"; "-"];
                 ["2020-01-03"; "1,200"; "30"; "30"; "30"; "30"]] example_header.

(** Two days with the volumes 0 and 5, and three days with the prices 1, 0
    and 5 in all four fields. *)
Definition volumes_0_5 : list object :=
  rowsToObjects [["2020-01-01"; "0"; "10"; "10"; "10"; "10"];
                 ["2020-01-02"; "5"; "20"; "20"; "20"; "20"]] example_header.

Definition prices_1_0_5 : list object :=
  rowsToObjects [["2020-01-01"; "1,000"; "1"; "1"; "1"; "1"];
                 ["2020-01-02"; "1,100"; "0"; "0"; "0"; "0"];
                 ["2020-01-03"; "1,200"; "5"; "5"; "5"; "5"]] example_header.

(** The CSV of three days with the volumes 0, 5 and "n/a". *)
Definition csv_volumes_0_5_na : list (list string) :=
  [example_header;
   ["2020-01-01"; "0"; "10"; "10"; "10"; "10"];
   ["2020-01-02"; "5"; "20"; "20"; "20"; "20"];
   ["2020-01-03"; "n/a"; "30"; "30"; "30"; "30"]].

(** A CSV with a seventh column, whose second row has six cells only. *)
Definition csv_with_short_row : list (list string) :=
  [["Date"; "Volume"; "Open"; "High"; "Low"; "Close"; "Adj Close"];
   ["2020-01-01"; "100"; "10"; "10"; "10"; "10"; "9"];
   ["2020-01-02"; "110"; "20"; "20"; "20"; "20"]].

(** A row that already has a column [Daily Change in Volume]. *)
Definition rows_with_volume_change : list object :=
  rowsToObjects [["2020-01-01"; "100"; "7"]] ["Date"; "Volume"; "Daily Change in Volume"].

(** A value that is a number, or a string that reads as one. *)
Definition valid_number (v : value) : bool :=
  match v with
  | VStr s => negb (String.eqb (trim s) EmptyString) && is_finite (StringToNumber s)
  | VNum x => is_finite x
  end.

(** A cell as C4 describes it: set, and the sentinel or a valid number. *)
Definition number_or_sentinel (v : option value) : Prop :=
  exists v', v = Some v' /\ (v' = VStr NOT_APPLICABLE \/ valid_number v' = true).



(** ** Definitions for the further properties *)

(** A stage given by the columns it writes: [w data i row] is the object of
    the new cells of row [i], laid over the row. *)
Definition written (w : list object -> nat -> object -> result object) (data : list object) :
  result (list object) :=
  mapR_indexed (fun i row => x ← w data i row; Ok (x ∪ row)) 0 data.

(** The cells the three stages write. *)
Definition volume_writes (data : list object) (i : nat) (row : object) : result object :=
  change ← volume_change data i row; Ok {[ volume_column := change ]}.

Definition price_writes (data : list object) (i : nat) (row : object) : result object :=
  _ ← mapR (price_change data i row) VALUE_CELLS;
  Ok (write_columns price_column (fun key => result_value (price_change data i row key))
        VALUE_CELLS ∅).

Definition moving_average_writes (multiplier : float) (data : list object) (i : nat)
  (row : object) : result object :=
  Ok (write_columns (moving_average_column multiplier)
        (moving_average_cell multiplier data i) VALUE_CELLS ∅).

(** A stage reads the source columns only, writes none of them, and fails
    with a [TypeError] if at all. *)
Record reads_sources (w : list object -> nat -> object -> result object) : Prop := {
  reads_agree : forall d d' i r r',
    Forall2 (agree_row source_column) d' d -> agree_row source_column r' r ->
    w d' i r' = w d i r;
  writes_apart : forall d i r x k, w d i r = Ok x -> source_column k -> x !! k = None;
  never_exits : forall d i r c, w d i r <> Exit c
}.

(** Three days of a file that has the columns [Date] and [Close] only. *)
Definition rows_without_volume : list object :=
  rowsToObjects [["2020-01-01"; "10"]; ["2020-01-02"; "20"]; ["2020-01-03"; "30"]]
    ["Date"; "Close"].

(** A list in ascending order of [key]. *)
Fixpoint sorted_by {A : Type} (key : A -> Z) (l : list A) : Prop :=
  match l with
  | [] => True
  | a :: l' => Forall (fun b => key a <= key b) l' /\ sorted_by key l'
  end.

(** Three days out of order, and the same days in order. *)
Definition csv_days_3_1_2 : list (list string) :=
  [example_header;
   ["2020-01-03"; "120"; "30"; "30"; "30"; "30"];
   ["2020-01-01"; "100"; "10"; "10"; "10"; "10"];
   ["2020-01-02"; "110"; "20"; "20"; "20"; "20"]].

Definition csv_days_1_2_3 : list (list string) :=
  [example_header;
   ["2020-01-01"; "100"; "10"; "10"; "10"; "10"];
   ["2020-01-02"; "110"; "20"; "20"; "20"; "20"];
   ["2020-01-03"; "120"; "30"; "30"; "30"; "30"]].

(** Three days of closing prices in a file that has no other column. *)
Definition rows_of_closes : list object :=
  rowsToObjects [["30"]; ["10"]; ["20"]] ["Close"].

(** The names of the columns the pipeline writes, for the window lengths
    [lengths]. *)
Definition derived_column (lengths : list float) (k : string) : Prop :=
  k = volume_column \/ k ∈ price_column <$> VALUE_CELLS \/
  exists len, len ∈ lengths /\ k ∈ moving_average_column len <$> VALUE_CELLS.

(** The rows [row] and [row'] hold the same outside the columns [written]. *)
Definition same_outside (written : string -> Prop) (row row' : object) : Prop :=
  forall k, ~ written k -> row' !! k = row !! k.

(** A file whose header names the column [Close] twice. *)
Definition csv_with_two_closes : list (list string) :=
  [["Date"; "Close"; "Close"];
   ["2020-01-01"; "10"; "11"];
   ["2020-01-02"; "20"]].

(** Some character of [s] is a letter, a digit or an underscore. *)
Fixpoint has_word_char (s : string) : bool :=
  match s with
  | String a s' => is_word_char a || has_word_char s'
  | EmptyString => false
  end.

(** [s] ends with [extension] after one more character that is not a line
    terminator. *)
Fixpoint ends_with_extension (extension s : string) : bool :=
  match s with
  | String a s' =>
      negb (is_line_terminator a) && String.eqb s' extension || ends_with_extension extension s'
  | EmptyString => false
  end.

(** [s] begins with the text [t]. *)
Fixpoint starts_with (t s : string) : bool :=
  match t with
  | EmptyString => true
  | String c t' =>
      match s with
      | String a s' => Ascii.eqb a c && starts_with t' s'
      | EmptyString => false
      end
  end.

(** [s] has no character [a]. *)
Fixpoint without_char (a : ascii) (s : string) : bool :=
  match s with
  | String b s' => negb (Ascii.eqb b a) && without_char a s'
  | EmptyString => true
  end.

(** A host for the examples: the home directory is [/home/user], paths are
    resolved against [/work] by joining (a piece that begins with [/] starts
    anew), nothing is normalised; the names of an object come in the order of
    the map, and the two writers give back the empty text. *)
Definition example_host : host := {|
  untildify := fun file => "/home/user" +:+ String.substring 1 (String.length file - 1) file;
  path_resolve := fun pieces =>
    fold_left (fun acc piece => if starts_with "/" piece then piece else acc +:+ "/" +:+ piece)
      pieces "/work";
  process_cwd := "/work";
  Object_keys := fun row => fst <$> map_to_list row;
  csv_stringify := fun _ => EmptyString;
  JSON_stringify := fun _ => EmptyString
|}.

(** A text of decimal digits. *)
Definition is_decimal_digit (a : ascii) : bool :=
  let n := N_of_ascii a in
  ((48 <=? n) && (n <=? 57))%N.

Fixpoint decimal_digits (s : string) : bool :=
  match s with
  | EmptyString => true
  | String a s' => is_decimal_digit a && decimal_digits s'
  end.

(** The sign bit of a value that is a number. *)
Definition is_signed (s : bool) (x : spec_float) : bool :=
  match x with
  | S754_zero s' | S754_infinity s' | S754_finite s' _ _ => Bool.eqb s' s
  | S754_nan => false
  end.

(** The change [x] does not contradict the move from [q] to [c]: it is not
    negative after a rise, not positive after a fall, and zero when nothing
    moved. *)
Definition follows_move (c q x : float) : bool :=
  (implb (q <? c) (0 <=? x) && implb (c <? q) (x <=? 0) &&
   implb (c =? q) (PrimFloat.is_zero x))%float.

(** Two days with a volume that rises from 100 to 150. *)
Definition volumes_100_150 : list object :=
  rowsToObjects [["2020-01-01"; "100"; "10"; "10"; "10"; "10"];
                 ["2020-01-02"; "150"; "20"; "20"; "20"; "20"]] example_header.

(** ** Reasoning about the runtime *)

(** *** Results *)

Lemma bind_Ok_inv {A B : Type} (m : result A) (f : A -> result B) (b : B) :
  m ≫= f = Ok b -> exists a, m = Ok a /\ f a = Ok b.
Proof. destruct m as [a| |c]; simpl; intros H; try discriminate. by exists a. Qed.

Lemma mapR_indexed_Ok g l : forall i out,
  mapR_indexed g i l = Ok out ->
  length out = length l /\
  forall j r, l !! j = Some r -> exists r', g (i + j)%nat r = Ok r' /\ out !! j = Some r'.
Proof.
  induction l as [|r l IH]; intros i out H; simpl in H.
  - injection H as <-. split; [done|]. intros j r Hj. by rewrite lookup_nil in Hj.
  - apply bind_Ok_inv in H as (r' & Hr & H).
    apply bind_Ok_inv in H as (rest & Hrest & H). injection H as <-.
    destruct (IH _ _ Hrest) as [Hlen Hrows]. split; [simpl; lia|].
    intros [|j] r0 Hj; simpl in Hj.
    + injection Hj as <-. exists r'. by rewrite Nat.add_0_r.
    + destruct (Hrows _ _ Hj) as (r0' & H1 & H2). exists r0'.
      split; [|done]. by replace (i + S j)%nat with (S i + j)%nat by lia.
Qed.

Lemma mapR_indexed_total g l : forall i,
  (forall j r, l !! j = Some r -> exists r', g (i + j)%nat r = Ok r') ->
  exists out, mapR_indexed g i l = Ok out.
Proof.
  induction l as [|r l IH]; intros i H; simpl; [by eexists|].
  destruct (H 0%nat r eq_refl) as [r' Hr]. rewrite Nat.add_0_r in Hr. rewrite Hr. simpl.
  destruct (IH (S i)) as [rest Hrest].
  - intros j r0 Hj. destruct (H (S j) r0 Hj) as [r0' Hr0]. exists r0'.
    by replace (S i + j)%nat with (i + S j)%nat by lia.
  - rewrite Hrest. by eexists.
Qed.

(** *** Rows changed in place

    A stage reads the columns [K] of the rows and writes other columns. Then
    what it reads in the store is what the rows held at the start, and the
    stage is a plain indexed map over the rows it was given. *)

Section InPlace.

Variable K : string -> Prop.
Variable f : list object -> nat -> object -> result object.

Hypothesis f_reads : forall store data i row,
  Forall2 (agree_row K) store data -> f store i row = f data i row.
Hypothesis f_writes : forall data i row row',
  f data i row = Ok row' -> agree_row K row' row.

Lemma agree_row_refl (l : list object) : Forall2 (agree_row K) l l.
Proof. induction l; constructor; [done|assumption]. Qed.

Lemma map_in_place_spec (data : list object) : forall n i store,
  Forall2 (agree_row K) store data ->
  drop i store = drop i data ->
  (i + n)%nat = length data ->
  map_in_place f n i store =
    (tail ← mapR_indexed (f data) i (drop i data); Ok (take i store ++ tail)%list).
Proof.
  induction n as [|n IH]; intros i store Hagree Hdrop Hlen; simpl.
  - rewrite (drop_ge data i) by lia. simpl.
    rewrite take_ge, app_nil_r; [done|]. rewrite (Forall2_length _ _ _ Hagree). lia.
  - assert (Hi : (i < length data)%nat) by lia.
    destruct (lookup_lt_is_Some_2 data i Hi) as [row Hrow].
    assert (Hsrow : store !! i = Some row).
    { rewrite <- (Nat.add_0_r i), <- lookup_drop, Hdrop, lookup_drop, Nat.add_0_r. done. }
    rewrite Hsrow. rewrite (drop_S data row i Hrow). simpl.
    rewrite (f_reads store data i row Hagree).
    destruct (f data i row) as [row'| |c] eqn:Hf; simpl; [|done|done].
    rewrite IH.
    + destruct (mapR_indexed (f data) (S i) (drop (S i) data)) as [rest| |c]; simpl; [|done|done].
      f_equal. rewrite (take_S_r (<[i:=row']> store) i row').
      * rewrite take_insert_ge by lia. by rewrite <- app_assoc.
      * apply list_lookup_insert_eq. rewrite (Forall2_length _ _ _ Hagree). lia.
    + apply Forall2_lookup. intros j. destruct (decide (j = i)) as [->|Hne].
      * rewrite list_lookup_insert_eq by (rewrite (Forall2_length _ _ _ Hagree); lia).
        rewrite Hrow. constructor. by apply (f_writes data i row).
      * rewrite list_lookup_insert_ne by done. by apply Forall2_lookup.
    + rewrite drop_insert_lt by lia.
      rewrite (drop_S store row i Hsrow), (drop_S data row i Hrow) in Hdrop.
      by injection Hdrop.
    + lia.
Qed.

Lemma Array_map_rows_spec (data : list object) :
  Array_map_rows f data = mapR_indexed (f data) 0 data.
Proof.
  unfold Array_map_rows. rewrite (map_in_place_spec data); [|apply agree_row_refl|done|done].
  rewrite drop_0. destruct (mapR_indexed (f data) 0 data); done.
Qed.

End InPlace.
(** *** The columns a stage reads and the columns it writes *)

Lemma write_columns_cons name val c keys acc :
  write_columns name val (c :: keys) acc = write_columns name val keys (<[name c := val c]> acc).
Proof. reflexivity. Qed.

Lemma write_columns_other name val keys : forall acc k,
  k ∉ name <$> keys -> write_columns name val keys acc !! k = acc !! k.
Proof.
  induction keys as [|c keys IH]; intros acc k Hk; [done|].
  rewrite fmap_cons, not_elem_of_cons in Hk. destruct Hk as [Hne Hk].
  rewrite write_columns_cons, IH by done. by rewrite lookup_insert_ne.
Qed.

Lemma write_columns_lookup name val keys : forall acc c,
  c ∈ keys ->
  (forall c', c' ∈ keys -> name c' = name c -> c' = c) ->
  write_columns name val keys acc !! name c = Some (val c).
Proof.
  induction keys as [|c0 keys IH]; intros acc c Hc Hinj; [by apply elem_of_nil in Hc|].
  rewrite write_columns_cons.
  destruct (decide (c ∈ keys)) as [Hin|Hnin].
  - apply IH; [done|]. intros c' Hc'. apply Hinj. by right.
  - apply elem_of_cons in Hc as [->|Hc]; [|done].
    rewrite write_columns_other.
    + by rewrite lookup_insert_eq.
    + intros Hk. apply list_elem_of_fmap in Hk as (c' & Heq & Hc').
      assert (c' = c0) as -> by (apply Hinj; [by right|done]). done.
Qed.

Lemma write_columns_union name val keys : forall acc row,
  write_columns name val keys acc ∪ row = write_columns name val keys (acc ∪ row).
Proof.
  induction keys as [|c keys IH]; intros acc row; [done|].
  rewrite !write_columns_cons, IH. by rewrite insert_union_l.
Qed.

Lemma reduceR_ext {A B : Type} (f g : B -> A -> result B) (l : list A) : forall acc,
  (forall a c, c ∈ l -> f a c = g a c) -> reduceR f l acc = reduceR g l acc.
Proof.
  induction l as [|c l IH]; intros acc H; simpl; [done|].
  rewrite (H acc c) by left. destruct (g acc c); simpl; [|done|done].
  apply IH. intros a' c' Hc'. apply H. by right.
Qed.

Lemma string_length_app (s t : string) :
  String.length (s +:+ t) = (String.length s + String.length t)%nat.
Proof. induction s as [|a s IH]; simpl; [done|]. by rewrite IH. Qed.

Lemma string_app_assoc (a b c : string) : (a +:+ b) +:+ c = a +:+ b +:+ c.
Proof.
  induction a as [|x a IH]; [done|].
  change ((String x a +:+ b) +:+ c) with (String x ((a +:+ b) +:+ c)). by rewrite IH.
Qed.

Lemma string_app_nil_r (a : string) : a +:+ EmptyString = a.
Proof.
  induction a as [|x a IH]; [done|].
  change (String x a +:+ EmptyString) with (String x (a +:+ EmptyString)). by rewrite IH.
Qed.

Lemma string_app_inj_r (s t u : string) : s +:+ u = t +:+ u -> s = t.
Proof.
  revert t. induction s as [|a s IH]; intros [|b t] H; simpl in H.
  - done.
  - apply (f_equal String.length) in H. rewrite !string_length_app in H. simpl in H.
    rewrite ?string_length_app in H. lia.
  - apply (f_equal String.length) in H. rewrite !string_length_app in H. simpl in H.
    rewrite ?string_length_app in H. lia.
  - injection H as Hab H. subst. f_equal. by apply IH.
Qed.

Lemma string_app_inj_l (s t u : string) : s +:+ t = s +:+ u -> t = u.
Proof.
  induction s as [|a s IH]; intros H; [done|].
  change (String a (s +:+ t) = String a (s +:+ u)) in H. injection H as H. by apply IH.
Qed.

Lemma Object_assign_singleton (target : gmap string value) k v :
  k <> "__proto__" -> Object_assign target {[ k := v ]} = <[ k := v ]> target.
Proof.
  intros Hk. unfold Object_assign. rewrite delete_singleton_ne by done.
  symmetry. apply insert_union_singleton_l.
Qed.

Lemma Object_assign_proto (target : gmap string value) v :
  Object_assign target {[ "__proto__" := v ]} = target.
Proof. unfold Object_assign. by rewrite delete_singleton_eq, (left_id_L ∅ (∪)). Qed.

Lemma Object_assign_union (target source : gmap string value) :
  source !! "__proto__" = None -> Object_assign target source = source ∪ target.
Proof. intros H. unfold Object_assign. by rewrite delete_id. Qed.

Lemma reduceR_columns name (step : string -> result value) keys : forall acc,
  (forall key, name key <> "__proto__") ->
  reduceR (fun accum key => change ← step key; Ok (Object_assign accum {[ name key := change ]}))
    keys acc =
  (_ ← mapR step keys; Ok (write_columns name (fun key => result_value (step key)) keys acc)).
Proof.
  induction keys as [|c keys IH]; intros acc Hname; simpl; [done|].
  destruct (step c) as [v| |code] eqn:Hc; simpl; [|done|done].
  rewrite Object_assign_singleton by done.
  rewrite IH by done. destruct (mapR step keys); simpl; [|done|done].
  by rewrite write_columns_cons, Hc.
Qed.

Lemma mapR_Ok_all {A B : Type} (f : A -> result B) (l : list A) (out : list B) :
  mapR f l = Ok out -> forall a, a ∈ l -> exists b, f a = Ok b.
Proof.
  revert out. induction l as [|a0 l IH]; intros out H a Ha; [by apply elem_of_nil in Ha|].
  simpl in H. apply bind_Ok_inv in H as (b & Hb & H).
  apply bind_Ok_inv in H as (bs & Hbs & _).
  apply elem_of_cons in Ha as [->|Ha]; [by exists b|]. by eapply IH.
Qed.

Lemma mapR_total {A B : Type} (f : A -> result B) (l : list A) :
  (forall a, a ∈ l -> exists b, f a = Ok b) -> exists out, mapR f l = Ok out.
Proof.
  induction l as [|a l IH]; intros H; simpl; [by eexists|].
  destruct (H a) as [b Hb]; [by left|]. rewrite Hb. simpl.
  destruct IH as [bs Hbs]; [intros a' Ha'; apply H; by right|].
  rewrite Hbs. by eexists.
Qed.

Lemma map_in_place_ext f g : forall n i store,
  (forall s j r, f s j r = g s j r) -> map_in_place f n i store = map_in_place g n i store.
Proof.
  induction n as [|n IH]; intros i store H; simpl; [done|].
  destruct (store !! i) as [row|]; [|done]. rewrite H.
  destruct (g store i row); simpl; [|done|done]. by apply IH.
Qed.

Lemma source_column_cases k :
  source_column k <-> k = "Volume" \/ k = "Open" \/ k = "High" \/ k = "Low" \/ k = "Close".
Proof.
  unfold source_column. rewrite !elem_of_cons, elem_of_nil. tauto.
Qed.

Lemma VALUE_CELLS_cases c :
  c ∈ VALUE_CELLS <-> c = "Open" \/ c = "High" \/ c = "Low" \/ c = "Close".
Proof. unfold VALUE_CELLS. rewrite !elem_of_cons, elem_of_nil. tauto. Qed.

Lemma VALUE_CELLS_source c : c ∈ VALUE_CELLS -> source_column c.
Proof. rewrite VALUE_CELLS_cases, source_column_cases. tauto. Qed.

(** No stage writes a column that a stage reads. *)
Lemma volume_column_not_source : ~ source_column volume_column.
Proof. rewrite source_column_cases. unfold volume_column. intuition discriminate. Qed.

Lemma price_column_not_source c k : c ∈ VALUE_CELLS -> source_column k -> price_column c <> k.
Proof.
  rewrite VALUE_CELLS_cases, source_column_cases. unfold price_column.
  intros [->|[->|[->| ->]]] [->|[->|[->|[->| ->]]]]; simpl; discriminate.
Qed.

Lemma moving_average_column_not_source multiplier c k :
  c ∈ VALUE_CELLS -> source_column k -> moving_average_column multiplier c <> k.
Proof.
  rewrite VALUE_CELLS_cases, source_column_cases. unfold moving_average_column.
  intros [->|[->|[->| ->]]] [->|[->|[->|[->| ->]]]]; simpl; discriminate.
Qed.

(** No derived column bears the name [__proto__]. *)
Lemma price_column_not_proto key : price_column key <> "__proto__".
Proof.
  unfold price_column. intros H. apply (f_equal String.length) in H.
  rewrite string_length_app in H. simpl in H. lia.
Qed.

Lemma moving_average_column_not_proto multiplier cell :
  moving_average_column multiplier cell <> "__proto__".
Proof.
  unfold moving_average_column. intros H. apply (f_equal String.length) in H.
  rewrite !string_length_app in H. simpl in H. lia.
Qed.

Lemma write_columns_not_proto name val keys :
  (forall c, name c <> "__proto__") ->
  write_columns name val keys ∅ !! "__proto__" = None.
Proof.
  intros Hname. rewrite write_columns_other; [apply lookup_empty|].
  intros H. apply list_elem_of_fmap in H as (c & Hc & _). by destruct (Hname c).
Qed.

Lemma price_column_inj c c' :
  c ∈ VALUE_CELLS -> c' ∈ VALUE_CELLS -> price_column c = price_column c' -> c = c'.
Proof.
  rewrite !VALUE_CELLS_cases. unfold price_column.
  intros [->|[->|[->| ->]]] [->|[->|[->| ->]]]; simpl; intros H; first [done | discriminate H].
Qed.

Lemma moving_average_column_inj multiplier c c' :
  c ∈ VALUE_CELLS -> c' ∈ VALUE_CELLS ->
  moving_average_column multiplier c = moving_average_column multiplier c' -> c = c'.
Proof.
  rewrite !VALUE_CELLS_cases. unfold moving_average_column.
  intros [->|[->|[->| ->]]] [->|[->|[->| ->]]]; simpl; intros H; first [done | discriminate H].
Qed.

(** What a stage reads in the store is what the rows held at the start. *)
Lemma element_prop_agree (store data : list object) z key :
  Forall2 (agree_row source_column) store data -> source_column key ->
  element_prop store z key = element_prop data z key.
Proof.
  intros Hagree Hkey. unfold element_prop. destruct (z <? 0); [done|].
  destruct (store !! Z.to_nat z) as [r|] eqn:Hr.
  - destruct (Forall2_lookup_l _ _ _ _ _ Hagree Hr) as (r0 & -> & Hrr). simpl. by apply Hrr.
  - destruct (data !! Z.to_nat z) as [r0|] eqn:Hr0; [|done].
    apply lookup_lt_Some in Hr0. apply lookup_ge_None in Hr.
    rewrite (Forall2_length _ _ _ Hagree) in Hr. lia.
Qed.

Lemma slice_agree (store data : list object) a b :
  Forall2 (agree_row source_column) store data ->
  Forall2 (agree_row source_column) (slice store a b) (slice data a b).
Proof.
  intros Hagree. unfold slice. rewrite (Forall2_length _ _ _ Hagree).
  by apply Forall2_take, Forall2_drop.
Qed.

Lemma window_sum_agree multiplier (store data : list object) i cell :
  Forall2 (agree_row source_column) store data -> source_column cell ->
  window_sum multiplier store i cell = window_sum multiplier data i cell.
Proof.
  intros Hagree Hcell. unfold window_sum.
  generalize (slice_agree store data (number_of_nat i + 1 - multiplier)%float (number_of_nat i + 1)%float Hagree).
  generalize 0%float.
  generalize (slice store (number_of_nat i + 1 - multiplier)%float (number_of_nat i + 1)%float).
  generalize (slice data (number_of_nat i + 1 - multiplier)%float (number_of_nat i + 1)%float).
  intros l0 l acc H. revert acc. induction H as [|r r0 l l0 Hr H IH]; intros acc; [done|].
  simpl. rewrite (Hr cell Hcell). apply IH.
Qed.

(** The three stages as indexed maps over the rows they were given. *)
Lemma percentagesChangeInVolume_rows data :
  percentagesChangeInVolume data = mapR_indexed (volume_row data) 0 data.
Proof.
  transitivity (Array_map_rows volume_row data).
  - unfold percentagesChangeInVolume, Array_map_rows. apply map_in_place_ext.
    intros s j r. unfold volume_row, volume_change, volume_column.
    match goal with |- ?m ≫= _ = ?m' ≫= _ => change m' with m; destruct m end; simpl; try done.
    by rewrite Object_assign_singleton.
  - apply (Array_map_rows_spec source_column).
    + intros store d i row Hagree. unfold volume_row, volume_change.
      rewrite (element_prop_agree store d); [done|done|].
      rewrite source_column_cases. tauto.
    + intros d i row row' H k Hk. unfold volume_row in H.
      apply bind_Ok_inv in H as (c & _ & H). injection H as <-.
      apply lookup_insert_ne. intros <-. by apply volume_column_not_source.
Qed.

Lemma percentagesChangeInPrices_rows data :
  percentagesChangeInPrices data = mapR_indexed (price_row data) 0 data.
Proof.
  transitivity (Array_map_rows price_row data).
  - unfold percentagesChangeInPrices, Array_map_rows. apply map_in_place_ext.
    intros s j r. unfold price_row.
    change (reduceR _ _ ∅) with
      (reduceR (fun accum key => change ← price_change s j r key;
                                 Ok (Object_assign accum {[ price_column key := change ]}))
         VALUE_CELLS ∅).
    rewrite reduceR_columns by apply price_column_not_proto.
    destruct (mapR (price_change s j r) VALUE_CELLS); simpl; try done.
    rewrite Object_assign_union by apply write_columns_not_proto, price_column_not_proto.
    by rewrite write_columns_union, (left_id ∅ (∪)).
  - apply (Array_map_rows_spec source_column).
    + intros store d i row Hagree. unfold price_row.
      assert (Hpc : forall key, key ∈ VALUE_CELLS ->
                price_change store i row key = price_change d i row key).
      { intros key Hkey. unfold price_change.
        by rewrite (element_prop_agree store d) by auto using VALUE_CELLS_source. }
      rewrite <- !reduceR_columns with (name := price_column) (acc := row)
        by apply price_column_not_proto.
      apply reduceR_ext. intros a c Hc. by rewrite Hpc.
    + intros d i row row' H k Hk. unfold price_row in H.
      apply bind_Ok_inv in H as (c & _ & H). injection H as <-.
      apply write_columns_other. intros Hin.
      apply list_elem_of_fmap in Hin as (c' & -> & Hc').
      by apply (price_column_not_source c' (price_column c')).
Qed.

Lemma movingAverage_rows multiplier data :
  movingAverage multiplier data = mapR_indexed (moving_average_row multiplier data) 0 data.
Proof.
  transitivity (Array_map_rows (moving_average_row multiplier) data).
  - unfold movingAverage, Array_map_rows. apply map_in_place_ext.
    intros s j r. unfold moving_average_row. f_equal.
    match goal with
    | |- Object_assign r ?avgs = _ =>
        replace avgs with (write_columns (moving_average_column multiplier)
                             (moving_average_cell multiplier s j) VALUE_CELLS ∅)
    end.
    + rewrite Object_assign_union
        by apply write_columns_not_proto, moving_average_column_not_proto.
      by rewrite write_columns_union, (left_id ∅ (∪)).
    + unfold write_columns, reduce.
      apply (f_equal (fun f => fold_left f VALUE_CELLS ∅)).
      unfold moving_average_cell, window_sum, reduce.
      destruct (number_of_nat j <? multiplier - 1)%float; reflexivity.
  - apply (Array_map_rows_spec source_column).
    + intros store d i row Hagree. unfold moving_average_row. f_equal.
      unfold write_columns.
      assert (Hcell : forall c, c ∈ VALUE_CELLS ->
                moving_average_cell multiplier store i c = moving_average_cell multiplier d i c).
      { intros c Hc. unfold moving_average_cell.
        by rewrite (window_sum_agree multiplier store d) by auto using VALUE_CELLS_source. }
      revert Hcell. generalize row. generalize VALUE_CELLS.
      induction l as [|c l IH]; intros acc Hcell; simpl; [done|].
      rewrite Hcell by left. apply IH. intros c' Hc'. apply Hcell. by right.
    + intros d i row row' H k Hk. unfold moving_average_row in H. injection H as <-.
      apply write_columns_other. intros Hin.
      apply list_elem_of_fmap in Hin as (c' & -> & Hc').
      by apply (moving_average_column_not_source multiplier c' (moving_average_column multiplier c')).
Qed.
(** *** Natural numbers as binary64 values *)

Lemma shl_spec c t : 0 <= t -> Zpos (shl c t) = Zpos c * 2 ^ t.
Proof.
  destruct t as [|k|k]; intros Ht; [simpl; lia| |lia].
  unfold shl. induction k as [|k IH] using Pos.peano_ind.
  - simpl. lia.
  - rewrite Pos.iter_succ, Pos2Z.inj_succ, Z.pow_succ_r by lia.
    rewrite (Pos2Z.inj_xO (Pos.iter xO c k)), IH by lia. lia.
Qed.

Lemma digits2_pos_bounds c :
  2 ^ (Zpos (digits2_pos c) - 1) <= Zpos c < 2 ^ Zpos (digits2_pos c).
Proof.
  induction c as [c IH|c IH|]; simpl digits2_pos.
  - rewrite Pos2Z.inj_succ, (Pos2Z.inj_xI c).
    replace (Z.succ (Zpos (digits2_pos c)) - 1) with (Z.succ (Zpos (digits2_pos c) - 1)) by lia.
    rewrite !Z.pow_succ_r by lia. lia.
  - rewrite Pos2Z.inj_succ, (Pos2Z.inj_xO c).
    replace (Z.succ (Zpos (digits2_pos c)) - 1) with (Z.succ (Zpos (digits2_pos c) - 1)) by lia.
    rewrite !Z.pow_succ_r by lia. lia.
  - change (2 ^ 0 <= 1 < 2 ^ 1). lia.
Qed.

Lemma digits2_pos_le_53 c : Zpos c < 2 ^ 53 -> Zpos (digits2_pos c) <= 53.
Proof.
  intros Hc. pose proof (digits2_pos_bounds c) as [Hlo _].
  destruct (Z.le_gt_cases (Zpos (digits2_pos c)) 53) as [|Hgt]; [done|].
  assert (2 ^ 53 <= 2 ^ (Zpos (digits2_pos c) - 1)) by (apply Z.pow_le_mono_r; lia). lia.
Qed.

Lemma digits2_pos_unique c d :
  2 ^ (d - 1) <= Zpos c < 2 ^ d -> Zpos (digits2_pos c) = d.
Proof.
  intros [Hlo Hhi]. pose proof (digits2_pos_bounds c) as [Hlo' Hhi'].
  assert (0 < d).
  { destruct (Z.lt_ge_cases 0 d) as [|Hd]; [done|]. exfalso.
    destruct (Z.eq_dec d 0) as [->|]; [change (2 ^ 0) with 1 in Hhi; lia|].
    rewrite Z.pow_neg_r in Hhi by lia. lia. }
  destruct (Z.lt_trichotomy (Zpos (digits2_pos c)) d) as [Hlt|[Heq|Hgt]]; [|done|].
  - assert (2 ^ Zpos (digits2_pos c) <= 2 ^ (d - 1)) by (apply Z.pow_le_mono_r; lia). lia.
  - assert (2 ^ d <= 2 ^ (Zpos (digits2_pos c) - 1)) by (apply Z.pow_le_mono_r; lia). lia.
Qed.

Lemma digits2_pos_shl c t : 0 <= t -> Zpos (digits2_pos (shl c t)) = Zpos (digits2_pos c) + t.
Proof.
  intros Ht. apply digits2_pos_unique. rewrite shl_spec by done.
  pose proof (digits2_pos_bounds c) as [Hlo Hhi].
  replace (Zpos (digits2_pos c) + t - 1) with ((Zpos (digits2_pos c) - 1) + t) by lia.
  rewrite !Z.pow_add_r by lia. split.
  - apply Z.mul_le_mono_nonneg_r; [apply Z.pow_nonneg|]; lia.
  - apply Z.mul_lt_mono_pos_r; [apply Z.pow_pos_nonneg|]; lia.
Qed.

Lemma shl_shl c a b : 0 <= a -> 0 <= b -> shl (shl c a) b = shl c (a + b).
Proof.
  intros Ha Hb. apply Pos2Z.inj. rewrite !shl_spec by lia. rewrite Z.pow_add_r by lia. lia.
Qed.

Lemma iter_pos_shr_1 k : forall m,
  SpecFloat.iter_pos shr_1 k (Build_shr_record (Zpos (Pos.iter xO m k)) false false) =
    Build_shr_record (Zpos m) false false.
Proof.
  induction k as [k IH|k IH|]; intros m; simpl.
  - by rewrite !IH.
  - by rewrite !IH.
  - done.
Qed.
Lemma fexp_53 e : -1074 <= e -> fexp prec emax (53 + e) = e.
Proof. intros He. unfold fexp, SpecFloat.emin, prec, emax. lia. Qed.

Lemma binary_round_aux_exact s M e :
  Zpos (digits2_pos M) = 53 -> -1074 <= e <= 971 ->
  binary_round_aux prec emax s (Zpos M) e loc_Exact = S754_finite s M e.
Proof.
  intros HM He. unfold binary_round_aux, shr_fexp. simpl Zdigits2.
  rewrite HM, fexp_53, Z.sub_diag by lia. simpl.
  rewrite HM, fexp_53, Z.sub_diag by lia. simpl.
  replace (e <=? emax - prec) with true; [done|].
  symmetry. apply Z.leb_le. unfold emax, prec. lia.
Qed.

Lemma binary_round_aux_shifted s M k e :
  Zpos (digits2_pos M) = 53 -> -1074 <= e + Zpos k <= 971 ->
  binary_round_aux prec emax s (Zpos (Pos.iter xO M k)) e loc_Exact =
    S754_finite s M (e + Zpos k).
Proof.
  intros HM He.
  assert (Hd : Zpos (digits2_pos (Pos.iter xO M k)) = 53 + Zpos k).
  { rewrite <- HM. apply (digits2_pos_shl M (Zpos k)). lia. }
  unfold binary_round_aux. unfold shr_fexp at 1. simpl Zdigits2. rewrite Hd.
  replace (53 + Zpos k + e) with (53 + (e + Zpos k)) by lia.
  rewrite fexp_53 by lia.
  replace (e + Zpos k - e) with (Zpos k) by lia.
  simpl shr_record_of_loc. unfold shr. rewrite iter_pos_shr_1.
  simpl loc_of_shr_record. simpl round_nearest_even. simpl shr_m.
  unfold shr_fexp. simpl Zdigits2. rewrite HM, fexp_53, Z.sub_diag by lia. simpl.
  replace (e + Zpos k <=? emax - prec) with true; [done|].
  symmetry. apply Z.leb_le. unfold emax, prec. lia.
Qed.

Lemma binary_round_shl s c j :
  0 <= j -> Zpos c < 2 ^ 53 ->
  binary_round prec emax s (shl c j) (- j) =
    S754_finite s (shl c (53 - Zpos (digits2_pos c))) (Zpos (digits2_pos c) - 53).
Proof.
  intros Hj Hc. pose proof (digits2_pos_le_53 c Hc) as Hd.
  set (d := Zpos (digits2_pos c)) in *.
  assert (HM : Zpos (digits2_pos (shl c (53 - d))) = 53).
  { rewrite digits2_pos_shl by lia. fold d. lia. }
  unfold binary_round.
  rewrite digits2_pos_shl by done. fold d.
  replace (d + j + - j) with (53 + (d - 53)) by lia. rewrite fexp_53 by lia.
  unfold shl_align.
  destruct (d - 53 - - j) as [|k|k] eqn:Hk.
  - assert (j = 53 - d) as -> by lia.
    replace (- (53 - d)) with (d - 53) by lia.
    apply binary_round_aux_exact; [done|lia].
  - assert (Hs : shl c j = Pos.iter xO (shl c (53 - d)) k).
    { change (Pos.iter xO (shl c (53 - d)) k) with (shl (shl c (53 - d)) (Zpos k)).
      rewrite shl_shl by lia. f_equal. lia. }
    rewrite Hs, binary_round_aux_shifted by (done || lia). f_equal. lia.
  - assert (Hs : Pos.iter xO (shl c j) k = shl c (53 - d)).
    { change (Pos.iter xO (shl c j) k) with (shl (shl c j) (Zpos k)).
      rewrite shl_shl by lia. f_equal. lia. }
    rewrite Hs. apply binary_round_aux_exact; [done|lia].
Qed.

Lemma binary_normalize_nat z :
  0 <= z < 2 ^ 53 -> binary_normalize prec emax z 0 false = SFnat z.
Proof.
  intros Hz. destruct z as [|c|c]; [done| |lia].
  simpl. apply (binary_round_shl false c 0); lia.
Qed.

Lemma binary_normalize_shl (c j e : Z) :
  e = - j -> 0 <= j -> 0 <= c < 2 ^ 53 ->
  binary_normalize prec emax (c * 2 ^ j) e false = SFnat c.
Proof.
  intros -> Hj Hc. destruct c as [|c|c]; [done| |lia].
  rewrite <- shl_spec by done. simpl. apply binary_round_shl; lia.
Qed.
Lemma shl_align_shl c t ez :
  0 <= t -> ez <= - t -> fst (shl_align (shl c t) (- t) ez) = shl c (- ez).
Proof.
  intros Ht He. unfold shl_align. destruct (ez - - t) as [|k|k] eqn:Hk; simpl.
  - f_equal. lia.
  - lia.
  - change (Pos.iter xO (shl c t) k) with (shl (shl c t) (Zpos k)).
    rewrite shl_shl by lia. f_equal. lia.
Qed.

Lemma SFnat_sub a b :
  0 <= b <= a -> a < 2 ^ 53 -> SF64sub (SFnat a) (SFnat b) = SFnat (a - b).
Proof.
  intros Hab Ha. destruct b as [|b|b]; [| |lia].
  { rewrite Z.sub_0_r. destruct a as [|a|a]; [done|done|lia]. }
  destruct a as [|a|a]; [lia| |lia].
  pose proof (digits2_pos_le_53 a Ha) as Hda.
  assert (Hb : Zpos b < 2 ^ 53) by lia.
  pose proof (digits2_pos_le_53 b Hb) as Hdb.
  set (da := Zpos (digits2_pos a)) in *. set (db := Zpos (digits2_pos b)) in *.
  set (ez := Z.min (da - 53) (db - 53)).
  change (SF64sub (SFnat (Zpos a)) (SFnat (Zpos b))) with
    (binary_normalize prec emax
       (Zpos (fst (shl_align (shl a (53 - da)) (da - 53) ez))
        - Zpos (fst (shl_align (shl b (53 - db)) (db - 53) ez))) ez false).
  replace (da - 53) with (- (53 - da)) by lia.
  replace (db - 53) with (- (53 - db)) by lia.
  rewrite !shl_align_shl by lia.
  rewrite !shl_spec by lia. rewrite <- Z.mul_sub_distr_r.
  apply binary_normalize_shl; lia.
Qed.

Lemma SFnat_add a b :
  0 <= a -> 0 <= b -> a + b < 2 ^ 53 -> SF64add (SFnat a) (SFnat b) = SFnat (a + b).
Proof.
  intros Ha Hb Hab. destruct b as [|b|b]; [| |lia].
  { rewrite Z.add_0_r. destruct a as [|a|a]; [done|done|lia]. }
  destruct a as [|a|a]; [done| |lia].
  assert (Ha' : Zpos a < 2 ^ 53) by lia. assert (Hb' : Zpos b < 2 ^ 53) by lia.
  pose proof (digits2_pos_le_53 a Ha') as Hda. pose proof (digits2_pos_le_53 b Hb') as Hdb.
  set (da := Zpos (digits2_pos a)) in *. set (db := Zpos (digits2_pos b)) in *.
  set (ez := Z.min (da - 53) (db - 53)).
  change (SF64add (SFnat (Zpos a)) (SFnat (Zpos b))) with
    (binary_normalize prec emax
       (Zpos (fst (shl_align (shl a (53 - da)) (da - 53) ez))
        + Zpos (fst (shl_align (shl b (53 - db)) (db - 53) ez))) ez false).
  replace (da - 53) with (- (53 - da)) by lia.
  replace (db - 53) with (- (53 - db)) by lia.
  rewrite !shl_align_shl by lia.
  rewrite !shl_spec by lia. rewrite <- Z.mul_add_distr_r.
  apply binary_normalize_shl; lia.
Qed.

Lemma SFnat_ltb a b :
  0 <= a < 2 ^ 53 -> 0 <= b < 2 ^ 53 -> SFltb (SFnat a) (SFnat b) = (a <? b).
Proof.
  intros Ha Hb. destruct a as [|a|a], b as [|b|b]; try lia; try done.
  assert (Ha' : Zpos a < 2 ^ 53) by lia. assert (Hb' : Zpos b < 2 ^ 53) by lia.
  pose proof (digits2_pos_le_53 a Ha') as Hda. pose proof (digits2_pos_le_53 b Hb') as Hdb.
  pose proof (digits2_pos_bounds a) as [Hloa Hhia].
  pose proof (digits2_pos_bounds b) as [Hlob Hhib].
  unfold SFltb, SFnat, SFcompare.
  set (da := Zpos (digits2_pos a)) in *. set (db := Zpos (digits2_pos b)) in *.
  destruct (Z.compare_spec (da - 53) (db - 53)) as [Heq|Hlt|Hgt].
  - assert (da = db) as Hd by lia. rewrite Hd.
    change (PosDef.Pos.compare_cont Eq (shl a (53 - db)) (shl b (53 - db)))
      with (Pos.compare (shl a (53 - db)) (shl b (53 - db))).
    rewrite Pos2Z.inj_compare, !shl_spec by lia.
    assert (Hp : 0 < 2 ^ (53 - db)) by (apply Z.pow_pos_nonneg; lia).
    destruct (Z.compare_spec (Zpos a * 2 ^ (53 - db)) (Zpos b * 2 ^ (53 - db)));
      symmetry; [apply Z.ltb_ge|apply Z.ltb_lt|apply Z.ltb_ge]; nia.
  - symmetry. apply Z.ltb_lt.
    assert (2 ^ da <= 2 ^ (db - 1)) by (apply Z.pow_le_mono_r; lia). lia.
  - symmetry. apply Z.ltb_ge.
    assert (2 ^ db <= 2 ^ (da - 1)) by (apply Z.pow_le_mono_r; lia). lia.
Qed.

Lemma Prim2SF_number_of_nat n :
  Z.of_nat n < 2 ^ 53 -> Prim2SF (number_of_nat n) = SFnat (Z.of_nat n).
Proof.
  intros Hn. unfold number_of_nat. rewrite of_uint63_spec, Uint63.of_Z_spec.
  rewrite Z.mod_small.
  - apply binary_normalize_nat. lia.
  - split; [lia|]. eapply Z.lt_trans; [exact Hn|]. by vm_compute.
Qed.

Lemma Prim2SF_one : Prim2SF 1%float = SFnat 1.
Proof. reflexivity. Qed.

Lemma number_of_nat_add_1 n :
  Z.of_nat n + 1 < 2 ^ 53 -> (number_of_nat n + 1)%float = number_of_nat (S n).
Proof.
  intros Hn. apply Prim2SF_inj.
  rewrite FloatAxioms.add_spec, !Prim2SF_number_of_nat, Prim2SF_one by lia.
  rewrite SFnat_add by lia. f_equal. lia.
Qed.

Lemma number_of_nat_sub m n :
  (n <= m)%nat -> Z.of_nat m < 2 ^ 53 ->
  (number_of_nat m - number_of_nat n)%float = number_of_nat (m - n).
Proof.
  intros Hnm Hm. apply Prim2SF_inj.
  rewrite FloatAxioms.sub_spec, !Prim2SF_number_of_nat by lia.
  rewrite SFnat_sub by lia. f_equal. lia.
Qed.

Lemma number_of_nat_sub_1 n :
  (1 <= n)%nat -> Z.of_nat n < 2 ^ 53 -> (number_of_nat n - 1)%float = number_of_nat (n - 1).
Proof. intros. by apply (number_of_nat_sub n 1). Qed.

Lemma number_of_nat_ltb m n :
  Z.of_nat m < 2 ^ 53 -> Z.of_nat n < 2 ^ 53 ->
  (number_of_nat m <? number_of_nat n)%float = (Z.of_nat m <? Z.of_nat n).
Proof.
  intros Hm Hn. rewrite FloatAxioms.ltb_spec, !Prim2SF_number_of_nat by done. apply SFnat_ltb; lia.
Qed.

Lemma ToIntegerOrInfinity_number_of_nat n :
  Z.of_nat n < 2 ^ 53 -> ToIntegerOrInfinity (number_of_nat n) = IInt (Z.of_nat n).
Proof.
  intros Hn. unfold ToIntegerOrInfinity. rewrite Prim2SF_number_of_nat by done.
  destruct (Z.of_nat n) as [|c|c] eqn:Hc; [done| |lia].
  unfold SFnat. simpl cond_Zopp. f_equal.
  pose proof (digits2_pos_le_53 c Hn) as Hd.
  rewrite Z.shiftl_div_pow2 by lia.
  rewrite shl_spec by lia.
  replace (- (Zpos (digits2_pos c) - 53)) with (53 - Zpos (digits2_pos c)) by lia.
  apply Z.div_mul. apply Z.pow_nonzero; lia.
Qed.

(** The window [movingAverage] reads for a whole window length [W] at a row
    that has [W - 1] rows before it: the [W] rows ending at row [i]. *)
Lemma slice_window {A : Type} (data : list A) (i W : nat) :
  (W <= S i)%nat -> (i < length data)%nat -> Z.of_nat (length data) < 2 ^ 53 ->
  slice data (number_of_nat i + 1 - number_of_nat W)%float (number_of_nat i + 1)%float =
    take W (drop (S i - W) data).
Proof.
  intros HW Hi Hlen. unfold slice.
  rewrite number_of_nat_add_1, number_of_nat_sub by lia.
  rewrite !ToIntegerOrInfinity_number_of_nat by lia. simpl relative_index.
  replace (Z.of_nat (S i - W) <? 0) with false by (symmetry; apply Z.ltb_ge; lia).
  replace (Z.of_nat (S i) <? 0) with false by (symmetry; apply Z.ltb_ge; lia).
  rewrite !Z.min_l by lia. rewrite Nat2Z.id. f_equal. lia.
Qed.

Lemma window_guard (i W : nat) :
  (1 <= W)%nat -> Z.of_nat i < 2 ^ 53 -> Z.of_nat W < 2 ^ 53 ->
  (number_of_nat i <? number_of_nat W - 1)%float = (Z.of_nat i <? Z.of_nat W - 1).
Proof.
  intros HW Hi HWb. rewrite number_of_nat_sub_1, number_of_nat_ltb by lia.
  f_equal. lia.
Qed.

(** *** Special values *)

Lemma is_zero_Prim2SF x : PrimFloat.is_zero x = true -> exists s, Prim2SF x = S754_zero s.
Proof.
  unfold PrimFloat.is_zero. rewrite FloatAxioms.eqb_spec.
  change (Prim2SF PrimFloat.zero) with (S754_zero false).
  destruct (Prim2SF x) as [s|s| |s m e]; unfold SFeqb; simpl; try discriminate.
  - intros _. by exists s.
  - by destruct s.
  - by destruct s.
Qed.

(** Dividing by a zero gives an infinity or [NaN], and so does the percentage
    made from the quotient. *)
Lemma percentage_of_zero (new old : float) :
  PrimFloat.is_zero old = true ->
  let change := ((new - old) / old * 100)%float in
  change = infinity \/ change = neg_infinity \/ change = nan.
Proof.
  intros Hz change. destruct (is_zero_Prim2SF old Hz) as [s Hs].
  assert (H : Prim2SF change = S754_infinity false \/ Prim2SF change = S754_infinity true
              \/ Prim2SF change = S754_nan).
  { unfold change. rewrite FloatAxioms.mul_spec, FloatAxioms.div_spec, Hs.
    change (Prim2SF 100) with (S754_finite false 7036874417766400 (-46)).
    destruct (Prim2SF (new - old)) as [s'|s'| |s' m e]; simpl; auto;
      destruct s', s; simpl; auto. }
  destruct H as [H|[H|H]]; [left|right; left|right; right]; by apply Prim2SF_inj.
Qed.

(** *** Rows of the three stages *)

Lemma columns_are_strings_lookup keys (data : list object) i row key :
  columns_are_strings keys data = true -> data !! i = Some row -> key ∈ keys ->
  exists s, row !! key = Some (VStr s).
Proof.
  unfold columns_are_strings. rewrite forallb_forall. intros H Hi Hkey.
  assert (Hrow : In row data) by (apply list_elem_of_In, list_elem_of_lookup; eauto).
  specialize (H row Hrow). rewrite forallb_forall in H.
  specialize (H key (proj1 (list_elem_of_In _ _) Hkey)).
  destruct (row !! key) as [[s|x]|]; try discriminate. by exists s.
Qed.

Lemma element_prop_lookup (data : list object) (i : nat) (row : object) key :
  data !! i = Some row -> element_prop data (Z.of_nat i) key = row !! key.
Proof.
  intros Hi. unfold element_prop.
  replace (Z.of_nat i <? 0) with false by (symmetry; apply Z.ltb_ge; lia).
  by rewrite Nat2Z.id, Hi.
Qed.

Lemma element_prop_pred (data : list object) (i : nat) (prev : object) key :
  (1 <= i)%nat -> data !! (i - 1)%nat = Some prev ->
  element_prop data (Z.of_nat i - 1) key = prev !! key.
Proof.
  intros Hi Hprev. replace (Z.of_nat i - 1) with (Z.of_nat (i - 1)) by lia.
  by apply element_prop_lookup.
Qed.

(** The volume change of a row, case by case. *)
Lemma volume_change_first data row : volume_change data 0 row = Ok (VStr NOT_APPLICABLE).
Proof. reflexivity. Qed.

Lemma volume_change_sentinel data i row :
  row !! "Volume" = Some (VStr NOT_APPLICABLE) ->
  volume_change data i row = Ok (VStr NOT_APPLICABLE).
Proof.
  intros Hcur. unfold volume_change. rewrite Hcur. simpl. by rewrite andb_false_r.
Qed.

Lemma volume_change_after_sentinel data i row prev :
  (1 <= i)%nat -> data !! (i - 1)%nat = Some prev ->
  prev !! "Volume" = Some (VStr NOT_APPLICABLE) ->
  volume_change data i row = Ok (VStr NOT_APPLICABLE).
Proof.
  intros Hi Hprev Hp. unfold volume_change.
  rewrite (element_prop_pred data i prev), Hp by done. simpl. by rewrite andb_false_r.
Qed.

Lemma volume_change_value data i row prev cur p :
  (1 <= i)%nat -> data !! (i - 1)%nat = Some prev ->
  row !! "Volume" = Some (VStr cur) -> prev !! "Volume" = Some (VStr p) ->
  cur <> NOT_APPLICABLE -> p <> NOT_APPLICABLE ->
  volume_change data i row =
    Ok (VNum ((parseFloat (remove_commas cur) - parseFloat (remove_commas p))
              / parseFloat (remove_commas p) * 100)%float).
Proof.
  intros Hi Hprev Hcur Hp Hcur' Hp'. unfold volume_change.
  rewrite (element_prop_pred data i prev), Hcur, Hp by done. simpl.
  replace (Z.of_nat i - 1 >=? 0) with true by (symmetry; apply Z.geb_le; lia).
  apply String.eqb_neq in Hcur', Hp'. by rewrite Hcur', Hp'.
Qed.

Lemma volume_change_total data i row :
  columns_are_strings ["Volume"] data = true -> data !! i = Some row ->
  exists change, volume_change data i row = Ok change.
Proof.
  intros Hwf Hi.
  destruct (columns_are_strings_lookup _ _ _ _ "Volume" Hwf Hi) as [cur Hcur]; [by left|].
  destruct i as [|i]; [by eexists|].
  destruct (lookup_lt_is_Some_2 data (S i - 1)) as [prev Hprev];
    [apply lookup_lt_Some in Hi; lia|].
  destruct (columns_are_strings_lookup _ _ _ _ "Volume" Hwf Hprev) as [p Hp]; [by left|].
  destruct (decide (cur = NOT_APPLICABLE)) as [->|Hcur'].
  { rewrite volume_change_sentinel by done. by eexists. }
  destruct (decide (p = NOT_APPLICABLE)) as [->|Hp'].
  { rewrite (volume_change_after_sentinel data (S i) row prev) by (done || lia). by eexists. }
  rewrite (volume_change_value data (S i) row prev cur p) by (done || lia). by eexists.
Qed.

Lemma percentagesChangeInVolume_Ok data out :
  percentagesChangeInVolume data = Ok out ->
  length out = length data /\
  forall i row, data !! i = Some row ->
    exists row' change, out !! i = Some row' /\ volume_change data i row = Ok change /\
      row' = <[volume_column := change]> row.
Proof.
  rewrite percentagesChangeInVolume_rows. intros H.
  destruct (mapR_indexed_Ok _ _ _ _ H) as [Hlen Hrows]. split; [done|].
  intros i row Hi. destruct (Hrows i row Hi) as (row' & Hrow' & Hout).
  unfold volume_row in Hrow'. change (0 + i)%nat with i in Hrow'.
  apply bind_Ok_inv in Hrow' as (change & Hchange & Hrow'). injection Hrow' as <-.
  by eexists _, change.
Qed.

Lemma percentagesChangeInVolume_total data :
  columns_are_strings ["Volume"] data = true ->
  exists out, percentagesChangeInVolume data = Ok out.
Proof.
  intros Hwf. rewrite percentagesChangeInVolume_rows. apply mapR_indexed_total.
  intros i row Hi. change (0 + i)%nat with i. unfold volume_row.
  destruct (volume_change_total data i row Hwf Hi) as [change ->]. by eexists.
Qed.

(** The price change of a row and a field, case by case. *)
Lemma price_change_early data i row key :
  (i < 2)%nat -> price_change data i row key = Ok (VStr NOT_APPLICABLE).
Proof.
  intros Hi. unfold price_change.
  by replace (Z.of_nat i - 1 >? 0) with false
    by (symmetry; rewrite Z.gtb_ltb; apply Z.ltb_ge; lia).
Qed.

Lemma price_change_sentinel data i row key :
  row !! key = Some (VStr NOT_APPLICABLE) ->
  price_change data i row key = Ok (VStr NOT_APPLICABLE).
Proof.
  intros Hcur. unfold price_change. rewrite Hcur. simpl. by rewrite andb_false_r.
Qed.

Lemma price_change_after_sentinel data i row prev key :
  (1 <= i)%nat -> data !! (i - 1)%nat = Some prev ->
  prev !! key = Some (VStr NOT_APPLICABLE) ->
  price_change data i row key = Ok (VStr NOT_APPLICABLE).
Proof.
  intros Hi Hprev Hp. unfold price_change.
  rewrite (element_prop_pred data i prev), Hp by done. simpl. by rewrite andb_false_r.
Qed.

Lemma price_change_value data i row prev key cur p :
  (2 <= i)%nat -> data !! (i - 1)%nat = Some prev ->
  row !! key = Some (VStr cur) -> prev !! key = Some (VStr p) ->
  cur <> NOT_APPLICABLE -> p <> NOT_APPLICABLE ->
  price_change data i row key =
    Ok (VNum ((parseFloat (remove_commas cur) - parseFloat (remove_commas p))
              / parseFloat (remove_commas p) * 100)%float).
Proof.
  intros Hi Hprev Hcur Hp Hcur' Hp'. unfold price_change.
  rewrite (element_prop_pred data i prev), Hcur, Hp by (done || lia). simpl.
  replace (Z.of_nat i - 1 >? 0) with true
    by (symmetry; rewrite Z.gtb_ltb; apply Z.ltb_lt; lia).
  apply String.eqb_neq in Hcur', Hp'. by rewrite Hcur', Hp'.
Qed.

Lemma price_change_total data i row key :
  columns_are_strings VALUE_CELLS data = true -> data !! i = Some row -> key ∈ VALUE_CELLS ->
  exists change, price_change data i row key = Ok change.
Proof.
  intros Hwf Hi Hkey.
  destruct (columns_are_strings_lookup _ _ _ _ key Hwf Hi Hkey) as [cur Hcur].
  destruct (decide (i < 2)%nat) as [Hlt|Hge].
  { rewrite price_change_early by done. by eexists. }
  destruct (lookup_lt_is_Some_2 data (i - 1)) as [prev Hprev];
    [apply lookup_lt_Some in Hi; lia|].
  destruct (columns_are_strings_lookup _ _ _ _ key Hwf Hprev Hkey) as [p Hp].
  destruct (decide (cur = NOT_APPLICABLE)) as [->|Hcur'].
  { rewrite price_change_sentinel by done. by eexists. }
  destruct (decide (p = NOT_APPLICABLE)) as [->|Hp'].
  { rewrite (price_change_after_sentinel data i row prev) by (done || lia). by eexists. }
  rewrite (price_change_value data i row prev key cur p) by (done || lia). by eexists.
Qed.

Lemma percentagesChangeInPrices_Ok data out :
  percentagesChangeInPrices data = Ok out ->
  length out = length data /\
  forall i row, data !! i = Some row ->
    exists row', out !! i = Some row' /\
      row' = write_columns price_column
               (fun key => result_value (price_change data i row key)) VALUE_CELLS row /\
      forall key, key ∈ VALUE_CELLS ->
        exists change, price_change data i row key = Ok change /\
                       row' !! price_column key = Some change.
Proof.
  rewrite percentagesChangeInPrices_rows. intros H.
  destruct (mapR_indexed_Ok _ _ _ _ H) as [Hlen Hrows]. split; [done|].
  intros i row Hi. destruct (Hrows i row Hi) as (row' & Hrow' & Hout).
  unfold price_row in Hrow'. change (0 + i)%nat with i in Hrow'.
  apply bind_Ok_inv in Hrow' as (changes & Hchanges & Hrow'). injection Hrow' as <-.
  eexists. split; [done|]. split; [done|]. intros key Hkey.
  destruct (mapR_Ok_all _ _ _ Hchanges key Hkey) as [change Hchange].
  exists change. split; [done|].
  rewrite write_columns_lookup by (auto using price_column_inj). by rewrite Hchange.
Qed.

Lemma percentagesChangeInPrices_total data :
  columns_are_strings VALUE_CELLS data = true ->
  exists out, percentagesChangeInPrices data = Ok out.
Proof.
  intros Hwf. rewrite percentagesChangeInPrices_rows. apply mapR_indexed_total.
  intros i row Hi. change (0 + i)%nat with i. unfold price_row.
  destruct (mapR_total (price_change data i row) VALUE_CELLS) as [changes ->]; [|by eexists].
  intros key Hkey. by apply price_change_total.
Qed.

(** The moving-average cell of a row and a field, for a whole window length. *)
Lemma moving_average_cell_early (W : nat) (data : list object) i cell :
  (1 <= W)%nat -> Z.of_nat W < 2 ^ 53 -> Z.of_nat i < 2 ^ 53 -> (i < W - 1)%nat ->
  moving_average_cell (number_of_nat W) data i cell = VStr NOT_APPLICABLE.
Proof.
  intros HW HWb Hi Hlt. unfold moving_average_cell. rewrite window_guard by lia.
  by replace (Z.of_nat i <? Z.of_nat W - 1) with true by (symmetry; apply Z.ltb_lt; lia).
Qed.

Lemma moving_average_cell_value (W : nat) (data : list object) i cell :
  (1 <= W)%nat -> Z.of_nat W < 2 ^ 53 -> Z.of_nat (length data) < 2 ^ 53 ->
  (i < length data)%nat -> (W - 1 <= i)%nat ->
  moving_average_cell (number_of_nat W) data i cell =
    VStr (numberToCurrencyValue
            (reduce (fun cellAccum row => (cellAccum + ToNumber (row !! cell))%float)
               (take W (drop (S i - W) data)) 0 / number_of_nat W)%float).
Proof.
  intros HW HWb Hlen Hi Hge. unfold moving_average_cell. rewrite window_guard by lia.
  replace (Z.of_nat i <? Z.of_nat W - 1) with false by (symmetry; apply Z.ltb_ge; lia).
  unfold window_sum. by rewrite slice_window by lia.
Qed.

Lemma movingAverage_Ok multiplier data :
  exists out, movingAverage multiplier data = Ok out /\
    length out = length data /\
    forall i row, data !! i = Some row ->
      exists row', out !! i = Some row' /\
        row' = write_columns (moving_average_column multiplier)
                 (moving_average_cell multiplier data i) VALUE_CELLS row /\
        forall cell, cell ∈ VALUE_CELLS ->
          row' !! moving_average_column multiplier cell =
            Some (moving_average_cell multiplier data i cell).
Proof.
  rewrite movingAverage_rows.
  destruct (mapR_indexed_total (moving_average_row multiplier data) data 0) as [out Hout].
  { intros j r _. by eexists. }
  exists out. split; [done|].
  destruct (mapR_indexed_Ok _ _ _ _ Hout) as [Hlen Hrows]. split; [done|].
  intros i row Hi. destruct (Hrows i row Hi) as (row' & Hrow' & Hi').
  unfold moving_average_row in Hrow'. injection Hrow' as <-.
  eexists. split; [done|]. split; [done|]. intros cell Hcell.
  apply write_columns_lookup; [done|].
  intros c' Hc' Heq. by apply (moving_average_column_inj multiplier).
Qed.
(** *** [NaN] in sums *)

Lemma add_nan_r (x : float) : (x + nan)%float = nan.
Proof.
  apply Prim2SF_inj. rewrite FloatAxioms.add_spec.
  change (Prim2SF nan) with S754_nan. by destruct (Prim2SF x).
Qed.

Lemma add_nan_l (x : float) : (nan + x)%float = nan.
Proof.
  apply Prim2SF_inj. rewrite FloatAxioms.add_spec.
  change (Prim2SF nan) with S754_nan. by destruct (Prim2SF x).
Qed.

Lemma div_nan_l (x : float) : (nan / x)%float = nan.
Proof.
  apply Prim2SF_inj. rewrite FloatAxioms.div_spec.
  change (Prim2SF nan) with S754_nan. by destruct (Prim2SF x).
Qed.

Lemma sum_from_nan (cell : string) (rows : list object) :
  reduce (fun cellAccum row => (cellAccum + ToNumber (row !! cell))%float) rows nan = nan.
Proof.
  induction rows as [|r rows IH]; [done|]. unfold reduce in *. simpl. by rewrite add_nan_l.
Qed.

Lemma sum_with_nan (cell : string) (rows : list object) (r : object) : forall acc,
  r ∈ rows -> ToNumber (r !! cell) = nan ->
  reduce (fun cellAccum row => (cellAccum + ToNumber (row !! cell))%float) rows acc = nan.
Proof.
  induction rows as [|r0 rows IH]; intros acc Hr Hnan; [by apply elem_of_nil in Hr|].
  apply elem_of_cons in Hr as [<-|Hr].
  - unfold reduce. simpl. rewrite Hnan, add_nan_r. apply sum_from_nan.
  - unfold reduce in *. simpl. by apply IH.
Qed.

(** *** Signs and order of binary64 values *)

Lemma shl_align_fst m e ez : ez <= e -> Zpos (fst (shl_align m e ez)) = Zpos m * 2 ^ (e - ez).
Proof.
  intros He. unfold shl_align. destruct (ez - e) as [|k|k] eqn:Hk; simpl fst.
  - replace (e - ez) with 0 by lia. change (2 ^ 0) with 1. lia.
  - lia.
  - change (Pos.iter xO m k) with (shl m (Zpos k)). rewrite shl_spec by lia.
    f_equal. f_equal. lia.
Qed.

Lemma valid_binary_finite s m e :
  valid_binary (S754_finite s m e) = true ->
  -1074 <= e /\ Zpos (digits2_pos m) <= 53 /\ (-1074 < e -> Zpos (digits2_pos m) = 53).
Proof.
  unfold SpecFloat.valid_binary, bounded, canonical_mantissa, fexp, SpecFloat.emin, prec, emax.
  intros H. apply andb_prop in H as [H _]. apply Z.eqb_eq in H. lia.
Qed.

Lemma binary_round_aux_sign s m e l : has_sign s (binary_round_aux prec emax s m e l).
Proof.
  unfold binary_round_aux.
  destruct (shr_fexp prec emax m e l) as [mrs' e'].
  destruct (shr_fexp prec emax _ e' loc_Exact) as [mrs'' e''].
  destruct (shr_m mrs''); simpl; [done| |done].
  by destruct (e'' <=? emax - prec).
Qed.

Lemma binary_normalize_nonpositive z e :
  z <= 0 -> SFltb (S754_zero false) (binary_normalize prec emax z e false) = false.
Proof.
  intros Hz. destruct z as [|m|m]; [done|lia|].
  unfold binary_normalize, binary_round.
  destruct (shl_align m e _) as [mz ez].
  pose proof (binary_round_aux_sign true (Zpos mz) ez loc_Exact) as Hs.
  destruct (binary_round_aux prec emax true (Zpos mz) ez loc_Exact) as [s|s| |s ? ?];
    simpl in Hs; subst; done.
Qed.

(** A number that is at most another, minus that other, is not positive. *)
Lemma leb_sub_not_positive (x y : float) :
  (x <=? y)%float = true -> (0 <? x - y)%float = false.
Proof.
  rewrite FloatAxioms.leb_spec, FloatAxioms.ltb_spec, FloatAxioms.sub_spec.
  change (Prim2SF 0) with (S754_zero false).
  pose proof (Prim2SF_valid x) as Hx. pose proof (Prim2SF_valid y) as Hy.
  destruct (Prim2SF x) as [sx|sx| |sx mx ex], (Prim2SF y) as [sy|sy| |sy my ey];
    try (by destruct sx, sy); try (by destruct sx); try (by destruct sy); try done.
  apply valid_binary_finite in Hx as (Hex & Hdx & Hnx).
  apply valid_binary_finite in Hy as (Hey & Hdy & Hny).
  pose proof (digits2_pos_bounds mx) as [Hlx Hux].
  pose proof (digits2_pos_bounds my) as [Hly Huy].
  assert (Hp : forall k, 0 <= k -> 0 < 2 ^ k) by (intros; by apply Z.pow_pos_nonneg).
  unfold SFleb, SFcompare, SF64sub, SFsub.
  change (PosDef.Pos.compare_cont Eq mx my) with (Pos.compare mx my).
  destruct sx, sy.
  - (* both negative *)
    destruct (Z.compare_spec ex ey) as [Heq|Hlt|Hgt]; [|done|].
    + subst ey. destruct (Pos.compare_spec mx my); simpl; try discriminate; intros _;
        apply binary_normalize_nonpositive; rewrite !shl_align_fst by lia;
        rewrite Z.min_id, Z.sub_diag; change (2 ^ 0) with 1; simpl cond_Zopp; lia.
    + intros _. apply binary_normalize_nonpositive. rewrite !shl_align_fst by lia.
      rewrite Z.min_r, Z.sub_diag by lia. change (2 ^ 0) with 1. simpl cond_Zopp.
      assert (Zpos (digits2_pos mx) = 53) as Hd by lia. rewrite Hd in Hlx.
      assert (2 ^ 1 <= 2 ^ (ex - ey)) by (apply Z.pow_le_mono_r; lia).
      assert (2 ^ 53 <= Zpos mx * 2 ^ (ex - ey)).
      { change (2 ^ 53) with (2 ^ 52 * 2 ^ 1). apply Z.mul_le_mono_nonneg; lia. }
      assert (2 ^ Zpos (digits2_pos my) <= 2 ^ 53) by (apply Z.pow_le_mono_r; lia).
      lia.
  - intros _. apply binary_normalize_nonpositive. rewrite !shl_align_fst by lia.
    simpl cond_Zopp.
    pose proof (Hp (ex - Z.min ex ey)). pose proof (Hp (ey - Z.min ex ey)). nia.
  - done.
  - (* both positive *)
    destruct (Z.compare_spec ex ey) as [Heq|Hlt|Hgt]; [| |done].
    + subst ey. destruct (Pos.compare_spec mx my); simpl; try discriminate; intros _;
        apply binary_normalize_nonpositive; rewrite !shl_align_fst by lia;
        rewrite Z.min_id, Z.sub_diag; change (2 ^ 0) with 1; simpl cond_Zopp; lia.
    + intros _. apply binary_normalize_nonpositive. rewrite !shl_align_fst by lia.
      rewrite Z.min_l, Z.sub_diag by lia. change (2 ^ 0) with 1. simpl cond_Zopp.
      assert (Zpos (digits2_pos my) = 53) as Hd by lia. rewrite Hd in Hly.
      assert (2 ^ 1 <= 2 ^ (ey - ex)) by (apply Z.pow_le_mono_r; lia).
      assert (2 ^ 53 <= Zpos my * 2 ^ (ey - ex)).
      { change (2 ^ 53) with (2 ^ 52 * 2 ^ 1). apply Z.mul_le_mono_nonneg; lia. }
      assert (2 ^ Zpos (digits2_pos mx) <= 2 ^ 53) by (apply Z.pow_le_mono_r; lia).
      lia.
Qed.
(** *** The sort *)

Section Sort.

Context {A : Type}.
Variable comparefn : A -> A -> float.

Lemma sort_insert_Permutation x (l : list A) : sort_insert comparefn x l ≡ₚ x :: l.
Proof.
  induction l as [|y l IH]; simpl; [done|].
  destruct (0 <? comparefn x y)%float; [|done].
  rewrite IH. apply Permutation_swap.
Qed.

Lemma Array_sort_Permutation (l : list A) : Array_sort comparefn l ≡ₚ l.
Proof.
  induction l as [|x l IH]; simpl; [done|].
  rewrite sort_insert_Permutation. by constructor.
Qed.



Lemma Array_sort_in_order (l : list A) :
  in_order comparefn l = true -> Array_sort comparefn l = l.
Proof.
  induction l as [|x l IH]; [done|]. intros H. simpl.
  destruct l as [|y l]; [done|].
  simpl in H. apply andb_prop in H as [Hxy Hl]. rewrite IH by done.
  simpl. apply negb_true_iff in Hxy. by rewrite Hxy.
Qed.

End Sort.

Lemma ascending_in_order Date_parse dateKey (l : list object) :
  ascending (date_of Date_parse dateKey) l = true ->
  in_order (fun a b => (date_of Date_parse dateKey a - date_of Date_parse dateKey b)%float) l = true.
Proof.
  induction l as [|a l IH]; [done|]. destruct l as [|b l]; [done|].
  intros H. simpl in H. apply andb_prop in H as [Hab Hl].
  change (in_order ?f (a :: b :: l)) with
    (negb (0 <? date_of Date_parse dateKey a - date_of Date_parse dateKey b)%float
     && in_order f (b :: l)).
  rewrite (leb_sub_not_positive _ _ Hab), IH by done. done.
Qed.

Lemma sortDataByDate_Permutation Date_parse dateKey data :
  sortDataByDate Date_parse dateKey data ≡ₚ data.
Proof. apply Array_sort_Permutation. Qed.


Lemma sortDataByDate_ascending Date_parse dateKey data :
  ascending (date_of Date_parse dateKey) data = true ->
  sortDataByDate Date_parse dateKey data = data.
Proof.
  intros H. apply Array_sort_in_order. by apply ascending_in_order.
Qed.
(** *** What a stage leaves and what it writes *)

Lemma write_columns_cases name val keys : forall acc k,
  ((k ∉ name <$> keys) /\ write_columns name val keys acc !! k = acc !! k) \/
  (exists c, c ∈ keys /\ name c = k /\ write_columns name val keys acc !! k = Some (val c)).
Proof.
  induction keys as [|c keys IH]; intros acc k.
  - left. split; [apply not_elem_of_nil|done].
  - rewrite write_columns_cons.
    destruct (IH (<[name c := val c]> acc) k) as [[Hk Hlook]|(c' & Hc' & Hname & Hlook)].
    + destruct (decide (name c = k)) as [<-|Hne].
      * right. exists c. split; [by left|]. split; [done|].
        by rewrite Hlook, lookup_insert_eq.
      * left. split; [|by rewrite Hlook, lookup_insert_ne].
        rewrite fmap_cons, not_elem_of_cons. split; [done|done].
    + right. exists c'. split; [by right|done].
Qed.

Lemma writes_other name keys P row row' k :
  writes name keys P row row' -> k ∉ name <$> keys -> row' !! k = row !! k.
Proof. intros (val & -> & _) Hk. by apply write_columns_other. Qed.

Lemma writes_written name keys P row row' c :
  writes name keys P row row' -> c ∈ keys -> exists v, row' !! name c = Some v /\ P v.
Proof.
  intros (val & -> & HP) Hc.
  destruct (write_columns_cases name val keys row (name c))
    as [[Hk _]|(c' & Hc' & _ & Hlook)].
  - exfalso. apply Hk. apply list_elem_of_fmap. by exists c.
  - exists (val c'). split; [done|by apply HP].
Qed.

Lemma writes_keeps name keys P row row' k (Q : option value -> Prop) :
  writes name keys P row row' -> Q (row !! k) -> (forall v, P v -> Q (Some v)) -> Q (row' !! k).
Proof.
  intros (val & -> & HP) HQ HPQ.
  destruct (write_columns_cases name val keys row k) as [[_ ->]|(c & Hc & _ & ->)]; [done|].
  by apply HPQ, HP.
Qed.

Lemma volume_change_is_change data i row change :
  volume_change data i row = Ok change -> is_change change.
Proof.
  unfold volume_change.
  match goal with |- (if ?b then _ else _) = _ -> _ => destruct b end;
    [|intros [= <-]; by left].
  intros H. apply bind_Ok_inv in H as (oldText & _ & H).
  apply bind_Ok_inv in H as (newText & _ & H). injection H as <-. right. by eexists.
Qed.

Lemma price_change_is_change data i row key change :
  price_change data i row key = Ok change -> is_change change.
Proof.
  unfold price_change.
  match goal with |- (if ?b then _ else _) = _ -> _ => destruct b end;
    [|intros [= <-]; by left].
  intros H. apply bind_Ok_inv in H as (oldText & _ & H).
  apply bind_Ok_inv in H as (newText & _ & H). injection H as <-. right. by eexists.
Qed.

Lemma moving_average_cell_is_average multiplier data i cell :
  is_average (moving_average_cell multiplier data i cell).
Proof.
  unfold moving_average_cell. destruct (_ <? _)%float; [by left|right; by eexists].
Qed.

(** Each stage, when it returns, has written its columns into every row. *)
Lemma percentagesChangeInVolume_writes data out :
  percentagesChangeInVolume data = Ok out ->
  Forall2 (writes (fun _ => volume_column) [EmptyString] is_change) data out.
Proof.
  intros Hout. destruct (percentagesChangeInVolume_Ok data out Hout) as [Hlen Hrows].
  apply Forall2_same_length_lookup_2; [done|]. intros i row row' Hi Hi'.
  destruct (Hrows i row Hi) as (row'' & change & Hrow'' & Hchange & ->).
  rewrite Hi' in Hrow''. injection Hrow'' as ->.
  exists (fun _ => change). split; [done|]. intros _ _.
  by eapply volume_change_is_change.
Qed.

Lemma percentagesChangeInPrices_writes data out :
  percentagesChangeInPrices data = Ok out ->
  Forall2 (writes price_column VALUE_CELLS is_change) data out.
Proof.
  intros Hout. destruct (percentagesChangeInPrices_Ok data out Hout) as [Hlen Hrows].
  apply Forall2_same_length_lookup_2; [done|]. intros i row row' Hi Hi'.
  destruct (Hrows i row Hi) as (row'' & Hrow'' & -> & Hcolumns).
  rewrite Hi' in Hrow''. injection Hrow'' as ->.
  eexists. split; [done|]. intros key Hkey.
  destruct (Hcolumns key Hkey) as (change & Hchange & _). rewrite Hchange.
  by eapply price_change_is_change.
Qed.

Lemma movingAverage_writes multiplier data :
  exists out, movingAverage multiplier data = Ok out /\
    Forall2 (writes (moving_average_column multiplier) VALUE_CELLS is_average) data out.
Proof.
  destruct (movingAverage_Ok multiplier data) as (out & Hout & Hlen & Hrows).
  exists out. split; [done|].
  apply Forall2_same_length_lookup_2; [done|]. intros i row row' Hi Hi'.
  destruct (Hrows i row Hi) as (row'' & Hrow'' & -> & _).
  rewrite Hi' in Hrow''. injection Hrow'' as ->.
  eexists. split; [done|]. intros cell _. apply moving_average_cell_is_average.
Qed.
Lemma writes_keeps_rows name keys P (data out : list object) :
  Forall2 (writes name keys P) data out -> keeps_rows (name <$> keys) data out.
Proof.
  intros H. split; [symmetry; by eapply Forall2_length|].
  intros i row Hi. destruct (Forall2_lookup_l _ _ _ _ _ H Hi) as (row' & Hi' & Hw).
  exists row'. split; [done|]. split; [|split].
  - intros k Hk. by eapply writes_other.
  - intros k Hk. apply list_elem_of_fmap in Hk as (c & -> & Hc).
    destruct (writes_written _ _ _ _ _ c Hw Hc) as (v & -> & _). by eexists.
  - intros k Hk. apply (writes_keeps _ _ _ _ _ k is_Some Hw Hk). by eexists.
Qed.

(** *** The stages one after the other *)

Lemma pipe_from {A : Type} (fns : list (A -> result A)) : forall m : result A,
  fold_left (fun y f => y ≫= f) fns m = m ≫= pipe fns.
Proof.
  induction fns as [|f fns IH]; intros m.
  - by destruct m.
  - simpl. rewrite IH. destruct m as [a| |c]; simpl; [|done|done].
    unfold pipe at 2. simpl. by rewrite IH.
Qed.

Lemma bind_Ok {A B : Type} (a : A) (f : A -> result B) : Ok a ≫= f = f a.
Proof. reflexivity. Qed.

Lemma pipe_cons {A : Type} (f : A -> result A) fns (x : A) :
  pipe (f :: fns) x = f x ≫= pipe fns.
Proof. unfold pipe at 1. simpl. apply pipe_from. Qed.

Lemma pipe_app {A : Type} (fns gns : list (A -> result A)) (x : A) :
  pipe (fns ++ gns)%list x = pipe fns x ≫= pipe gns.
Proof. unfold pipe at 1. rewrite fold_left_app. apply pipe_from. Qed.

Lemma columns_are_strings_Forall keys (data : list object) :
  columns_are_strings keys data = true <-> Forall (strings_in keys) data.
Proof.
  unfold columns_are_strings, strings_in. rewrite forallb_forall, Forall_forall.
  split; intros H row Hrow.
  - intros key Hkey. apply list_elem_of_In in Hrow, Hkey.
    specialize (H row Hrow). rewrite forallb_forall in H. by apply H.
  - apply list_elem_of_In in Hrow. apply forallb_forall. intros key Hkey.
    apply list_elem_of_In in Hkey. by apply H.
Qed.

Lemma writes_strings_in name ks P keys (data out : list object) :
  Forall2 (writes name ks P) data out ->
  (forall key, key ∈ keys -> key ∉ name <$> ks) ->
  Forall (strings_in keys) data -> Forall (strings_in keys) out.
Proof.
  intros Hw Hkeys Hdata. apply Forall_lookup. intros i row' Hi'.
  destruct (Forall2_lookup_r _ _ _ _ _ Hw Hi') as (row & Hi & Hrow).
  intros key Hkey. rewrite (writes_other _ _ _ _ _ key Hrow) by auto.
  by apply (Forall_lookup_1 _ _ _ _ Hdata Hi).
Qed.

Lemma volume_column_not_price : volume_column ∉ price_column <$> VALUE_CELLS.
Proof.
  intros H. apply list_elem_of_fmap in H as (c & Heq & Hc).
  apply VALUE_CELLS_cases in Hc as [->|[->|[->| ->]]]; discriminate Heq.
Qed.

Lemma volume_column_not_moving_average len :
  volume_column ∉ moving_average_column len <$> VALUE_CELLS.
Proof.
  intros H. apply list_elem_of_fmap in H as (c & Heq & Hc).
  apply VALUE_CELLS_cases in Hc as [->|[->|[->| ->]]]; discriminate Heq.
Qed.

Lemma price_column_not_moving_average len key :
  key ∈ VALUE_CELLS -> price_column key ∉ moving_average_column len <$> VALUE_CELLS.
Proof.
  intros Hkey H. apply list_elem_of_fmap in H as (c & Heq & Hc).
  apply VALUE_CELLS_cases in Hkey as [->|[->|[->| ->]]];
    apply VALUE_CELLS_cases in Hc as [->|[->|[->| ->]]]; discriminate Heq.
Qed.

Lemma at_column_writes_other name ks P Q row row' k :
  writes name ks P row row' -> k ∉ name <$> ks -> at_column Q row k -> at_column Q row' k.
Proof.
  intros Hw Hk (v & Hv & HQ). exists v. by rewrite (writes_other _ _ _ _ _ k Hw Hk).
Qed.

Lemma at_column_writes_same name ks P row row' k :
  writes name ks P row row' -> at_column P row k -> at_column P row' k.
Proof.
  intros Hw Hk. apply (writes_keeps _ _ _ _ _ k (fun o => exists v, o = Some v /\ P v) Hw Hk).
  intros v Hv. by exists v.
Qed.

(** The moving-average stages, on rows that hold their percentage changes. *)
Lemma pipe_movingAverages (lengths : list float) : forall (before : list float) (data : list object),
  Forall (enriched before) data ->
  exists out, pipe (map (fun len => movingAverage len) lengths) data = Ok out /\
    length out = length data /\ Forall (enriched (before ++ lengths)%list) out.
Proof.
  induction lengths as [|len lengths IH]; intros before data Hdata.
  - exists data. rewrite app_nil_r. by split.
  - destruct (movingAverage_writes len data) as (out1 & Hout1 & Hw).
    destruct (IH (before ++ [len])%list out1) as (out & Hout & Hlen & Henriched).
    { apply Forall_lookup. intros i row' Hi'.
      destruct (Forall2_lookup_r _ _ _ _ _ Hw Hi') as (row & Hi & Hrow).
      destruct (Forall_lookup_1 _ _ _ _ Hdata Hi) as (Hvol & Hprice & Hma).
      split; [|split].
      - eapply at_column_writes_other; [done|apply volume_column_not_moving_average|done].
      - intros key Hkey. eapply at_column_writes_other;
          [done|by apply price_column_not_moving_average|by apply Hprice].
      - intros len' cell Hlen' Hcell. apply elem_of_app in Hlen' as [Hlen'|Hlen'].
        + eapply at_column_writes_same; [done|by apply Hma].
        + apply list_elem_of_singleton in Hlen' as ->. by eapply writes_written. }
    exists out. simpl map. rewrite pipe_cons, Hout1, bind_Ok.
    split; [done|]. split; [|by rewrite <- app_assoc in Henriched].
    rewrite Hlen. symmetry. by eapply Forall2_length.
Qed.

(** The enrichment stages after the sort, on rows with string cells. *)
Lemma prepareData_enriches avgsString lengths (data : list object) :
  formatInputtedMovingAverages avgsString = Ok lengths ->
  Forall (strings_in ("Volume" :: VALUE_CELLS)) data ->
  exists out, prepareData avgsString data = Ok out /\
    length out = length data /\
    Forall (enriched (default DEFAULT_MOVING_AVERAGES lengths)) out.
Proof.
  intros Hlengths Hdata. unfold prepareData, movingAverages. rewrite Hlengths, !bind_Ok.
  set (windows := default DEFAULT_MOVING_AVERAGES lengths).
  destruct (percentagesChangeInVolume_total data) as [out1 Hout1].
  { apply columns_are_strings_Forall. eapply Forall_impl; [exact Hdata|].
    intros row Hrow key Hkey. apply Hrow. apply list_elem_of_singleton in Hkey as ->. by left. }
  pose proof (percentagesChangeInVolume_writes _ _ Hout1) as Hw1.
  assert (Hstrings1 : Forall (strings_in VALUE_CELLS) out1).
  { eapply (writes_strings_in _ _ _ _ data); [exact Hw1| |].
    - intros key Hkey Hin. apply list_elem_of_singleton in Hin as ->.
      apply volume_column_not_source. by apply VALUE_CELLS_source.
    - eapply Forall_impl; [exact Hdata|]. intros row Hrow key Hkey. apply Hrow. by right. }
  destruct (percentagesChangeInPrices_total out1) as [out2 Hout2];
    [by apply columns_are_strings_Forall|].
  pose proof (percentagesChangeInPrices_writes _ _ Hout2) as Hw2.
  destruct (pipe_movingAverages windows [] out2) as (out & Hout & Hlen & Henriched).
  { apply Forall_lookup. intros i row2 Hi2.
    destruct (Forall2_lookup_r _ _ _ _ _ Hw2 Hi2) as (row1 & Hi1 & Hrow2).
    destruct (Forall2_lookup_r _ _ _ _ _ Hw1 Hi1) as (row & Hi & Hrow1).
    split; [|split].
    - eapply at_column_writes_other; [done|apply volume_column_not_price|].
      by apply (writes_written _ _ _ _ _ EmptyString Hrow1); left.
    - intros key Hkey. by eapply writes_written.
    - intros len cell Hlen. by apply elem_of_nil in Hlen. }
  exists out. rewrite pipe_cons, Hout1, bind_Ok, pipe_cons, Hout2, bind_Ok.
  split; [done|]. split; [|done].
  rewrite Hlen, <- (Forall2_length _ _ _ Hw2). symmetry. by eapply Forall2_length.
Qed.
Lemma bind_ret {A : Type} (m : result A) : m ≫= pipe [] = m.
Proof. by destruct m. Qed.

Lemma main_unfold Date_parse avgsString csv :
  main Date_parse avgsString csv =
    prepareData avgsString
      (sortDataByDate Date_parse DATE_CELL
         (rowsToObjects (drop 1 csv) (default [] (csv !! 0%nat)))).
Proof. unfold main. by rewrite pipe_cons, bind_Ok, pipe_cons, bind_ret. Qed.

Lemma rowsToObjects_length rows headers : length (rowsToObjects rows headers) = length rows.
Proof. unfold rowsToObjects. apply length_map. Qed.

(** *** The configured window lengths *)

Lemma mapR_exit {A B : Type} (f : A -> result B) (l : list A) (code : Z) (a : A) :
  a ∈ l -> f a = Exit code ->
  (forall a', a' ∈ l -> f a' = Exit code \/ exists b, f a' = Ok b) ->
  mapR f l = Exit code.
Proof.
  induction l as [|a0 l IH]; intros Ha Hfa Hall; [by apply elem_of_nil in Ha|].
  simpl. destruct (Hall a0) as [H0|[b H0]]; [by left|by rewrite H0|].
  rewrite H0. simpl. apply elem_of_cons in Ha as [->|Ha]; [congruence|].
  rewrite IH; [done|done|done|]. intros a' Ha'. apply Hall. by right.
Qed.

Lemma mapR_all_Ok {A B : Type} (f : A -> result B) (g : A -> B) (l : list A) :
  (forall a, a ∈ l -> f a = Ok (g a)) -> mapR f l = Ok (g <$> l).
Proof.
  induction l as [|a l IH]; intros H; [done|]. simpl.
  rewrite (H a) by left. simpl. rewrite IH; [done|]. intros a' Ha'. apply H. by right.
Qed.

Lemma formatInputtedMovingAverages_Some (avgsString : string) :
  avgsString <> EmptyString ->
  formatInputtedMovingAverages (Some avgsString) =
    (lengths ← mapR (fun a => if isNaN a then Exit 1 else Ok (StringToNumber a))
                 (map trim (split_comma avgsString));
     Ok (Some lengths)).
Proof. intros H. by destruct avgsString. Qed.

Lemma formatInputtedMovingAverages_rejects (avgsString a : string) :
  avgsString <> EmptyString -> a ∈ map trim (split_comma avgsString) -> isNaN a = true ->
  formatInputtedMovingAverages (Some avgsString) = Exit 1.
Proof.
  intros Hne Ha Hnan. rewrite formatInputtedMovingAverages_Some by done.
  rewrite (mapR_exit _ _ 1 a); [done|done|by rewrite Hnan|].
  intros a' _. destruct (isNaN a'); [by left|right; by eexists].
Qed.

Lemma formatInputtedMovingAverages_accepts (avgsString : string) :
  avgsString <> EmptyString ->
  (forall a, a ∈ map trim (split_comma avgsString) -> isNaN a = false) ->
  formatInputtedMovingAverages (Some avgsString) =
    Ok (Some (StringToNumber <$> map trim (split_comma avgsString))).
Proof.
  intros Hne Hall. rewrite formatInputtedMovingAverages_Some by done.
  rewrite (mapR_all_Ok _ StringToNumber); [done|].
  intros a Ha. by rewrite Hall.
Qed.

Lemma main_exits Date_parse avgsString csv code :
  formatInputtedMovingAverages avgsString = Exit code ->
  main Date_parse avgsString csv = Exit code.
Proof.
  intros H. rewrite main_unfold. unfold prepareData, movingAverages. by rewrite H.
Qed.

(** *** The row model *)

Lemma Object_assign_lookup_ne (target : gmap string value) h v k :
  h <> k -> Object_assign target {[ h := v ]} !! k = target !! k.
Proof.
  intros Hne. destruct (decide (h = "__proto__")) as [->|Hh].
  - by rewrite Object_assign_proto.
  - rewrite Object_assign_singleton by done. by apply lookup_insert_ne.
Qed.

Lemma reduce_indexed_other (headers : list string) (k : string) : forall row i acc,
  (forall j, (i <= j < i + length row)%nat -> property_key (headers !! j) <> k) ->
  reduce_indexed (fun accum elem i =>
      Object_assign accum {[ property_key (headers !! i) := VStr elem ]}) i row acc !! k
    = acc !! k.
Proof.
  induction row as [|cell row IH]; intros i acc Hk; [done|]. simpl.
  rewrite IH by (intros j Hj; apply Hk; simpl; lia).
  apply Object_assign_lookup_ne. apply Hk. simpl. lia.
Qed.

(** No cell is stored under the name [__proto__]. *)
Lemma reduce_indexed_proto (headers : list string) : forall row i acc,
  reduce_indexed (fun accum elem i =>
      Object_assign accum {[ property_key (headers !! i) := VStr elem ]}) i row acc
    !! "__proto__" = acc !! "__proto__".
Proof.
  induction row as [|cell row IH]; intros i acc; [done|]. simpl. rewrite IH.
  destruct (decide (property_key (headers !! i) = "__proto__")) as [->|Hne].
  - by rewrite Object_assign_proto.
  - by apply Object_assign_lookup_ne.
Qed.

Lemma reduce_indexed_lookup (headers : list string) (k : string) : forall row i j acc,
  k <> "__proto__" ->
  (i <= j < i + length row)%nat -> property_key (headers !! j) = k ->
  (forall j', (j < j' < i + length row)%nat -> property_key (headers !! j') <> k) ->
  reduce_indexed (fun accum elem i =>
      Object_assign accum {[ property_key (headers !! i) := VStr elem ]}) i row acc !! k
    = VStr <$> row !! (j - i)%nat.
Proof.
  induction row as [|cell row IH]; intros i j acc Hk Hj Hkey Hlater; [simpl in Hj; lia|].
  simpl reduce_indexed. destruct (decide (j = i)) as [->|Hne].
  - rewrite reduce_indexed_other by (intros j' Hj'; apply Hlater; simpl; lia).
    rewrite Hkey, Object_assign_singleton, lookup_insert_eq by done.
    by rewrite Nat.sub_diag.
  - rewrite (IH (S i) j) by (simpl in *; (lia || done || (intros; apply Hlater; lia))).
    replace (j - i)%nat with (S (j - S i)) by lia. done.
Qed.

(** *** Commas

    [replace(/,/g, '')] strips every comma and nothing else. *)

Lemma remove_commas_stripped (s : string) : remove_commas s = commas_stripped s.
Proof.
  unfold commas_stripped. induction s as [|a s IH]; [done|]. simpl.
  destruct (Ascii.eqb a ","); simpl; by rewrite IH.
Qed.

(** *** The order of binary64 values, on the integer scale *)

Lemma valid_binary_bounds s m e :
  valid_binary (S754_finite s m e) = true ->
  -1074 <= e <= 971 /\ Zpos (digits2_pos m) <= 53 /\ (-1074 < e -> Zpos (digits2_pos m) = 53).
Proof.
  unfold SpecFloat.valid_binary, bounded, canonical_mantissa, fexp, SpecFloat.emin, prec, emax.
  intros H. apply andb_prop in H as [H H']. apply Z.eqb_eq in H. apply Z.leb_le in H'. lia.
Qed.

Lemma shr_1_m mrs : 0 <= shr_m mrs -> shr_m (shr_1 mrs) = shr_m mrs / 2.
Proof.
  destruct mrs as [m r s]. simpl. intros Hm.
  destruct m as [|[p|p|]|p]; simpl; try lia; try reflexivity.
  - apply Z.div_unique with 1; lia.
  - apply Z.div_unique with 0; lia.
Qed.

Lemma iter_pos_shr_m k : forall mrs,
  0 <= shr_m mrs ->
  shr_m (SpecFloat.iter_pos shr_1 k mrs) = shr_m mrs / 2 ^ Zpos k.
Proof.
  assert (Hpow : forall k, 0 < 2 ^ Zpos k) by (intros; by apply Z.pow_pos_nonneg).
  induction k as [k IH|k IH|]; intros mrs Hm; simpl SpecFloat.iter_pos.
  - assert (H1 : 0 <= shr_m (shr_1 mrs)) by (rewrite shr_1_m by done; apply Z.div_pos; lia).
    assert (H2 : 0 <= shr_m (SpecFloat.iter_pos shr_1 k (shr_1 mrs))).
    { rewrite IH by done. apply Z.div_pos; [done|apply Hpow]. }
    rewrite (IH _ H2), (IH _ H1), shr_1_m by done.
    pose proof (Hpow k). rewrite !Z.div_div by lia. f_equal.
    replace (Zpos k~1) with (1 + Zpos k + Zpos k) by lia.
    rewrite !Z.pow_add_r by lia. change (2 ^ 1) with 2. ring.
  - assert (H2 : 0 <= shr_m (SpecFloat.iter_pos shr_1 k mrs)).
    { rewrite IH by done. apply Z.div_pos; [done|apply Hpow]. }
    rewrite (IH _ H2), (IH _ Hm).
    pose proof (Hpow k). rewrite !Z.div_div by lia. f_equal.
    replace (Zpos k~0) with (Zpos k + Zpos k) by lia.
    by rewrite !Z.pow_add_r by lia.
  - by rewrite shr_1_m.
Qed.

Lemma shr_record_of_loc_m m l : shr_m (shr_record_of_loc m l) = m.
Proof. by destruct l as [|[]]. Qed.

(** Rounding never takes a positive mantissa to zero. *)
Lemma shr_fexp_positive m e l :
  0 < m -> -1074 <= e ->
  0 < shr_m (fst (shr_fexp prec emax m e l)) /\ -1074 <= snd (shr_fexp prec emax m e l).
Proof.
  intros Hm He. destruct m as [|p|p]; try lia.
  unfold shr_fexp, shr, Zdigits2, fexp, SpecFloat.emin, prec, emax.
  pose proof (digits2_pos_bounds p) as [Hl Hu].
  destruct (Z.max (Zpos (digits2_pos p) + e - 53) (3 - 1024 - 53) - e) as [|k|k] eqn:Hn;
    simpl fst; simpl snd; rewrite ?shr_record_of_loc_m; try lia.
  rewrite iter_pos_shr_m by (rewrite shr_record_of_loc_m; lia).
  rewrite shr_record_of_loc_m. split; [|lia].
  assert (Hk : Zpos k = Zpos (digits2_pos p) - 53) by lia.
  apply Z.div_str_pos. split; [by apply Z.pow_pos_nonneg|].
  transitivity (2 ^ (Zpos (digits2_pos p) - 1)); [|done].
  apply Z.pow_le_mono_r; lia.
Qed.

Lemma round_nearest_even_ge m l : m <= round_nearest_even m l.
Proof. destruct l as [|[]]; simpl; try lia. destruct (Z.even m); lia. Qed.

Lemma binary_round_aux_positive s m e l :
  0 < m -> -1074 <= e ->
  match binary_round_aux prec emax s m e l with
  | S754_finite s' _ _ | S754_infinity s' => s' = s
  | _ => False
  end.
Proof.
  intros Hm He. unfold binary_round_aux.
  destruct (shr_fexp_positive m e l Hm He) as [Hm1 He1].
  destruct (shr_fexp prec emax m e l) as [mrs' e']. simpl in Hm1, He1.
  pose proof (round_nearest_even_ge (shr_m mrs') (loc_of_shr_record mrs')) as Hge.
  destruct (shr_fexp_positive (round_nearest_even (shr_m mrs') (loc_of_shr_record mrs')) e'
              loc_Exact) as [Hm2 He2]; [lia|done|].
  destruct (shr_fexp prec emax _ e' loc_Exact) as [mrs'' e'']. simpl in Hm2, He2.
  destruct (shr_m mrs''); try lia. by destruct (e'' <=? emax - prec).
Qed.

Lemma binary_normalize_positive z e :
  0 < z -> -1074 <= e ->
  SFltb (S754_zero false) (binary_normalize prec emax z e false) = true.
Proof.
  intros Hz He. destruct z as [|m|m]; try lia.
  unfold binary_normalize, binary_round.
  assert (Hez : -1074 <= snd (shl_align m e (fexp prec emax (Zpos (digits2_pos m) + e)))).
  { unfold shl_align, fexp, SpecFloat.emin, prec, emax.
    destruct (Z.max _ _ - e) eqn:Hd; simpl; lia. }
  destruct (shl_align m e _) as [mz ez]. simpl in Hez.
  pose proof (binary_round_aux_positive false (Zpos mz) ez loc_Exact ltac:(lia) Hez) as H.
  destruct (binary_round_aux prec emax false (Zpos mz) ez loc_Exact) as [?|?| |? ? ?];
    try done; by subst.
Qed.

Lemma pow2_pos k : 0 <= k -> 0 < 2 ^ k.
Proof. intros. by apply Z.pow_pos_nonneg. Qed.

(** Aligned mantissas are the keys, up to the common scale. *)
Lemma aligned_key s m e ez :
  -1074 <= ez <= e ->
  cond_Zopp s (Zpos (fst (shl_align m e ez))) * 2 ^ (ez + 1074) =
    float_key (S754_finite s m e).
Proof.
  intros He. rewrite shl_align_fst by lia. simpl float_key.
  replace (e + 1074) with ((e - ez) + (ez + 1074)) by lia.
  rewrite (Z.pow_add_r 2 (e - ez) (ez + 1074)) by lia. destruct s; simpl; ring.
Qed.

Lemma finite_key_bound s m e :
  valid_binary (S754_finite s m e) = true ->
  0 < Zpos m * 2 ^ (e + 1074) < 2 ^ 2100.
Proof.
  intros H. apply valid_binary_bounds in H as (He & Hd & _).
  pose proof (digits2_pos_bounds m) as [_ Hu].
  pose proof (pow2_pos (e + 1074) ltac:(lia)).
  assert (2 ^ Zpos (digits2_pos m) <= 2 ^ 53) by (apply Z.pow_le_mono_r; lia).
  assert (2 ^ (e + 1074) <= 2 ^ 2047) by (apply Z.pow_le_mono_r; lia).
  change (2 ^ 2100) with (2 ^ 53 * 2 ^ 2047). nia.
Qed.

(** The sign of a difference is the order of the keys. *)
Lemma sub_positive_key (x y : spec_float) :
  valid_binary x = true -> valid_binary y = true -> x <> S754_nan -> y <> S754_nan ->
  SFltb (S754_zero false) (SF64sub x y) = (float_key y <? float_key x).
Proof.
  intros Hx Hy Hnx Hny.
  destruct x as [sx|sx| |sx mx ex], y as [sy|sy| |sy my ey];
    try (by destruct sx, sy); try (by destruct sx); try (by destruct sy); try done.
  - pose proof (finite_key_bound _ _ _ Hy). simpl float_key.
    destruct sx, sy; simpl; symmetry; rewrite ?Z.ltb_lt, ?Z.ltb_ge; lia.
  - pose proof (finite_key_bound _ _ _ Hy). simpl float_key.
    destruct sx, sy; simpl; symmetry; rewrite ?Z.ltb_lt, ?Z.ltb_ge; lia.
  - pose proof (finite_key_bound _ _ _ Hx). simpl float_key.
    destruct sx, sy; simpl; symmetry; rewrite ?Z.ltb_lt, ?Z.ltb_ge; lia.
  - pose proof (finite_key_bound _ _ _ Hx). simpl float_key.
    destruct sx, sy; simpl; symmetry; rewrite ?Z.ltb_lt, ?Z.ltb_ge; lia.
  - apply valid_binary_bounds in Hx as (Hex & _). apply valid_binary_bounds in Hy as (Hey & _).
    unfold SF64sub, SFsub. set (ez := Z.min ex ey).
    rewrite <- (aligned_key sx mx ex ez), <- (aligned_key sy my ey ez) by lia.
    pose proof (pow2_pos (ez + 1074) ltac:(lia)) as Hp.
    set (a := cond_Zopp sx (Zpos (fst (shl_align mx ex ez)))).
    set (b := cond_Zopp sy (Zpos (fst (shl_align my ey ez)))).
    destruct (Z.ltb_spec (b * 2 ^ (ez + 1074)) (a * 2 ^ (ez + 1074))).
    + apply binary_normalize_positive; [nia|lia].
    + apply binary_normalize_nonpositive. nia.
Qed.

Ltac key_order :=
  f_equal; symmetry;
  first [apply Z.compare_eq_iff | apply Z.compare_lt_iff | apply Z.compare_gt_iff]; lia.

(** The comparison of two numbers is the comparison of their keys. *)
Lemma compare_key (x y : spec_float) :
  valid_binary x = true -> valid_binary y = true -> x <> S754_nan -> y <> S754_nan ->
  SFcompare x y = Some (float_key x ?= float_key y).
Proof.
  intros Hx Hy Hnx Hny.
  destruct x as [sx|sx| |sx mx ex], y as [sy|sy| |sy my ey];
    try (by destruct sx, sy); try (by destruct sx); try (by destruct sy); try done.
  - pose proof (finite_key_bound _ _ _ Hy). unfold SFcompare, float_key.
    destruct sy; unfold cond_Zopp; key_order.
  - pose proof (finite_key_bound _ _ _ Hy). unfold SFcompare, float_key.
    destruct sx, sy; unfold cond_Zopp; key_order.
  - pose proof (finite_key_bound _ _ _ Hx). unfold SFcompare, float_key.
    destruct sx; unfold cond_Zopp; key_order.
  - pose proof (finite_key_bound _ _ _ Hx). unfold SFcompare, float_key.
    destruct sx, sy; unfold cond_Zopp; key_order.
  - pose proof (finite_key_bound _ _ _ Hx) as Hkx. pose proof (finite_key_bound _ _ _ Hy) as Hky.
    apply valid_binary_bounds in Hx as (Hex & Hdx & Hcx).
    apply valid_binary_bounds in Hy as (Hey & Hdy & Hcy).
    pose proof (digits2_pos_bounds mx) as [Hlx Hux].
    pose proof (digits2_pos_bounds my) as [Hly Huy].
    assert (Hlow : forall m e m' e', -1074 <= e < e' -> Zpos (digits2_pos m) <= 53 ->
              Zpos (digits2_pos m') = 53 ->
              Zpos m * 2 ^ (e + 1074) < Zpos m' * 2 ^ (e' + 1074)).
    { intros m e m' e' He Hd Hd'.
      pose proof (digits2_pos_bounds m) as [_ Hu]. pose proof (digits2_pos_bounds m') as [Hl _].
      rewrite Hd' in Hl. change (2 ^ (53 - 1)) with (2 ^ 52) in Hl.
      assert (H53 : 2 ^ Zpos (digits2_pos m) <= 2 ^ 53) by (apply Z.pow_le_mono_r; lia).
      replace (e' + 1074) with ((e' - e - 1) + 1 + (e + 1074)) by lia.
      rewrite (Z.pow_add_r 2 (e' - e - 1 + 1) (e + 1074)), (Z.pow_add_r 2 (e' - e - 1) 1) by lia.
      change (2 ^ 1) with 2.
      pose proof (pow2_pos (e + 1074) ltac:(lia)) as HP.
      pose proof (pow2_pos (e' - e - 1) ltac:(lia)) as HQ.
      change (2 ^ 53) with (2 * 2 ^ 52) in H53.
      set (D := 2 ^ Zpos (digits2_pos m)) in *. set (T := 2 ^ 52) in *.
      set (P := 2 ^ (e + 1074)) in *. set (Q := 2 ^ (e' - e - 1)) in *.
      clearbody D T P Q.
      rewrite Z.mul_assoc. apply Z.mul_lt_mono_pos_r; [done|].
      assert (Zpos m' <= Zpos m' * Q) by nia. lia. }
    unfold SFcompare. change (PosDef.Pos.compare_cont Eq mx my) with (Pos.compare mx my).
    unfold float_key.
    destruct sx, sy; unfold cond_Zopp; try key_order.
    + destruct (Z.compare_spec ex ey) as [Heq|Hlt|Hgt].
      * subst ey. pose proof (pow2_pos (ex + 1074) ltac:(lia)).
        destruct (Pos.compare_spec mx my); unfold CompOpp; f_equal; symmetry;
          first [apply Z.compare_eq_iff | apply Z.compare_lt_iff | apply Z.compare_gt_iff];
          subst; nia.
      * specialize (Hlow mx ex my ey). key_order.
      * specialize (Hlow my ey mx ex). key_order.
    + destruct (Z.compare_spec ex ey) as [Heq|Hlt|Hgt].
      * subst ey. pose proof (pow2_pos (ex + 1074) ltac:(lia)).
        destruct (Pos.compare_spec mx my); f_equal; symmetry;
          first [apply Z.compare_eq_iff | apply Z.compare_lt_iff | apply Z.compare_gt_iff];
          subst; nia.
      * specialize (Hlow mx ex my ey). key_order.
      * specialize (Hlow my ey mx ex). key_order.
Qed.

(** The key of a number, and the readings of the comparisons the program
    makes. *)
Lemma not_nan_Prim2SF (x : float) : is_nan x = false -> Prim2SF x <> S754_nan.
Proof.
  unfold is_nan. rewrite FloatAxioms.eqb_spec. intros H Hx. rewrite Hx in H. done.
Qed.

Lemma sub_positive (x y : float) :
  is_nan x = false -> is_nan y = false ->
  (0 <? x - y)%float = (float_key (Prim2SF y) <? float_key (Prim2SF x)).
Proof.
  intros Hx Hy. rewrite FloatAxioms.ltb_spec, FloatAxioms.sub_spec.
  apply sub_positive_key; auto using Prim2SF_valid, not_nan_Prim2SF.
Qed.

Lemma leb_key (x y : float) :
  is_nan x = false -> is_nan y = false ->
  (x <=? y)%float = (float_key (Prim2SF x) <=? float_key (Prim2SF y)).
Proof.
  intros Hx Hy. rewrite FloatAxioms.leb_spec. unfold SFleb.
  rewrite compare_key by auto using Prim2SF_valid, not_nan_Prim2SF.
  unfold Z.leb. by destruct (_ ?= _).
Qed.

Lemma sub_nan_l (x : float) : (nan - x)%float = nan.
Proof.
  apply Prim2SF_inj. rewrite FloatAxioms.sub_spec. by destruct (Prim2SF x) as [[]|[]| |[] ? ?].
Qed.

Lemma sub_nan_r (x : float) : (x - nan)%float = nan.
Proof.
  apply Prim2SF_inj. rewrite FloatAxioms.sub_spec. by destruct (Prim2SF x) as [[]|[]| |[] ? ?].
Qed.

Lemma is_nan_eq (x : float) : is_nan x = true -> x = nan.
Proof.
  unfold is_nan. rewrite FloatAxioms.eqb_spec. intros H. apply Prim2SF_inj.
  destruct (Prim2SF x) as [s|s| |s m e]; try done.
  - by destruct s.
  - simpl in H. unfold SFeqb, SFcompare in H.
    change (PosDef.Pos.compare_cont Eq m m) with (Pos.compare m m) in H.
    rewrite Z.compare_refl, Pos.compare_refl in H. by destruct s.
Qed.

Lemma eqb_key (x y : float) :
  is_nan x = false -> is_nan y = false ->
  (x =? y)%float = (float_key (Prim2SF x) =? float_key (Prim2SF y)).
Proof.
  intros Hx Hy. rewrite FloatAxioms.eqb_spec. unfold SFeqb.
  rewrite compare_key by auto using Prim2SF_valid, not_nan_Prim2SF.
  destruct (Z.compare_spec (float_key (Prim2SF x)) (float_key (Prim2SF y))) as [H|H|H];
    symmetry; [by apply Z.eqb_eq|apply Z.eqb_neq; lia|apply Z.eqb_neq; lia].
Qed.

(** *** Sorting by a key *)

Section SortByKey.

Context {A : Type}.
Variable comparefn : A -> A -> float.
Variable key : A -> Z.
Variable P : A -> Prop.
Hypothesis comparefn_key : forall a b,
  P a -> P b -> (0 <? comparefn a b)%float = (key b <? key a).

Lemma sort_insert_Forall (Q : A -> Prop) x (l : list A) :
  Q x -> Forall Q l -> Forall Q (sort_insert comparefn x l).
Proof.
  intros Hx Hl. rewrite (sort_insert_Permutation comparefn x l). by constructor.
Qed.

Lemma sort_insert_sorted x (l : list A) :
  P x -> Forall P l ->
  sorted_by key l ->
  sorted_by key (sort_insert comparefn x l).
Proof.
  intros Hx Hl. induction l as [|y l IH]; simpl; intros Hs.
  - by repeat constructor.
  - apply Forall_cons in Hl as [HPy Hl]. destruct Hs as [Hy Hs].
    rewrite comparefn_key by done. destruct (Z.ltb_spec (key y) (key x)) as [Hlt|Hge]; simpl.
    + split; [|by apply IH].
      apply sort_insert_Forall; [lia|done].
    + split; [|done].
      constructor; [done|]. eapply Forall_impl; [exact Hy|]. simpl. intros. lia.
Qed.

Lemma Array_sort_sorted (l : list A) :
  Forall P l -> sorted_by key (Array_sort comparefn l).
Proof.
  induction 1 as [|x l Hx Hl IH]; simpl; [done|].
  apply sort_insert_sorted; [done| |done].
  unfold Array_sort in *. by rewrite (Array_sort_Permutation comparefn l).
Qed.

(** Two elements with different keys go into a list in either order. *)
Lemma sort_insert_swap x y (l : list A) :
  P x -> P y -> Forall P l -> key x <> key y ->
  sort_insert comparefn x (sort_insert comparefn y l) =
    sort_insert comparefn y (sort_insert comparefn x l).
Proof.
  intros Hx Hy Hl Hxy.
  assert (Hlt : forall a b, P a -> P b -> key b < key a -> (0 <? comparefn a b)%float = true).
  { intros a b Ha Hb H. rewrite comparefn_key by done. by apply Z.ltb_lt. }
  assert (Hge : forall a b, P a -> P b -> key a <= key b -> (0 <? comparefn a b)%float = false).
  { intros a b Ha Hb H. rewrite comparefn_key by done. by apply Z.ltb_ge. }
  induction Hl as [|z l Hz Hl IH]; simpl.
  - destruct (Z.lt_total (key x) (key y)) as [H|[H|H]]; [|done|].
    + by rewrite (Hge x y), (Hlt y x) by (done || lia).
    + by rewrite (Hlt x y), (Hge y x) by (done || lia).
  - destruct (Z.lt_ge_cases (key z) (key y)) as [Hzy|Hzy],
      (Z.lt_ge_cases (key z) (key x)) as [Hzx|Hzx].
    + rewrite (Hlt y z), (Hlt x z) by done. simpl.
      by rewrite (Hlt y z), (Hlt x z), IH by done.
    + rewrite (Hlt y z), (Hge x z) by done. simpl.
      rewrite (Hge x z), (Hlt y x) by (done || lia). simpl.
      by rewrite (Hlt y z) by done.
    + rewrite (Hge y z), (Hlt x z) by done. simpl.
      rewrite (Hge y z), (Hlt x y) by (done || lia). simpl.
      by rewrite (Hlt x z) by done.
    + rewrite (Hge y z), (Hge x z) by done. simpl.
      destruct (Z.lt_total (key x) (key y)) as [H|[H|H]]; [|done|].
      * rewrite (Hge x y), (Hlt y x) by (done || lia). simpl.
        by rewrite (Hge y z) by done.
      * rewrite (Hlt x y), (Hge y x) by (done || lia). simpl.
        by rewrite (Hge x z) by done.
Qed.

(** With keys that are all different, the sorted list depends on the elements
    only, not on the order they came in. *)
Lemma Array_sort_Permutation_eq (l1 l2 : list A) :
  l1 ≡ₚ l2 -> Forall P l1 -> NoDup (key <$> l1) ->
  Array_sort comparefn l1 = Array_sort comparefn l2.
Proof.
  induction 1 as [|x l1 l2 Hp IH|x y l|l1 l2 l3 Hp1 IH1 Hp2 IH2]; intros HP Hnd.
  - done.
  - apply Forall_cons in HP as [Hx Hl]. rewrite fmap_cons in Hnd.
    apply NoDup_cons in Hnd as [_ Hnd]. simpl. by rewrite IH.
  - apply Forall_cons in HP as [Hy HP]. apply Forall_cons in HP as [Hx Hl].
    rewrite !fmap_cons in Hnd. apply NoDup_cons in Hnd as [Hyx _].
    simpl. apply sort_insert_swap; [done|done| |].
    + by rewrite (Array_sort_Permutation comparefn l).
    + intros Heq. apply Hyx. rewrite Heq. by left.
  - rewrite IH1 by done. apply IH2.
    + by rewrite <- Hp1.
    + by rewrite <- Hp1.
Qed.

End SortByKey.

(** The key a record is sorted by. *)
Lemma date_comparefn_key Date_parse dateKey (a b : object) :
  is_nan (date_of Date_parse dateKey a) = false ->
  is_nan (date_of Date_parse dateKey b) = false ->
  (0 <? Date_value Date_parse (a !! dateKey) - Date_value Date_parse (b !! dateKey))%float =
    (float_key (Prim2SF (date_of Date_parse dateKey b)) <?
     float_key (Prim2SF (date_of Date_parse dateKey a))).
Proof. intros Ha Hb. by apply sub_positive. Qed.

Lemma sorted_ascending (date : object -> float) (l : list object) :
  Forall (fun row => is_nan (date row) = false) l ->
  sorted_by (fun row => float_key (Prim2SF (date row))) l ->
  ascending date l = true.
Proof.
  intros Hl. induction l as [|a l IH]; [done|]. intros [Ha Hs].
  apply Forall_cons in Hl as [Hna Hl]. destruct l as [|b l]; [done|].
  change (ascending date (a :: b :: l)) with ((date a <=? date b)%float && ascending date (b :: l)).
  rewrite IH by done. apply Forall_cons in Hl as [Hnb _]. apply Forall_cons in Ha as [Hab _].
  rewrite leb_key by done. rewrite andb_true_r. by apply Z.leb_le.
Qed.

Lemma sortDataByDate_sorted Date_parse dateKey (data : list object) :
  Forall (fun row => is_nan (date_of Date_parse dateKey row) = false) data ->
  ascending (date_of Date_parse dateKey) (sortDataByDate Date_parse dateKey data) = true.
Proof.
  intros Hdata. apply sorted_ascending.
  - unfold sortDataByDate. by rewrite Array_sort_Permutation.
  - apply (Array_sort_sorted _ _ (fun row => is_nan (date_of Date_parse dateKey row) = false));
      [|done].
    intros a b. apply date_comparefn_key.
Qed.

Lemma sortDataByDate_order Date_parse dateKey (data1 data2 : list object) :
  data1 ≡ₚ data2 ->
  Forall (fun row => is_nan (date_of Date_parse dateKey row) = false) data1 ->
  (forall i j r r', data1 !! i = Some r -> data1 !! j = Some r' -> i <> j ->
     (date_of Date_parse dateKey r =? date_of Date_parse dateKey r')%float = false) ->
  sortDataByDate Date_parse dateKey data1 = sortDataByDate Date_parse dateKey data2.
Proof.
  intros Hp Hnan Hdiff.
  apply (Array_sort_Permutation_eq _
           (fun row => float_key (Prim2SF (date_of Date_parse dateKey row)))
           (fun row => is_nan (date_of Date_parse dateKey row) = false)); try done.
  - intros a b. apply date_comparefn_key.
  - apply NoDup_alt. intros i j k Hi Hj. destruct (decide (i = j)) as [|Hne]; [done|exfalso].
    rewrite list_lookup_fmap in Hi, Hj.
    destruct (data1 !! i) as [r|] eqn:Hr; [|done].
    destruct (data1 !! j) as [r'|] eqn:Hr'; [|done].
    simpl in Hi, Hj. injection Hi as Hi. injection Hj as Hj.
    specialize (Hdiff i j r r' Hr Hr' Hne).
    rewrite Forall_lookup in Hnan.
    rewrite eqb_key in Hdiff by eauto. apply Z.eqb_neq in Hdiff. congruence.
Qed.

Lemma sortDataByDate_unreadable Date_parse dateKey (data : list object) :
  Forall (fun row => is_nan (date_of Date_parse dateKey row) = true) data ->
  sortDataByDate Date_parse dateKey data = data.
Proof.
  intros Hdata. apply Array_sort_in_order.
  induction Hdata as [|a l Ha Hl IH]; [done|]. destruct l as [|b l]; [done|].
  apply Forall_cons in Hl as Hb. destruct Hb as [Hb _].
  change (in_order ?c (a :: b :: l)) with (negb (0 <? c a b)%float && in_order c (b :: l)).
  rewrite IH. apply is_nan_eq in Ha. unfold date_of in Ha. rewrite Ha.
  by rewrite sub_nan_l.
Qed.

(** *** The text of a currency value *)

Lemma decimal_digits_app a b :
  decimal_digits (a +:+ b) = decimal_digits a && decimal_digits b.
Proof.
  induction a as [|c a IH]; [done|].
  change (String c a +:+ b) with (String c (a +:+ b)). simpl. rewrite IH.
  by rewrite andb_assoc.
Qed.

Lemma decimal_digits_zeros n : decimal_digits (zeros n) = true.
Proof. induction n as [|n IH]; [done|]. simpl. by rewrite IH. Qed.

Lemma length_zeros n : String.length (zeros n) = n.
Proof. induction n as [|n IH]; [done|]. simpl. by rewrite IH. Qed.

Lemma decimal_digits_substring s : forall i n,
  decimal_digits s = true -> decimal_digits (String.substring i n s) = true.
Proof.
  induction s as [|c s IH]; intros [|i] [|n] H; simpl; try done.
  - apply andb_prop in H as [-> H]. by apply IH.
  - apply andb_prop in H as [_ H]. by apply IH.
  - apply andb_prop in H as [_ H]. by apply IH.
Qed.

Lemma length_substring s : forall i n,
  (i + n <= String.length s)%nat -> String.length (String.substring i n s) = n.
Proof.
  induction s as [|c s IH]; intros [|i] [|n] H; simpl in *; try done; try lia.
  - f_equal. apply IH. lia.
  - apply IH. lia.
  - apply IH. lia.
Qed.

Lemma pretty_N_go_digits x : forall s,
  decimal_digits s = true -> decimal_digits (pretty_N_go x s) = true.
Proof.
  induction (N.lt_wf_0 x) as [x _ IH]; intros s Hs.
  destruct (decide (x = 0)%N) as [->|Hx]; [by rewrite pretty_N_go_0|].
  rewrite pretty_N_go_step by lia. apply IH; [apply N.div_lt; lia|].
  simpl. rewrite Hs, andb_true_r. unfold pretty_N_char. by repeat case_match.
Qed.

Lemma pretty_Z_digits (n : Z) : 0 <= n -> decimal_digits (pretty n) = true.
Proof.
  destruct n as [|p|p]; [done| |lia]. intros _.
  change (decimal_digits (pretty_N_go (N.pos p) "") = true).
  by apply pretty_N_go_digits.
Qed.

(** A number below [1e21] in magnitude is one that [toFixed] writes out in
    full. *)
Lemma below_1e21 (num : float) s m e :
  (PrimFloat.abs num <? 1e21)%float = true -> Prim2SF num = S754_finite s m e ->
  (0 <=? e) && (10 ^ 21 <=? Zpos m * 2 ^ e) = false.
Proof.
  intros Hlt Hx. rewrite FloatAxioms.ltb_spec in Hlt. unfold SFltb in Hlt.
  assert (Habs : Prim2SF (PrimFloat.abs num) = S754_finite false m e).
  { by rewrite FloatAxioms.abs_spec, Hx. }
  rewrite compare_key in Hlt.
  - rewrite Habs in Hlt.
    change (Prim2SF 1e21) with (S754_finite false 7629394531250000 17) in Hlt.
    unfold float_key, cond_Zopp in Hlt.
    destruct (Z.compare_spec (Zpos m * 2 ^ (e + 1074)) (7629394531250000 * 2 ^ (17 + 1074)))
      as [|Hlt'|]; try done.
    destruct (Z.leb_spec 0 e) as [He|]; [|done]. simpl. apply Z.leb_gt.
    rewrite (Z.pow_add_r 2 e 1074), (Z.pow_add_r 2 17 1074) in Hlt' by lia.
    change (10 ^ 21) with (7629394531250000 * 2 ^ 17).
    rewrite !Z.mul_assoc in Hlt'.
    apply Z.mul_lt_mono_pos_r in Hlt'; [done|]. by apply pow2_pos.
  - apply Prim2SF_valid.
  - apply Prim2SF_valid.
  - by rewrite Habs.
  - done.
Qed.

(** The digits that [toFixed(2)] writes, with the point before the last
    two. *)
Lemma fixed_digits (n : Z) :
  0 <= n ->
  let ds := zeros (3 - String.length (pretty n)) +:+ pretty n in
  let k := String.length ds in
  (1 <= String.length (String.substring 0 (k - 2) ds))%nat /\
  decimal_digits (String.substring 0 (k - 2) ds) = true /\
  String.length (String.substring (k - 2) 2 ds) = 2%nat /\
  decimal_digits (String.substring (k - 2) 2 ds) = true.
Proof.
  intros Hn ds k.
  assert (Hds : decimal_digits ds = true).
  { unfold ds. by rewrite decimal_digits_app, decimal_digits_zeros, pretty_Z_digits. }
  assert (Hk : (3 <= k)%nat).
  { unfold k, ds. rewrite string_length_app, length_zeros. lia. }
  rewrite !length_substring by (fold k; lia).
  split; [lia|]. split; [by apply decimal_digits_substring|].
  split; [done|by apply decimal_digits_substring].
Qed.

(** *** Rounding to two decimals *)

Lemma pretty_N_go_app (x : N) : forall s, pretty_N_go x s = pretty_N_go x "" +:+ s.
Proof.
  induction (N.lt_wf_0 x) as [x _ IH]; intros s.
  destruct (decide (x = 0)%N) as [->|Hx]; [by rewrite !pretty_N_go_0|].
  rewrite (pretty_N_go_step x s), (pretty_N_go_step x "") by lia.
  rewrite (IH (x `div` 10)%N) by (apply N.div_lt; lia).
  rewrite (IH (x `div` 10)%N ltac:(apply N.div_lt; lia) (String _ "")).
  by rewrite string_app_assoc.
Qed.

Lemma pretty_N_digit (d : N) : (d < 10)%N -> pretty d = String (pretty_N_char d) "".
Proof.
  intros Hd. unfold pretty, pretty_N. destruct (decide (d = 0)%N) as [->|Hne]; [done|].
  rewrite pretty_N_go_step by lia.
  by rewrite N.div_small, N.mod_small, pretty_N_go_0 by done.
Qed.

Lemma pretty_N_step (x : N) :
  (10 <= x)%N -> pretty x = pretty (x `div` 10)%N +:+ pretty (x `mod` 10)%N.
Proof.
  intros Hx. rewrite (pretty_N_digit (x `mod` 10)) by (apply N.mod_lt; lia).
  assert (Hq : (x `div` 10 <> 0)%N).
  { intros Hq. apply N.div_small_iff in Hq; lia. }
  unfold pretty at 1 2, pretty_N.
  destruct (decide (x = 0)%N); [lia|]. destruct (decide (x `div` 10 = 0)%N); [done|].
  rewrite pretty_N_go_step by lia. apply pretty_N_go_app.
Qed.

Lemma pretty_Z_N (z : Z) : 0 <= z -> pretty z = pretty (Z.to_N z).
Proof. destruct z as [|p|p]; [done|done|lia]. Qed.

Lemma pretty_Z_digit (d : Z) : 0 <= d < 10 -> String.length (pretty d) = 1%nat.
Proof.
  intros Hd. rewrite pretty_Z_N, pretty_N_digit by lia. done.
Qed.

Lemma pretty_Z_step (z : Z) : 10 <= z -> pretty z = pretty (z / 10) +:+ pretty (z mod 10).
Proof.
  intros Hz. rewrite (pretty_Z_N z), (pretty_Z_N (z / 10)), (pretty_Z_N (z mod 10)).
  - rewrite Z2N.inj_div, Z2N.inj_mod by lia. apply pretty_N_step. lia.
  - apply Z.mod_pos_bound. lia.
  - apply Z.div_pos; lia.
  - lia.
Qed.

(** The digits [toFixed(2)] splits: the whole part and the two last digits. *)
Lemma padded_digits (n : Z) :
  0 <= n ->
  zeros (3 - String.length (pretty n)) +:+ pretty n =
    pretty (n / 100) +:+ pretty (n / 10 mod 10) +:+ pretty (n mod 10).
Proof.
  intros Hn. destruct (Z.lt_ge_cases n 10) as [H10|H10].
  - rewrite (pretty_Z_digit n) by lia.
    rewrite (Z.div_small n 100), (Z.div_small n 10), (Z.mod_small n 10) by lia.
    reflexivity.
  - rewrite (pretty_Z_step n) by done. destruct (Z.lt_ge_cases n 100) as [H100|H100].
    + rewrite string_length_app, !pretty_Z_digit
        by (try apply Z.mod_pos_bound; try split; try apply Z.div_pos;
            try apply Z.div_lt_upper_bound; lia).
      by rewrite (Z.div_small n 100), (Z.mod_small (n / 10) 10)
        by (try split; try apply Z.div_pos; try apply Z.div_lt_upper_bound; lia).
    + rewrite (pretty_Z_step (n / 10)) by (apply Z.div_le_lower_bound; lia).
      rewrite Z.div_div by lia. change (10 * 10) with 100.
      rewrite !string_length_app, !(pretty_Z_digit (_ mod 10))
        by (apply Z.mod_pos_bound; lia).
      assert (Hlen : (1 <= String.length (pretty (n / 100)%Z))%nat).
      { assert (H : 1 <= n / 100) by (apply Z.div_le_lower_bound; lia).
        destruct (n / 100) as [|p|p]; try lia.
        change (pretty (Zpos p)) with (pretty (N.pos p)). unfold pretty, pretty_N.
        destruct (decide _); [done|]. rewrite pretty_N_go_step by lia.
        rewrite pretty_N_go_app, string_length_app. simpl. lia. }
      replace (3 - _)%nat with 0%nat by lia. by rewrite string_app_assoc.
Qed.

Lemma substring_app_l (a b : string) : String.substring 0 (String.length a) (a +:+ b) = a.
Proof.
  induction a as [|c a IH]; simpl; [by destruct b|]. by rewrite IH.
Qed.

Lemma substring_all (b : string) : String.substring 0 (String.length b) b = b.
Proof. induction b as [|c b IH]; simpl; [done|]. by rewrite IH. Qed.

Lemma substring_app_r (a b : string) :
  String.substring (String.length a) (String.length b) (a +:+ b) = b.
Proof.
  induction a as [|c a IH]; simpl; [apply substring_all|]. apply IH.
Qed.

(** The whole number [toFixed(2)] writes is the nearest number of hundredths. *)
Lemma fixed_hundredths (x : float) s m e :
  Prim2SF x = S754_finite s m e ->
  (if 0 <=? e then Zpos m * 2 ^ e * 10 ^ Z.of_nat 2
   else (2 * Zpos m * 10 ^ Z.of_nat 2 + 2 ^ (- e)) / 2 ^ (- e + 1)) = nearest_hundredths x.
Proof.
  intros Hx. unfold nearest_hundredths. rewrite Hx. simpl float_key.
  pose proof (Prim2SF_valid x) as Hv. rewrite Hx in Hv.
  apply valid_binary_bounds in Hv as (He & _).
  assert (Habs : Z.abs (cond_Zopp s (Zpos m * 2 ^ (e + 1074))) = Zpos m * 2 ^ (e + 1074)).
  { pose proof (pow2_pos (e + 1074) ltac:(lia)). destruct s; simpl; lia. }
  rewrite Habs. change (10 ^ Z.of_nat 2) with 100.
  destruct (Z.leb_spec 0 e) as [Hpos|Hneg].
  - rewrite (Z.pow_add_r 2 e 1074) by lia.
    assert (H75 : 2 ^ 1075 = 2 * 2 ^ 1074) by reflexivity.
    pose proof (pow2_pos 1074 ltac:(lia)) as HP.
    rewrite H75. set (P := 2 ^ 1074) in *. clearbody P.
    apply Z.div_unique with P; [lia|ring].
  - replace (2 ^ 1074) with (2 ^ (e + 1074) * 2 ^ (- e)).
    2:{ rewrite <- Z.pow_add_r by lia. f_equal. lia. }
    replace (2 ^ 1075) with (2 ^ (e + 1074) * 2 ^ (- e + 1)).
    2:{ rewrite <- Z.pow_add_r by lia. f_equal. lia. }
    replace (200 * (Zpos m * 2 ^ (e + 1074)) + 2 ^ (e + 1074) * 2 ^ (- e))
      with (2 ^ (e + 1074) * (2 * Zpos m * 100 + 2 ^ (- e))) by ring.
    pose proof (pow2_pos (e + 1074) ltac:(lia)). pose proof (pow2_pos (- e + 1) ltac:(lia)).
    by rewrite Z.div_mul_cancel_l by lia.
Qed.

(** Below [1e21] in magnitude, [toFixed(2)] is the rounding to two decimals. *)
Lemma toFixed_rounded (x : float) :
  (PrimFloat.abs x <? 1e21)%float = true -> toFixed 2 x = rounded_to_two_decimals x.
Proof.
  intros Hlt. unfold toFixed, rounded_to_two_decimals.
  destruct (Prim2SF x) as [s|s| |s m e] eqn:Hx.
  - assert (Hneg : (x <? 0)%float = false).
    { rewrite FloatAxioms.ltb_spec, Hx. by destruct s. }
    rewrite Hneg. unfold nearest_hundredths. rewrite Hx. reflexivity.
  - rewrite FloatAxioms.ltb_spec, FloatAxioms.abs_spec, Hx in Hlt. done.
  - rewrite FloatAxioms.ltb_spec, FloatAxioms.abs_spec, Hx in Hlt. done.
  - rewrite (below_1e21 x s m e Hlt Hx). cbv zeta.
    rewrite (fixed_hundredths x s m e Hx).
    assert (Hn : 0 <= nearest_hundredths x).
    { unfold nearest_hundredths. apply Z.div_pos; [|done].
      pose proof (Z.abs_nonneg (float_key (Prim2SF x))). lia. }
    set (n := nearest_hundredths x) in *.
    assert (Hneg : (x <? 0)%float = s).
    { rewrite FloatAxioms.ltb_spec, Hx. by destruct s. }
    rewrite Hneg, (padded_digits n Hn).
    set (whole := pretty (n / 100)).
    set (cents := pretty (n / 10 mod 10) +:+ pretty (n mod 10)).
    assert (Hcents : String.length cents = 2%nat).
    { unfold cents. rewrite string_length_app, !pretty_Z_digit; [done| |];
        apply Z.mod_pos_bound; lia. }
    rewrite string_length_app, Hcents.
    replace (String.length whole + 2 - 2)%nat with (String.length whole) by lia.
    rewrite substring_app_l. rewrite <- Hcents. rewrite substring_app_r.
    destruct s; reflexivity.
Qed.

(** At [1e21] and above, and on the infinities, [toFixed] is [toString]. *)
Lemma toFixed_large (x : float) :
  is_nan x = false -> (PrimFloat.abs x <? 1e21)%float = false -> toFixed 2 x = toString x.
Proof.
  intros Hnan Hge. unfold toFixed.
  destruct (Prim2SF x) as [s|s| |s m e] eqn:Hx; try done.
  - rewrite FloatAxioms.ltb_spec, FloatAxioms.abs_spec, Hx in Hge. done.
  - replace ((0 <=? e) && (10 ^ 21 <=? Zpos m * 2 ^ e)) with true; [done|].
    symmetry. rewrite FloatAxioms.ltb_spec in Hge. unfold SFltb in Hge.
    assert (Habs : Prim2SF (PrimFloat.abs x) = S754_finite false m e).
    { by rewrite FloatAxioms.abs_spec, Hx. }
    pose proof (Prim2SF_valid x) as Hv. rewrite Hx in Hv.
    apply valid_binary_bounds in Hv as (He & Hd & _).
    pose proof (digits2_pos_bounds m) as [_ Hm].
    assert (Hm53 : Zpos m < 2 ^ 53).
    { eapply Z.lt_le_trans; [exact Hm|]. apply Z.pow_le_mono_r; lia. }
    rewrite compare_key in Hge; [|apply Prim2SF_valid|apply Prim2SF_valid|by rewrite Habs|done].
    rewrite Habs in Hge.
    change (Prim2SF 1e21) with (S754_finite false 7629394531250000 17) in Hge.
    unfold float_key, cond_Zopp in Hge.
    assert (Hle : 7629394531250000 * 2 ^ (17 + 1074) <= Zpos m * 2 ^ (e + 1074)).
    { destruct (Z.compare_spec (Zpos m * 2 ^ (e + 1074))
                  (7629394531250000 * 2 ^ (17 + 1074))); [lia|done|lia]. }
    clear Hge. destruct (Z.leb_spec 0 e) as [Hpos|Hneg]; simpl.
    + apply Z.leb_le. rewrite (Z.pow_add_r 2 e 1074), (Z.pow_add_r 2 17 1074) in Hle by lia.
      change (10 ^ 21) with (7629394531250000 * 2 ^ 17).
      rewrite !Z.mul_assoc in Hle. apply Z.mul_le_mono_pos_r in Hle; [done|by apply pow2_pos].
    + exfalso. assert (2 ^ (e + 1074) <= 2 ^ 1074) by (apply Z.pow_le_mono_r; lia).
      change (2 ^ (17 + 1074)) with (2 ^ 17 * 2 ^ 1074) in Hle.
      pose proof (pow2_pos 1074 ltac:(lia)). pose proof (pow2_pos (e + 1074) ltac:(lia)).
      assert (Zpos m * 2 ^ (e + 1074) < 2 ^ 53 * 2 ^ 1074) by nia.
      change (2 ^ 53) with 9007199254740992 in *. change (2 ^ 17) with 131072 in *. nia.
Qed.

(** Some values. *)
Example rounded_to_two_decimals_values :
  map rounded_to_two_decimals
    [30; 2.5; 0.125; 0.375; 0.005859375; 1.00390625; -0.001953125; -7.125; 0; 1e20]%float =
    ["30.00"; "2.50"; "0.13"; "0.38"; "0.01"; "1.00"; "-0.00"; "-7.13"; "0.00";
     "100000000000000000000.00"].
Proof. reflexivity. Qed.

(** *** The cells of the moving averages after the whole pipeline *)

Lemma numberToCurrencyValue_text (x : float) :
  is_nan x = false ->
  numberToCurrencyValue x =
    if (PrimFloat.abs x <? 1e21)%float then rounded_to_two_decimals x else toString x.
Proof.
  intros Hnan. unfold numberToCurrencyValue, CURRENCY_DECIMAL_PLACES.
  destruct (PrimFloat.abs x <? 1e21)%float eqn:Hlt.
  - by apply toFixed_rounded.
  - by apply toFixed_large.
Qed.

Lemma moving_average_cell_text len (data : list object) i cell :
  exists text, moving_average_cell len data i cell = VStr text /\
    average_text len data i cell text.
Proof.
  unfold moving_average_cell, average_text.
  destruct (number_of_nat i <? len - 1)%float; [by exists NOT_APPLICABLE|].
  eexists. split; [done|]. cbv zeta. apply numberToCurrencyValue_text.
Qed.

Lemma moving_average_cell_agree multiplier (d d' : list object) i cell :
  Forall2 (agree_row source_column) d' d -> cell ∈ VALUE_CELLS ->
  moving_average_cell multiplier d' i cell = moving_average_cell multiplier d i cell.
Proof.
  intros Hd Hcell. unfold moving_average_cell.
  by rewrite (window_sum_agree multiplier d' d) by auto using VALUE_CELLS_source.
Qed.

Lemma agree_row_trans (a b c : list object) :
  Forall2 (agree_row source_column) a b -> Forall2 (agree_row source_column) b c ->
  Forall2 (agree_row source_column) a c.
Proof.
  intros Hab. revert c. induction Hab as [|x y a b Hxy Hab IH]; intros c Hbc.
  - by apply Forall2_nil_inv_l in Hbc as ->.
  - apply Forall2_cons_inv_l in Hbc as (z & c' & Hyz & Hbc & ->).
    constructor; [|by apply IH]. intros k Hk. by rewrite Hxy, Hyz.
Qed.

Lemma writes_agree name keys P (d o : list object) :
  (forall c k, c ∈ keys -> source_column k -> name c <> k) ->
  Forall2 (writes name keys P) d o -> Forall2 (agree_row source_column) o d.
Proof.
  intros Hname H. apply Forall2_flip. eapply Forall2_impl; [exact H|].
  intros row row' Hrow k Hk. eapply writes_other; [exact Hrow|].
  intros Hin. apply list_elem_of_fmap in Hin as (c & Heq & Hc). by apply (Hname c k).
Qed.

Lemma movingAverage_agree len (d o : list object) :
  movingAverage len d = Ok o -> Forall2 (agree_row source_column) o d.
Proof.
  intros Ho. destruct (movingAverage_writes len d) as (o' & Ho' & Hw).
  rewrite Ho' in Ho. injection Ho as <-.
  apply (writes_agree _ _ _ _ _ (moving_average_column_not_source len) Hw).
Qed.

(** Two moving-average columns of one name are columns of one field. *)
Lemma moving_average_column_field a b c c' :
  c ∈ VALUE_CELLS -> c' ∈ VALUE_CELLS ->
  moving_average_column a c = moving_average_column b c' -> c = c'.
Proof.
  rewrite !VALUE_CELLS_cases. unfold moving_average_column.
  intros [->|[->|[->| ->]]] [->|[->|[->| ->]]]; simpl; intros H; first [done | discriminate H].
Qed.

(** Moving-average columns of one name belong to lengths that are written the
    same way. *)
Lemma moving_average_column_length a b c :
  moving_average_column a c = moving_average_column b c -> toString a = toString b.
Proof.
  unfold moving_average_column. intros H.
  apply string_app_inj_l, string_app_inj_l in H. by apply string_app_inj_r in H.
Qed.

(** After the moving-average stages, a moving-average column holds what the
    last stage of that name wrote: the cell of a configured length that is
    written the same way. *)
Lemma movingAverages_cells (sorted : list object) (lengths : list float) :
  forall d o : list object,
  Forall2 (agree_row source_column) d sorted ->
  pipe (map (fun len => movingAverage len) lengths) d = Ok o ->
  Forall2 (agree_row source_column) o sorted /\
  forall i row len cell, o !! i = Some row -> len ∈ lengths -> cell ∈ VALUE_CELLS ->
    exists len', len' ∈ lengths /\
      moving_average_column len' cell = moving_average_column len cell /\
      row !! moving_average_column len cell = Some (moving_average_cell len' sorted i cell).
Proof.
  induction lengths as [|l lengths IH] using rev_ind; intros d o Hd Ho.
  - injection Ho as <-. split; [done|]. intros i row len cell _ Hlen.
    by apply elem_of_nil in Hlen.
  - rewrite map_app, pipe_app in Ho. apply bind_Ok_inv in Ho as (mid & Hmid & Ho).
    destruct (IH d mid Hd Hmid) as [Hagree Hcells].
    simpl in Ho. rewrite pipe_cons in Ho. apply bind_Ok_inv in Ho as (o' & Ho' & Ho).
    injection Ho as <-.
    split; [by eapply agree_row_trans; [eapply movingAverage_agree|]|].
    intros i row len cell Hrow Hlen Hcell.
    destruct (movingAverage_Ok l mid) as (o'' & Ho'' & Hlen'' & Hrows).
    rewrite Ho' in Ho''. injection Ho'' as <-.
    destruct (lookup_lt_is_Some_2 mid i) as [row0 Hrow0].
    { rewrite <- Hlen''. by eapply lookup_lt_Some. }
    destruct (Hrows i row0 Hrow0) as (row' & Hrow' & Hwritten & Hcolumns).
    rewrite Hrow in Hrow'. injection Hrow' as <-.
    destruct (decide (moving_average_column l cell = moving_average_column len cell))
      as [Heq|Hne].
    + exists l. split; [apply elem_of_app; right; by left|]. split; [done|].
      rewrite <- Heq, (Hcolumns cell Hcell). f_equal.
      by apply moving_average_cell_agree.
    + apply elem_of_app in Hlen as [Hlen|Hlen].
      * destruct (Hcells i row0 len cell Hrow0 Hlen Hcell) as (len' & Hlen' & Hname & Hvalue).
        exists len'. split; [apply elem_of_app; by left|]. split; [done|].
        rewrite Hwritten, write_columns_other; [done|].
        intros Hin. apply list_elem_of_fmap in Hin as (c' & Hc' & Hin).
        apply Hne. rewrite Hc'. f_equal.
        by apply (moving_average_column_field len l cell c').
      * apply list_elem_of_singleton in Hlen as ->. done.
Qed.

(** The same, from the records the sort returns to the result of
    [prepareData]. *)
Lemma prepareData_cells avgsString lengths (sorted out : list object) :
  formatInputtedMovingAverages avgsString = Ok lengths ->
  prepareData avgsString sorted = Ok out ->
  forall i row len cell, out !! i = Some row ->
    len ∈ default DEFAULT_MOVING_AVERAGES lengths -> cell ∈ VALUE_CELLS ->
    exists len' text, len' ∈ default DEFAULT_MOVING_AVERAGES lengths /\
      toString len' = toString len /\
      row !! moving_average_column len cell = Some (VStr text) /\
      average_text len' sorted i cell text.
Proof.
  intros Hlengths Hout i row len cell Hrow Hlen Hcell.
  unfold prepareData, movingAverages in Hout. rewrite Hlengths, !bind_Ok in Hout.
  rewrite pipe_cons in Hout. apply bind_Ok_inv in Hout as (o1 & Ho1 & Hout).
  rewrite pipe_cons in Hout. apply bind_Ok_inv in Hout as (o2 & Ho2 & Hout).
  assert (Hagree : Forall2 (agree_row source_column) o2 sorted).
  { apply agree_row_trans with o1.
    - apply (writes_agree price_column VALUE_CELLS is_change);
        [apply price_column_not_source|by apply percentagesChangeInPrices_writes].
    - apply (writes_agree (fun _ => volume_column) [EmptyString] is_change);
        [|by apply percentagesChangeInVolume_writes].
      intros _ k _ Hk <-. by apply volume_column_not_source. }
  destruct (movingAverages_cells sorted _ o2 out Hagree Hout) as [_ Hcells].
  destruct (Hcells i row len cell Hrow Hlen Hcell) as (len' & Hlen' & Hname & Hvalue).
  destruct (moving_average_cell_text len' sorted i cell) as (text & Htext & Haverage).
  exists len', text. rewrite Hvalue, Htext.
  split; [done|]. split; [by eapply moving_average_column_length|done].
Qed.

(** ** The claims *)

(** C1. The price stage returns on rows whose four price cells are strings.
    Whenever it returns, rows 0 and 1 hold the sentinel in each of the four
    [<field> - Daily Percentage Change] columns; a row from index 2 on whose
    own and whose predecessor's field are strings other than the sentinel holds
    [(current - previous) / previous * 100]. *)
Theorem percentagesChangeInPrices_spec (data : list object) :
  (columns_are_strings VALUE_CELLS data = true ->
   exists out, percentagesChangeInPrices data = Ok out) /\
  (forall out, percentagesChangeInPrices data = Ok out ->
   length out = length data /\
   forall i row key, data !! i = Some row -> key ∈ VALUE_CELLS ->
     exists row', out !! i = Some row' /\
       ((i < 2)%nat -> row' !! price_column key = Some (VStr NOT_APPLICABLE)) /\
       (forall prev cur p, (2 <= i)%nat -> data !! (i - 1)%nat = Some prev ->
          row !! key = Some (VStr cur) -> prev !! key = Some (VStr p) ->
          cur <> NOT_APPLICABLE -> p <> NOT_APPLICABLE ->
          let newValue := parseFloat (remove_commas cur) in
          let oldValue := parseFloat (remove_commas p) in
          row' !! price_column key =
            Some (VNum ((newValue - oldValue) / oldValue * 100)%float))).
Proof.
  split; [apply percentagesChangeInPrices_total|].
  intros out Hout. destruct (percentagesChangeInPrices_Ok data out Hout) as [Hlen Hrows].
  split; [done|]. intros i row key Hi Hkey.
  destruct (Hrows i row Hi) as (row' & Hrow' & _ & Hcolumns).
  destruct (Hcolumns key Hkey) as (change & Hchange & Hcolumn).
  exists row'. split; [done|]. rewrite Hcolumn. split.
  - intros Hlt. rewrite price_change_early in Hchange by done.
    by injection Hchange as <-.
  - intros prev cur p Hge Hprev Hcur Hp Hcur' Hp' newValue oldValue.
    rewrite (price_change_value data i row prev key cur p) in Hchange by done.
    by injection Hchange as <-.
Qed.

(** On the closing prices 10, 20, 30 the change is the sentinel at rows 0
    and 1, and 50 at row 2. *)
Lemma percentagesChangeInPrices_10_20_30 :
  exists out, percentagesChangeInPrices prices_10_20_30 = Ok out /\
    (fun row : object => row !! "Close - Daily Percentage Change") <$> out =
      [Some (VStr "-"); Some (VStr "-"); Some (VNum 50)].
Proof.
  destruct (percentagesChangeInPrices_spec prices_10_20_30) as [Htotal Hspec].
  destruct (Htotal eq_refl) as [out Hout]. exists out. split; [exact Hout|].
  destruct (Hspec out Hout) as [Hlen Hrows].
  assert (Hclose : "Close" ∈ VALUE_CELLS) by (apply VALUE_CELLS_cases; auto).
  destruct (Hrows 0%nat _ "Close" eq_refl Hclose) as (r0 & H0 & Hfirst & _).
  destruct (Hrows 1%nat _ "Close" eq_refl Hclose) as (r1 & H1 & Hsecond & _).
  destruct (Hrows 2%nat _ "Close" eq_refl Hclose) as (r2 & H2 & _ & Hthird).
  destruct out as [|? [|? [|? [|? ?]]]]; try discriminate Hlen.
  injection H0 as ->. injection H1 as ->. injection H2 as ->.
  simpl. change (price_column "Close") with "Close - Daily Percentage Change" in *.
  rewrite (Hfirst (le_S _ _ (le_n 1))), (Hsecond (le_n 2)).
  rewrite (Hthird _ "30" "20" (le_n 2) eq_refl eq_refl eq_refl); [reflexivity| |];
    discriminate.
Defined.

(** C2. Where the moving average is computed (a whole window length [W >= 1]
    and a row with at least [W - 1] rows before it), a sentinel in the window
    does not give the sentinel: the column holds the text [NaN]. *)
Theorem movingAverage_sentinel_in_window (W : nat) (data : list object)
  (i : nat) (row r : object) (cell : string) :
  (1 <= W)%nat -> Z.of_nat W < 2 ^ 53 -> Z.of_nat (length data) < 2 ^ 53 ->
  cell ∈ VALUE_CELLS -> data !! i = Some row -> (W - 1 <= i)%nat ->
  r ∈ take W (drop (S i - W) data) -> r !! cell = Some (VStr NOT_APPLICABLE) ->
  exists out row', movingAverage (number_of_nat W) data = Ok out /\
    out !! i = Some row' /\
    row' !! moving_average_column (number_of_nat W) cell = Some (VStr "NaN") /\
    row' !! moving_average_column (number_of_nat W) cell <> Some (VStr NOT_APPLICABLE).
Proof.
  intros HW HWb Hlen Hcell Hi Hge Hr Hsentinel.
  destruct (movingAverage_Ok (number_of_nat W) data) as (out & Hout & _ & Hrows).
  destruct (Hrows i row Hi) as (row' & Hrow' & _ & Hcolumns).
  exists out, row'. split; [done|]. split; [done|].
  rewrite (Hcolumns cell Hcell).
  rewrite moving_average_cell_value by (done || by eapply lookup_lt_Some).
  rewrite (sum_with_nan cell _ r) by (done || by rewrite Hsentinel).
  rewrite div_nan_l. split; [reflexivity|discriminate].
Qed.

(** On the closing prices 10, "-", 30 and the window length 2, rows 1 and 2
    hold [NaN]. *)
Lemma movingAverage_2_of_10_dash_30 :
  exists out, movingAverage 2 closes_10_dash_30 = Ok out /\
    (fun row : object => row !! "Close Moving Average - 2 days") <$> drop 1 out =
      [Some (VStr "NaN"); Some (VStr "NaN")].
Proof.
  assert (Hclose : "Close" ∈ VALUE_CELLS) by (apply VALUE_CELLS_cases; auto).
  destruct (movingAverage_sentinel_in_window 2 closes_10_dash_30 1 _ _ "Close"
              (le_S _ _ (le_n 1)) eq_refl eq_refl Hclose eq_refl (le_n 1)
              (list_elem_of_further _ _ _ (list_elem_of_here _ _)) eq_refl)
    as (out & row1 & Hout & H1 & Hnan1 & _).
  destruct (movingAverage_sentinel_in_window 2 closes_10_dash_30 2 _ _ "Close"
              (le_S _ _ (le_n 1)) eq_refl eq_refl Hclose eq_refl (le_S _ _ (le_n 1))
              (list_elem_of_here _ _) eq_refl)
    as (out' & row2 & Hout' & H2 & Hnan2 & _).
  rewrite Hout in Hout'. injection Hout' as <-.
  exists out. split; [exact Hout|].
  destruct (movingAverage_Ok 2 closes_10_dash_30) as (out' & Hout' & Hlen & _).
  pose proof (eq_trans (eq_sym Hout) Hout') as Heq. injection Heq as <-.
  destruct out as [|? [|? [|? [|? ?]]]]; try discriminate Hlen.
  injection H1 as ->. injection H2 as ->. simpl.
  change (moving_average_column (number_of_nat 2) "Close")
    with "Close Moving Average - 2 days" in *.
  rewrite Hnan1, Hnan2. reflexivity.
Defined.

(** C3, as stated, fails: after a volume of 0 the volume change is
    [Infinity], and after a price of 0 the price change is [Infinity]; neither
    is the sentinel. *)
Lemma percentage_change_after_zero_is_infinity :
  (exists out row', percentagesChangeInVolume volumes_0_5 = Ok out /\
     out !! 1%nat = Some row' /\
     row' !! volume_column = Some (VNum infinity) /\
     row' !! volume_column <> Some (VStr NOT_APPLICABLE)) /\
  (exists out row', percentagesChangeInPrices prices_1_0_5 = Ok out /\
     out !! 2%nat = Some row' /\
     row' !! price_column "Close" = Some (VNum infinity) /\
     row' !! price_column "Close" <> Some (VStr NOT_APPLICABLE)).
Proof.
  split.
  - destruct (percentagesChangeInVolume_total volumes_0_5 eq_refl) as [out Hout].
    destruct (percentagesChangeInVolume_Ok _ _ Hout) as [_ Hrows].
    destruct (Hrows 1%nat _ eq_refl) as (row' & change & Hrow' & Hchange & ->).
    eexists out, _. split; [done|]. split; [done|]. rewrite lookup_insert_eq.
    erewrite volume_change_value in Hchange;
      [|apply le_n|reflexivity|reflexivity|reflexivity|discriminate|discriminate].
    injection Hchange as <-. split; [reflexivity|discriminate].
  - destruct (percentagesChangeInPrices_total prices_1_0_5 eq_refl) as [out Hout].
    destruct (percentagesChangeInPrices_Ok _ _ Hout) as [_ Hrows].
    assert (Hclose : "Close" ∈ VALUE_CELLS) by (apply VALUE_CELLS_cases; auto).
    destruct (Hrows 2%nat _ eq_refl) as (row' & Hrow' & _ & Hcolumns).
    destruct (Hcolumns "Close" Hclose) as (change & Hchange & Hcolumn).
    exists out, row'. split; [done|]. split; [done|]. rewrite Hcolumn.
    erewrite price_change_value in Hchange;
      [|apply le_n|reflexivity|reflexivity|reflexivity|discriminate|discriminate].
    injection Hchange as <-. split; [reflexivity|discriminate].
Qed.

(** C3, amended. In both percentage-change stages, where the change is
    computed and the previous row's value reads as zero, the column holds a
    number, and that number is [Infinity], [-Infinity] or [NaN]; it is not the
    sentinel. *)
Theorem percentage_change_after_zero (data : list object) :
  (forall out i row prev cur p,
     percentagesChangeInVolume data = Ok out ->
     (1 <= i)%nat -> data !! i = Some row -> data !! (i - 1)%nat = Some prev ->
     row !! "Volume" = Some (VStr cur) -> prev !! "Volume" = Some (VStr p) ->
     cur <> NOT_APPLICABLE -> p <> NOT_APPLICABLE ->
     PrimFloat.is_zero (parseFloat (remove_commas p)) = true ->
     exists row' x, out !! i = Some row' /\ row' !! volume_column = Some (VNum x) /\
       (x = infinity \/ x = neg_infinity \/ x = nan)) /\
  (forall out i row prev key cur p,
     percentagesChangeInPrices data = Ok out -> key ∈ VALUE_CELLS ->
     (2 <= i)%nat -> data !! i = Some row -> data !! (i - 1)%nat = Some prev ->
     row !! key = Some (VStr cur) -> prev !! key = Some (VStr p) ->
     cur <> NOT_APPLICABLE -> p <> NOT_APPLICABLE ->
     PrimFloat.is_zero (parseFloat (remove_commas p)) = true ->
     exists row' x, out !! i = Some row' /\ row' !! price_column key = Some (VNum x) /\
       (x = infinity \/ x = neg_infinity \/ x = nan)).
Proof.
  split.
  - intros out i row prev cur p Hout Hi Hrow Hprev Hcur Hp Hcur' Hp' Hzero.
    destruct (percentagesChangeInVolume_Ok data out Hout) as [_ Hrows].
    destruct (Hrows i row Hrow) as (row' & change & Hrow' & Hchange & ->).
    rewrite (volume_change_value data i row prev cur p) in Hchange by done.
    injection Hchange as <-.
    eexists _, _. split; [done|]. split; [apply lookup_insert_eq|].
    by apply percentage_of_zero.
  - intros out i row prev key cur p Hout Hkey Hi Hrow Hprev Hcur Hp Hcur' Hp' Hzero.
    destruct (percentagesChangeInPrices_Ok data out Hout) as [_ Hrows].
    destruct (Hrows i row Hrow) as (row' & Hrow' & _ & Hcolumns).
    destruct (Hcolumns key Hkey) as (change & Hchange & Hcolumn).
    rewrite (price_change_value data i row prev key cur p) in Hchange by done.
    injection Hchange as <-.
    eexists row', _. split; [done|]. split; [done|].
    by apply percentage_of_zero.
Qed.

(** After the volume 0, the volume 5 gives a change that is infinite or [NaN]. *)
Lemma percentage_change_after_zero_volumes :
  exists out row' x, percentagesChangeInVolume volumes_0_5 = Ok out /\
    out !! 1%nat = Some row' /\ row' !! volume_column = Some (VNum x) /\
    (x = infinity \/ x = neg_infinity \/ x = nan).
Proof.
  destruct (percentagesChangeInVolume_total volumes_0_5 eq_refl) as [out Hout].
  destruct (proj1 (percentage_change_after_zero volumes_0_5) out 1%nat _ _ "5" "0" Hout
              (le_n 1) eq_refl eq_refl eq_refl eq_refl) as (row' & x & H);
    [discriminate|discriminate|reflexivity|].
  by exists out, row', x.
Defined.

(** C4, as stated, fails: on the volumes 0, 5, "n/a" the whole pipeline
    leaves [Infinity] in [Daily Change in Volume] of the second row and [NaN]
    in that of the third; neither is a valid number or the sentinel. *)
Lemma main_leaves_infinity_and_NaN :
  exists out row1 row2, main Date_parse_iso None csv_volumes_0_5_na = Ok out /\
    out !! 1%nat = Some row1 /\ out !! 2%nat = Some row2 /\
    row1 !! volume_column = Some (VNum infinity) /\
    row2 !! volume_column = Some (VNum nan) /\
    ~ number_or_sentinel (row1 !! volume_column) /\
    ~ number_or_sentinel (row2 !! volume_column).
Proof.
  assert (H : match main Date_parse_iso None csv_volumes_0_5_na with
              | Ok out =>
                  (out !! 1%nat) ≫= lookup volume_column = Some (VNum infinity) /\
                  (out !! 2%nat) ≫= lookup volume_column = Some (VNum nan)
              | _ => False
              end) by (vm_compute; split; reflexivity).
  destruct (main Date_parse_iso None csv_volumes_0_5_na) as [out| |]; [|done|done].
  destruct H as [H1 H2].
  destruct (out !! 1%nat) as [row1|] eqn:Hrow1; [|discriminate H1].
  destruct (out !! 2%nat) as [row2|] eqn:Hrow2; [|discriminate H2].
  simpl in H1, H2. exists out, row1, row2. rewrite H1, H2. repeat split; try done.
  - intros (v & Hv & Hkind). injection Hv as <-.
    destruct Hkind as [Hkind|Hkind]; discriminate Hkind.
  - intros (v & Hv & Hkind). injection Hv as <-.
    destruct Hkind as [Hkind|Hkind]; discriminate Hkind.
Qed.

(** C4, amended. When the window lengths are accepted and every row has
    strings in [Volume] and the four price columns, the whole pipeline
    returns, with one record per data row, and in every record each derived
    column is set. A percentage change is the sentinel or a number. A moving
    average is a text, the one that the stage of a configured length that is
    written the same way (the length itself, unless the list has another one
    of the same text) writes for the row of the sorted records: the sentinel
    while the row index is below the length minus one, and from there on the
    average of the window rounded to two decimals, or from [1e21] on the text
    that [Number] has of itself. What is written when the average is [NaN],
    as it is with a sentinel in the window, is not stated here. *)
Theorem main_enriches (Date_parse : string -> float) (avgsString : option string)
  (csv : list (list string)) (lengths : option (list float)) :
  formatInputtedMovingAverages avgsString = Ok lengths ->
  columns_are_strings ("Volume" :: VALUE_CELLS)
    (rowsToObjects (drop 1 csv) (default [] (csv !! 0%nat))) = true ->
  let windows := default DEFAULT_MOVING_AVERAGES lengths in
  let sorted :=
    sortDataByDate Date_parse DATE_CELL
      (rowsToObjects (drop 1 csv) (default [] (csv !! 0%nat))) in
  exists out, main Date_parse avgsString csv = Ok out /\
    length out = length (drop 1 csv) /\
    forall i row, out !! i = Some row ->
      at_column is_change row volume_column /\
      (forall key, key ∈ VALUE_CELLS -> at_column is_change row (price_column key)) /\
      (forall len cell, len ∈ windows -> cell ∈ VALUE_CELLS ->
         exists len' text, len' ∈ windows /\ toString len' = toString len /\
           row !! moving_average_column len cell = Some (VStr text) /\
           average_text len' sorted i cell text).
Proof.
  intros Hlengths Hstrings windows sorted. rewrite main_unfold. fold sorted.
  destruct (prepareData_enriches avgsString lengths sorted)
    as (out & Hout & Hlen & Henriched); [done| |].
  { unfold sorted. rewrite sortDataByDate_Permutation. by apply columns_are_strings_Forall. }
  exists out. split; [done|]. split.
  - unfold sorted in Hlen.
    rewrite Hlen, (Permutation_length (sortDataByDate_Permutation _ _ _)).
    apply rowsToObjects_length.
  - intros i row Hrow.
    destruct (Forall_lookup_1 _ _ _ _ Henriched Hrow) as (Hvolume & Hprices & _).
    split; [done|]. split; [done|]. intros len cell Hlen' Hcell.
    by apply (prepareData_cells avgsString lengths sorted out Hlengths Hout).
Qed.

(** On the days 3, 1, 2 with the closing prices 30, 10, 20 and the window
    length 2, the pipeline returns three records in the order of the days;
    their two-day averages of [Close] are the sentinel, 15.00 and 25.00. *)
Lemma main_enriches_days_window_2 :
  exists out, main Date_parse_iso (Some "2") csv_days_3_1_2 = Ok out /\
    length out = 3%nat /\
    (fun row : object => row !! "Close Moving Average - 2 days") <$> out =
      [Some (VStr "-"); Some (VStr "15.00"); Some (VStr "25.00")].
Proof.
  destruct (main_enriches Date_parse_iso (Some "2") csv_days_3_1_2 (Some [2%float]))
    as (out & Hout & Hlen & Hrows); [reflexivity|reflexivity|].
  exists out. split; [exact Hout|]. split; [exact Hlen|].
  assert (Hclose : "Close" ∈ VALUE_CELLS) by (apply VALUE_CELLS_cases; auto).
  assert (Htwo : 2%float ∈ default DEFAULT_MOVING_AVERAGES (Some [2%float])) by left.
  destruct out as [|r0 [|r1 [|r2 [|? ?]]]]; try discriminate Hlen.
  destruct (Hrows 0%nat r0 eq_refl) as (_ & _ & H0).
  destruct (Hrows 1%nat r1 eq_refl) as (_ & _ & H1).
  destruct (Hrows 2%nat r2 eq_refl) as (_ & _ & H2).
  destruct (H0 2%float "Close" Htwo Hclose) as (a0 & t0 & Ha0 & _ & Hc0 & Ht0).
  destruct (H1 2%float "Close" Htwo Hclose) as (a1 & t1 & Ha1 & _ & Hc1 & Ht1).
  destruct (H2 2%float "Close" Htwo Hclose) as (a2 & t2 & Ha2 & _ & Hc2 & Ht2).
  apply list_elem_of_singleton in Ha0, Ha1, Ha2. subst a0 a1 a2.
  change (moving_average_column 2 "Close") with "Close Moving Average - 2 days" in *.
  simpl. rewrite Hc0, Hc1, Hc2.
  vm_compute in Ht0. vm_compute in Ht1. vm_compute in Ht2.
  by rewrite Ht0, (Ht1 eq_refl), (Ht2 eq_refl).
Defined.

(** C5. For a whole window length [W >= 1], the moving-average stage returns,
    and in each of the four [<field> Moving Average - W days] columns a row
    with fewer than [W - 1] rows before it holds the sentinel, and every other
    row holds what [toFixed(2)] gives for the sum of the field over the [W]
    rows ending at it, divided by [W]: when that average is below [1e21] in
    magnitude, the average rounded to two decimals. *)
Theorem movingAverage_spec (W : nat) (data : list object) :
  (1 <= W)%nat -> Z.of_nat W < 2 ^ 53 -> Z.of_nat (length data) < 2 ^ 53 ->
  exists out, movingAverage (number_of_nat W) data = Ok out /\
    length out = length data /\
    forall i row cell, data !! i = Some row -> cell ∈ VALUE_CELLS ->
      exists row', out !! i = Some row' /\
        ((i < W - 1)%nat ->
         row' !! moving_average_column (number_of_nat W) cell = Some (VStr NOT_APPLICABLE)) /\
        ((W - 1 <= i)%nat ->
         let sum := reduce (fun cellAccum row => (cellAccum + ToNumber (row !! cell))%float)
                      (take W (drop (S i - W) data)) 0%float in
         let average := (sum / number_of_nat W)%float in
         row' !! moving_average_column (number_of_nat W) cell =
           Some (VStr (toFixed 2 average)) /\
         ((PrimFloat.abs average <? 1e21)%float = true ->
          row' !! moving_average_column (number_of_nat W) cell =
            Some (VStr (rounded_to_two_decimals average)))).
Proof.
  intros HW HWb Hlen.
  destruct (movingAverage_Ok (number_of_nat W) data) as (out & Hout & Hlen' & Hrows).
  exists out. split; [done|]. split; [done|].
  intros i row cell Hi Hcell. destruct (Hrows i row Hi) as (row' & Hrow' & _ & Hcolumns).
  exists row'. split; [done|]. rewrite (Hcolumns cell Hcell).
  pose proof (lookup_lt_Some _ _ _ Hi) as Hilt. split.
  - intros Hlt. by rewrite moving_average_cell_early by lia.
  - intros Hge. cbv zeta. rewrite moving_average_cell_value by lia.
    split; [done|]. intros Hbelow. unfold numberToCurrencyValue, CURRENCY_DECIMAL_PLACES.
    by rewrite toFixed_rounded.
Qed.

(** On the closing prices 10 .. 50 and the window length 5, rows 0 to 3 hold
    the sentinel and row 4 holds 30.00. *)
Lemma movingAverage_5_of_10_to_50 :
  exists out, movingAverage 5 prices_10_to_50 = Ok out /\
    (fun row : object => row !! "Close Moving Average - 5 days") <$> out =
      [Some (VStr "-"); Some (VStr "-"); Some (VStr "-"); Some (VStr "-"); Some (VStr "30.00")].
Proof.
  destruct (movingAverage_spec 5 prices_10_to_50) as (out & Hout & Hlen & Hrows);
    [repeat constructor|reflexivity|reflexivity|].
  exists out. split; [exact Hout|].
  assert (Hclose : "Close" ∈ VALUE_CELLS) by (apply VALUE_CELLS_cases; auto).
  destruct (Hrows 0%nat _ "Close" eq_refl Hclose) as (r0 & H0 & Hs0 & _).
  destruct (Hrows 1%nat _ "Close" eq_refl Hclose) as (r1 & H1 & Hs1 & _).
  destruct (Hrows 2%nat _ "Close" eq_refl Hclose) as (r2 & H2 & Hs2 & _).
  destruct (Hrows 3%nat _ "Close" eq_refl Hclose) as (r3 & H3 & Hs3 & _).
  destruct (Hrows 4%nat _ "Close" eq_refl Hclose) as (r4 & H4 & _ & Hs4).
  destruct (Hs4 ltac:(simpl; lia)) as [_ Hrounded].
  destruct out as [|? [|? [|? [|? [|? [|? ?]]]]]]; try discriminate Hlen.
  injection H0 as ->. injection H1 as ->. injection H2 as ->. injection H3 as ->.
  injection H4 as ->. simpl.
  change (moving_average_column (number_of_nat 5) "Close")
    with "Close Moving Average - 5 days" in *.
  rewrite Hs0, Hs1, Hs2, Hs3, (Hrounded eq_refl) by (simpl; lia). reflexivity.
Defined.

(** C6. The volume stage returns on rows whose [Volume] cells are strings.
    Whenever it returns, row 0 holds the sentinel in
    [Daily Change in Volume], and so does every row whose own volume or whose
    predecessor's volume is the sentinel; every other row, from index 1 on,
    holds [(new - old) / old * 100] for the two volumes read as numbers from
    their texts with every comma stripped. *)
Theorem percentagesChangeInVolume_spec (data : list object) :
  (columns_are_strings ["Volume"] data = true ->
   exists out, percentagesChangeInVolume data = Ok out) /\
  (forall out, percentagesChangeInVolume data = Ok out ->
   length out = length data /\
   forall i row, data !! i = Some row ->
     exists row', out !! i = Some row' /\
       (i = 0%nat -> row' !! volume_column = Some (VStr NOT_APPLICABLE)) /\
       (row !! "Volume" = Some (VStr NOT_APPLICABLE) ->
        row' !! volume_column = Some (VStr NOT_APPLICABLE)) /\
       (forall prev, (1 <= i)%nat -> data !! (i - 1)%nat = Some prev ->
          (prev !! "Volume" = Some (VStr NOT_APPLICABLE) ->
           row' !! volume_column = Some (VStr NOT_APPLICABLE)) /\
          (forall cur p, row !! "Volume" = Some (VStr cur) -> prev !! "Volume" = Some (VStr p) ->
             cur <> NOT_APPLICABLE -> p <> NOT_APPLICABLE ->
             let newVolume := parseFloat (commas_stripped cur) in
             let oldVolume := parseFloat (commas_stripped p) in
             row' !! volume_column =
               Some (VNum ((newVolume - oldVolume) / oldVolume * 100)%float)))).
Proof.
  split; [apply percentagesChangeInVolume_total|].
  intros out Hout. destruct (percentagesChangeInVolume_Ok data out Hout) as [Hlen Hrows].
  split; [done|]. intros i row Hi.
  destruct (Hrows i row Hi) as (row' & change & Hrow' & Hchange & ->).
  eexists; split; [exact Hrow'|]. rewrite lookup_insert_eq. repeat split.
  - intros ->. rewrite volume_change_first in Hchange. by injection Hchange as <-.
  - intros Hcur. rewrite volume_change_sentinel in Hchange by done.
    by injection Hchange as <-.
  - intros Hp. rewrite (volume_change_after_sentinel data i row prev) in Hchange by done.
    by injection Hchange as <-.
  - intros cur p Hcur Hp Hcur' Hp' newVolume oldVolume.
    rewrite (volume_change_value data i row prev cur p) in Hchange by done.
    injection Hchange as <-. unfold newVolume, oldVolume.
    by rewrite !remove_commas_stripped.
Qed.

(** On the volumes 100, "-", 150 all three rows get the sentinel; on the
    volumes 1,000, 1,500 and 3,000,000 the changes are 50 and 199900. *)
Lemma percentagesChangeInVolume_100_dash_150 :
  (exists out, percentagesChangeInVolume volumes_100_dash_150 = Ok out /\
     (fun row : object => row !! volume_column) <$> out =
       [Some (VStr "-"); Some (VStr "-"); Some (VStr "-")]) /\
  (exists out, percentagesChangeInVolume volumes_with_commas = Ok out /\
     (fun row : object => row !! volume_column) <$> out =
       [Some (VStr "-"); Some (VNum 50); Some (VNum 199900)]).
Proof.
  split.
  - destruct (percentagesChangeInVolume_spec volumes_100_dash_150) as [Htotal Hspec].
    destruct (Htotal eq_refl) as [out Hout]. exists out. split; [exact Hout|].
    destruct (Hspec out Hout) as [Hlen Hrows].
    destruct (Hrows 0%nat _ eq_refl) as (r0 & H0 & Hfirst & _).
    destruct (Hrows 1%nat _ eq_refl) as (r1 & H1 & _ & Hcur & _).
    destruct (Hrows 2%nat _ eq_refl) as (r2 & H2 & _ & _ & Hprev).
    destruct (Hprev _ (le_S _ _ (le_n 1)) eq_refl) as [Hp _].
    destruct out as [|? [|? [|? [|? ?]]]]; try discriminate Hlen.
    injection H0 as ->. injection H1 as ->. injection H2 as ->.
    simpl. rewrite (Hfirst eq_refl), (Hcur eq_refl), (Hp eq_refl). reflexivity.
  - destruct (percentagesChangeInVolume_spec volumes_with_commas) as [Htotal Hspec].
    destruct (Htotal eq_refl) as [out Hout]. exists out. split; [exact Hout|].
    destruct (Hspec out Hout) as [Hlen Hrows].
    destruct (Hrows 0%nat _ eq_refl) as (r0 & H0 & Hfirst & _).
    destruct (Hrows 1%nat _ eq_refl) as (r1 & H1 & _ & _ & Hprev1).
    destruct (Hrows 2%nat _ eq_refl) as (r2 & H2 & _ & _ & Hprev2).
    destruct (Hprev1 _ (le_n 1) eq_refl) as [_ Hv1].
    destruct (Hprev2 _ (le_S _ _ (le_n 1)) eq_refl) as [_ Hv2].
    destruct out as [|? [|? [|? [|? ?]]]]; try discriminate Hlen.
    injection H0 as ->. injection H1 as ->. injection H2 as ->.
    simpl. rewrite (Hfirst eq_refl).
    rewrite (Hv1 "1,500" "1,000" eq_refl eq_refl ltac:(discriminate) ltac:(discriminate)).
    rewrite (Hv2 "3,000,000" "1,500" eq_refl eq_refl ltac:(discriminate) ltac:(discriminate)).
    reflexivity.
Defined.

(** C7, as stated, fails: the tokens 0, -3 and 2.5, none of them a positive
    integer, are accepted as window lengths, and the pipeline then returns
    its records. *)
Lemma formatInputtedMovingAverages_accepts_0_neg3_2_5 :
  formatInputtedMovingAverages (Some "0,-3,2.5") = Ok (Some [0; -3; 2.5]%float) /\
  exists out, main Date_parse_iso (Some "0,-3,2.5") csv_volumes_0_5_na = Ok out /\
    length out = 3%nat.
Proof.
  split; [reflexivity|].
  destruct (prepareData_enriches (Some "0,-3,2.5") (Some [0; -3; 2.5]%float)
              (sortDataByDate Date_parse_iso DATE_CELL
                 (rowsToObjects (drop 1 csv_volumes_0_5_na) example_header)))
    as (out & Hout & Hlen & _); [reflexivity| |].
  { rewrite sortDataByDate_Permutation. by apply columns_are_strings_Forall. }
  exists out. rewrite main_unfold. split; [exact Hout|].
  rewrite Hlen, (Permutation_length (sortDataByDate_Permutation _ _ _)). reflexivity.
Qed.

(** C7, amended. A window-length list with a token that does not read as a
    number is rejected: [process.exit(1)] when the stages are put together,
    after the sort and before any stage runs, so [main] hands nothing to the
    output. A list whose tokens all read as numbers is accepted as those
    numbers, whatever their sign and whether whole or not. *)
Theorem formatInputtedMovingAverages_spec (avgsString : string) :
  avgsString <> EmptyString ->
  ((exists a, a ∈ map trim (split_comma avgsString) /\ isNaN a = true) ->
   formatInputtedMovingAverages (Some avgsString) = Exit 1 /\
   forall Date_parse csv, main Date_parse (Some avgsString) csv = Exit 1) /\
  ((forall a, a ∈ map trim (split_comma avgsString) -> isNaN a = false) ->
   formatInputtedMovingAverages (Some avgsString) =
     Ok (Some (StringToNumber <$> map trim (split_comma avgsString)))).
Proof.
  intros Hne. split.
  - intros (a & Ha & Hnan).
    pose proof (formatInputtedMovingAverages_rejects avgsString a Hne Ha Hnan) as Hexit.
    split; [done|]. intros Date_parse csv. by apply main_exits.
  - by apply formatInputtedMovingAverages_accepts.
Qed.

(** The list "5,x" is rejected. *)
Lemma formatInputtedMovingAverages_rejects_5_x :
  formatInputtedMovingAverages (Some "5,x") = Exit 1 /\
  forall Date_parse csv, main Date_parse (Some "5,x") csv = Exit 1.
Proof.
  apply (proj1 (formatInputtedMovingAverages_spec "5,x" ltac:(discriminate))).
  exists "x". split; [|reflexivity]. right. left.
Defined.

(** C8, as stated, fails: [rowsToObjects] turns a row with fewer cells than
    the header into a record that lacks the last column, and a row with more
    cells into a record that keeps the surplus under the name [undefined]. *)
Lemma rowsToObjects_builds_malformed_records :
  exists short long,
    rowsToObjects [["2020-01-02"; "110"]; ["2020-01-03"; "120"; "30"; "31"]]
      ["Date"; "Volume"; "Open"] = [short; long] /\
    short !! "Volume" = Some (VStr "110") /\ short !! "Open" = None /\
    long !! "Open" = Some (VStr "30") /\ long !! "undefined" = Some (VStr "31").
Proof.
  eexists _, _. repeat split; reflexivity.
Qed.

(** C8, amended. [rowsToObjects] makes no check of the cell count: it returns
    one record per raw row. With distinct column names, the record of a row
    maps each column to the row's cell at that position, and lacks the column
    when the row is too short; cells past the header are kept under the name
    [undefined], the last of them remaining. The one column that is never
    stored is a column named [__proto__]. *)
Theorem rowsToObjects_spec (rows : list (list string)) (headers : list string) :
  NoDup headers ->
  length (rowsToObjects rows headers) = length rows /\
  forall i row, rows !! i = Some row ->
    exists record, rowsToObjects rows headers !! i = Some record /\
      (forall j h, headers !! j = Some h -> h <> "__proto__" ->
         (length row <= length headers)%nat \/ "undefined" ∉ headers ->
         record !! h = VStr <$> row !! j) /\
      ((length headers < length row)%nat -> "undefined" ∉ headers ->
       record !! "undefined" = VStr <$> last row) /\
      record !! "__proto__" = None.
Proof.
  intros Hnd. split; [apply rowsToObjects_length|]. intros i row Hi.
  unfold rowsToObjects. rewrite list_lookup_fmap, Hi. simpl.
  eexists. split; [done|]. split; [|split; [|by rewrite reduce_indexed_proto]].
  - intros j h Hj Hproto Hcase.
    assert (Hother : forall j', j' <> j -> (j' < length row)%nat ->
              property_key (headers !! j') <> h).
    { intros j' Hne Hj'. destruct (headers !! j') as [h'|] eqn:Hh'; simpl.
      - intros ->. apply Hne. by eapply NoDup_lookup.
      - intros <-. apply lookup_ge_None in Hh'. destruct Hcase as [Hshort|Hundef]; [lia|].
        apply Hundef. apply list_elem_of_lookup. by exists j. }
    destruct (decide (j < length row)%nat) as [Hlt|Hge].
    + rewrite (reduce_indexed_lookup headers h row 0 j);
        [by rewrite Nat.sub_0_r|done|lia| |].
      * by rewrite Hj.
      * intros j' Hj'. apply Hother; lia.
    + rewrite reduce_indexed_other by (intros j' Hj'; apply Hother; lia).
      rewrite lookup_empty. symmetry. rewrite (proj2 (lookup_ge_None row j)) by lia. done.
  - intros Hlong Hundef. rewrite last_lookup.
    rewrite (reduce_indexed_lookup headers "undefined" row 0 (pred (length row)));
      [by rewrite Nat.sub_0_r|done|lia| |intros j' Hj'; lia].
    rewrite (proj2 (lookup_ge_None headers _)) by lia. done.
Qed.

(** The short row of the sample CSV: its record has the six columns and
    lacks the seventh. *)
Lemma rowsToObjects_short_row :
  exists record,
    rowsToObjects (drop 1 csv_with_short_row)
      ["Date"; "Volume"; "Open"; "High"; "Low"; "Close"; "Adj Close"] !! 1%nat = Some record /\
    record !! "Close" = Some (VStr "20") /\ record !! "Adj Close" = None.
Proof.
  assert (Hnd : NoDup ["Date"; "Volume"; "Open"; "High"; "Low"; "Close"; "Adj Close"]).
  { apply NoDup_ListNoDup, (NoDup_count_occ' string_dec). intros x Hx.
    repeat (destruct Hx as [<-|Hx]; [reflexivity|]). destruct Hx. }
  destruct (rowsToObjects_spec (drop 1 csv_with_short_row) _ Hnd) as [_ Hrows].
  destruct (Hrows 1%nat _ eq_refl) as (record & Hrecord & Hcells & _).
  exists record. split; [exact Hrecord|]. split.
  - apply (Hcells 5%nat "Close" eq_refl); [discriminate|]. left. simpl. lia.
  - apply (Hcells 6%nat "Adj Close" eq_refl); [discriminate|]. left. simpl. lia.
Defined.

(** The date reader used in the examples gives the time values of
    [Date.parse] on ISO dates, and [NaN] on what it cannot read. *)
Example Date_parse_iso_values :
  map Date_parse_iso ["1970-01-01"; "1970-01-02"; "2020-01-01"; "2000-02-29"; "1969-12-31"; "Jan 1"] =
    [0; 86400000; 1577836800000; 951782400000; -86400000; nan]%float.
Proof.
  reflexivity.
Qed.



(** C10, as stated, fails: a column that already bears the name
    [Daily Change in Volume] is rewritten by the volume stage. *)
Lemma percentagesChangeInVolume_rewrites_column :
  exists out row row', percentagesChangeInVolume rows_with_volume_change = Ok out /\
    rows_with_volume_change !! 0%nat = Some row /\ out !! 0%nat = Some row' /\
    row !! "Daily Change in Volume" = Some (VStr "7") /\
    row' !! "Daily Change in Volume" = Some (VStr "-").
Proof.
  assert (H : match percentagesChangeInVolume rows_with_volume_change with
              | Ok out => (out !! 0%nat) ≫= lookup volume_column = Some (VStr "-")
              | _ => False
              end) by (vm_compute; reflexivity).
  destruct (percentagesChangeInVolume rows_with_volume_change) as [out| |]; [|done|done].
  destruct (out !! 0%nat) as [row'|] eqn:Hrow'; [|discriminate H].
  eexists out, _, row'. split; [done|]. split; [reflexivity|]. split; [done|].
  split; [reflexivity|exact H].
Qed.

(** C10, amended. Each stage, when it returns, gives as many records in the
    same places; every column that does not bear the name of one of the
    stage's derived columns has the value it had, the derived columns are
    set, and no column is removed. The moving-average stage always returns. *)
Theorem stages_keep_rows :
  (forall data out, percentagesChangeInVolume data = Ok out ->
     keeps_rows [volume_column] data out) /\
  (forall data out, percentagesChangeInPrices data = Ok out ->
     keeps_rows (price_column <$> VALUE_CELLS) data out) /\
  (forall multiplier data, exists out, movingAverage multiplier data = Ok out /\
     keeps_rows (moving_average_column multiplier <$> VALUE_CELLS) data out).
Proof.
  split; [|split].
  - intros data out Hout.
    apply (writes_keeps_rows (fun _ => volume_column) [EmptyString] is_change).
    by apply percentagesChangeInVolume_writes.
  - intros data out Hout. eapply writes_keeps_rows.
    by apply percentagesChangeInPrices_writes.
  - intros multiplier data.
    destruct (movingAverage_writes multiplier data) as (out & Hout & Hw).
    exists out. split; [done|]. by eapply writes_keeps_rows.
Qed.

(** On the prices 10, 20, 30 the price stage keeps the rows. *)
Lemma stages_keep_rows_10_20_30 :
  exists out, percentagesChangeInPrices prices_10_20_30 = Ok out /\
    keeps_rows (price_column <$> VALUE_CELLS) prices_10_20_30 out.
Proof.
  destruct (percentagesChangeInPrices_total prices_10_20_30 eq_refl) as [out Hout].
  exists out. split; [exact Hout|].
  exact (proj1 (proj2 stages_keep_rows) prices_10_20_30 out Hout).
Defined.

(** ** Further properties *)

Lemma mapR_indexed_no_Exit g l : forall i c,
  (forall j r c', g j r <> Exit c') -> mapR_indexed g i l <> Exit c.
Proof.
  induction l as [|r l IH]; intros i c Hg; simpl; [done|].
  destruct (g i r) as [r'| |c'] eqn:Hr; simpl; [|done|by destruct (Hg i r c')].
  destruct (mapR_indexed g (S i) l) as [rest| |c'] eqn:Hrest; simpl; [done|done|].
  by destruct (IH (S i) c' Hg).
Qed.

Section Written.

Variable w : list object -> nat -> object -> result object.
Hypothesis w_sources : reads_sources w.

Lemma written_Ok data out :
  written w data = Ok out ->
  length out = length data /\
  forall i row, data !! i = Some row ->
    exists x, w data i row = Ok x /\ out !! i = Some (x ∪ row).
Proof.
  intros H. destruct (mapR_indexed_Ok _ _ _ _ H) as [Hlen Hrows]. split; [done|].
  intros i row Hi. destruct (Hrows i row Hi) as (r' & Hr' & Hout).
  apply bind_Ok_inv in Hr' as (x & Hx & Hr'). injection Hr' as <-. by exists x.
Qed.

Lemma written_total data :
  (forall i row, data !! i = Some row -> exists x, w data i row = Ok x) ->
  exists out, written w data = Ok out.
Proof.
  intros H. apply mapR_indexed_total. intros j r Hj.
  destruct (H j r Hj) as [x Hx]. simpl. rewrite Hx. by eexists.
Qed.

Lemma written_no_Exit data c : written w data <> Exit c.
Proof.
  apply mapR_indexed_no_Exit. intros j r c'.
  destruct (w data j r) as [x| |c''] eqn:Hx; simpl; [done|done|].
  by destruct (never_exits w w_sources data j r c'').
Qed.

Lemma written_agree data out :
  written w data = Ok out -> Forall2 (agree_row source_column) out data.
Proof.
  intros H. destruct (written_Ok _ _ H) as [Hlen Hrows].
  apply Forall2_same_length_lookup. split; [done|].
  intros i r' r Hr' Hr. destruct (Hrows i r Hr) as (x & Hx & Hout).
  rewrite Hout in Hr'. injection Hr' as <-. intros k Hk.
  rewrite lookup_union_r; [done|]. by eapply writes_apart.
Qed.

Lemma union_agree (x row : object) :
  (forall k, source_column k -> x !! k = None) -> agree_row source_column (x ∪ row) row.
Proof. intros Hx k Hk. by rewrite lookup_union_r by auto. Qed.

(** A stage run on its own result changes nothing. *)
Lemma written_idempotent data out : written w data = Ok out -> written w out = Ok out.
Proof.
  intros H. pose proof (written_agree _ _ H) as Hagree.
  destruct (written_Ok _ _ H) as [Hlen Hrows].
  assert (Hrow : forall i r', out !! i = Some r' ->
            exists x row, data !! i = Some row /\ r' = x ∪ row /\ w out i r' = Ok x).
  { intros i r' Hr'. destruct (lookup_lt_is_Some_2 data i) as [row Hrow].
    { rewrite <- Hlen. by eapply lookup_lt_Some. }
    destruct (Hrows i row Hrow) as (x & Hx & Hout). rewrite Hout in Hr'. injection Hr' as <-.
    exists x, row. split; [done|]. split; [done|].
    rewrite (reads_agree w w_sources data out i row (x ∪ row)); [done|done|].
    apply union_agree. intros k Hk. by eapply writes_apart. }
  destruct (written_total out) as [out' Hout'].
  { intros i r' Hr'. destruct (Hrow i r' Hr') as (x & row & _ & _ & Hx). by exists x. }
  rewrite Hout'. f_equal. destruct (written_Ok _ _ Hout') as [Hlen' Hrows'].
  apply list_eq_same_length with (length out); [done|done|].
  intros i a b Hi Ha Hb. destruct (Hrows' i b Hb) as (x' & Hx' & Hout'').
  destruct (Hrow i b Hb) as (x & row & _ & -> & Hx).
  rewrite Hx in Hx'. injection Hx' as <-. rewrite Hout'' in Ha. injection Ha as <-.
  by rewrite (assoc_L (∪)), (idemp_L (∪)).
Qed.

End Written.

Section TwoStages.

Variables w1 w2 : list object -> nat -> object -> result object.
Hypothesis w1_sources : reads_sources w1.
Hypothesis w2_sources : reads_sources w2.
Hypothesis apart : forall d i r x1 x2 row,
  w1 d i r = Ok x1 -> w2 d i r = Ok x2 -> x2 ∪ (x1 ∪ row) = x1 ∪ (x2 ∪ row).

Lemma written_then data out :
  written w1 data ≫= written w2 = Ok out ->
  length out = length data /\
  forall i row, data !! i = Some row ->
    exists x1 x2, w1 data i row = Ok x1 /\ w2 data i row = Ok x2 /\
                  out !! i = Some (x2 ∪ (x1 ∪ row)).
Proof.
  intros H. apply bind_Ok_inv in H as (o1 & H1 & H2).
  pose proof (written_agree w1 w1_sources _ _ H1) as Hagree.
  destruct (written_Ok _ _ _ H1) as [Hlen1 Hrows1].
  destruct (written_Ok _ _ _ H2) as [Hlen2 Hrows2].
  split; [congruence|]. intros i row Hi.
  destruct (Hrows1 i row Hi) as (x1 & Hx1 & Ho1).
  destruct (Hrows2 i _ Ho1) as (x2 & Hx2 & Hout).
  exists x1, x2. split; [done|]. split; [|done].
  rewrite <- Hx2. symmetry. apply (reads_agree w2 w2_sources); [done|].
  apply union_agree. intros k Hk. by eapply (writes_apart w1).
Qed.

Lemma then_written data :
  (forall i row, data !! i = Some row ->
     exists x1 x2, w1 data i row = Ok x1 /\ w2 data i row = Ok x2) ->
  exists out, written w1 data ≫= written w2 = Ok out.
Proof.
  intros H. destruct (written_total w1 data) as [o1 H1].
  { intros i row Hi. destruct (H i row Hi) as (x1 & _ & Hx1 & _). by exists x1. }
  pose proof (written_agree w1 w1_sources _ _ H1) as Hagree.
  destruct (written_Ok _ _ _ H1) as [Hlen1 Hrows1].
  rewrite H1. simpl. apply written_total. intros i r' Hr'.
  destruct (lookup_lt_is_Some_2 data i) as [row Hrow].
  { rewrite <- Hlen1. by eapply lookup_lt_Some. }
  destruct (H i row Hrow) as (x1 & x2 & Hx1 & Hx2).
  destruct (Hrows1 i row Hrow) as (x1' & Hx1' & Ho1).
  rewrite Ho1 in Hr'. injection Hr' as <-. exists x2.
  rewrite <- Hx2. apply (reads_agree w2 w2_sources); [done|].
  apply union_agree. intros k Hk. by eapply (writes_apart w1).
Qed.

End TwoStages.

(** Two stages that write apart from each other give the same, whichever runs
    first. *)
Lemma written_commute w1 w2 data :
  reads_sources w1 -> reads_sources w2 ->
  (forall d i r x1 x2 row,
     w1 d i r = Ok x1 -> w2 d i r = Ok x2 -> x2 ∪ (x1 ∪ row) = x1 ∪ (x2 ∪ row)) ->
  written w1 data ≫= written w2 = written w2 data ≫= written w1.
Proof.
  intros Hw1 Hw2 Hapart.
  assert (Hhalf : forall wa wb, reads_sources wa -> reads_sources wb ->
            (forall d i r xa xb row,
               wa d i r = Ok xa -> wb d i r = Ok xb -> xb ∪ (xa ∪ row) = xa ∪ (xb ∪ row)) ->
            forall out, written wa data ≫= written wb = Ok out ->
                        written wb data ≫= written wa = Ok out).
  { intros wa wb Hwa Hwb Hab out H.
    destruct (written_then wa wb Hwa Hwb data out H) as [Hlen Hrows].
    destruct (then_written wb wa Hwb Hwa data) as [out' Hout'].
    { intros i row Hi. destruct (Hrows i row Hi) as (xa & xb & Ha & Hb & _). by exists xb, xa. }
    rewrite Hout'. f_equal.
    destruct (written_then wb wa Hwb Hwa data out' Hout') as [Hlen' Hrows'].
    apply list_eq_same_length with (length data); [done|done|].
    intros i a b Hi Ha Hb. destruct (lookup_lt_is_Some_2 data i Hi) as [row Hrow].
    destruct (Hrows i row Hrow) as (xa & xb & Hxa & Hxb & Hout).
    destruct (Hrows' i row Hrow) as (xb' & xa' & Hxb' & Hxa' & Hout'').
    rewrite Hxa in Hxa'. rewrite Hxb in Hxb'. injection Hxa' as <-. injection Hxb' as <-.
    rewrite Hout'' in Ha. rewrite Hout in Hb. injection Ha as <-. injection Hb as <-.
    symmetry. by eapply Hab. }
  destruct (written w1 data ≫= written w2) as [out| |c] eqn:H12.
  - symmetry. by apply Hhalf.
  - destruct (written w2 data ≫= written w1) as [out| |c] eqn:H21; [|done|].
    + apply Hhalf in H21; [congruence|done|done|].
      intros d i r xa xb row Ha Hb. symmetry. by eapply Hapart.
    + exfalso. destruct (written w2 data) as [o2| |c'] eqn:H2; simpl in H21;
        [exact (written_no_Exit w1 Hw1 o2 c H21)|done|exact (written_no_Exit w2 Hw2 data c' H2)].
  - exfalso. destruct (written w1 data) as [o1| |c'] eqn:H1; simpl in H12;
      [exact (written_no_Exit w2 Hw2 o1 c H12)|done|exact (written_no_Exit w1 Hw1 data c' H1)].
Qed.

Lemma mapR_indexed_ext g g' l : forall i,
  (forall j r, g j r = g' j r) -> mapR_indexed g i l = mapR_indexed g' i l.
Proof.
  induction l as [|r l IH]; intros i H; simpl; [done|]. by rewrite H, (IH (S i) H).
Qed.

(** The three stages, each by the cells it writes. *)
Lemma percentagesChangeInVolume_written data :
  percentagesChangeInVolume data = written volume_writes data.
Proof.
  rewrite percentagesChangeInVolume_rows. apply mapR_indexed_ext. intros i row.
  unfold volume_row, volume_writes.
  destruct (volume_change data i row); simpl; [|done|done].
  by rewrite insert_union_singleton_l.
Qed.

Lemma percentagesChangeInPrices_written data :
  percentagesChangeInPrices data = written price_writes data.
Proof.
  rewrite percentagesChangeInPrices_rows. apply mapR_indexed_ext. intros i row.
  unfold price_row, price_writes.
  destruct (mapR (price_change data i row) VALUE_CELLS); simpl; [|done|done].
  by rewrite write_columns_union, (left_id_L ∅ (∪)).
Qed.

Lemma movingAverage_written multiplier data :
  movingAverage multiplier data = written (moving_average_writes multiplier) data.
Proof.
  rewrite movingAverage_rows. apply mapR_indexed_ext. intros i row.
  unfold moving_average_row, moving_average_writes. simpl.
  by rewrite write_columns_union, (left_id_L ∅ (∪)).
Qed.

(** What the stages compute depends on the source columns only. *)
Lemma volume_change_agree (d d' : list object) i (r r' : object) :
  Forall2 (agree_row source_column) d' d -> agree_row source_column r' r ->
  volume_change d' i r' = volume_change d i r.
Proof.
  intros Hd Hr. unfold volume_change.
  assert (Hv : source_column "Volume") by (apply source_column_cases; tauto).
  by rewrite (element_prop_agree d' d), (Hr "Volume").
Qed.

Lemma price_change_agree (d d' : list object) i (r r' : object) key :
  Forall2 (agree_row source_column) d' d -> agree_row source_column r' r ->
  key ∈ VALUE_CELLS -> price_change d' i r' key = price_change d i r key.
Proof.
  intros Hd Hr Hkey. unfold price_change. apply VALUE_CELLS_source in Hkey.
  by rewrite (element_prop_agree d' d), (Hr key).
Qed.

Lemma write_columns_ext name val val' keys : forall acc : object,
  (forall c, c ∈ keys -> val c = val' c) ->
  write_columns name val keys acc = write_columns name val' keys acc.
Proof.
  induction keys as [|c keys IH]; intros acc H; [done|].
  rewrite !write_columns_cons, (H c) by left. apply IH. intros c' Hc'. apply H. by right.
Qed.

Lemma mapR_ext {A B : Type} (f g : A -> result B) (l : list A) :
  (forall a, a ∈ l -> f a = g a) -> mapR f l = mapR g l.
Proof.
  induction l as [|a l IH]; intros H; simpl; [done|].
  rewrite (H a) by left. rewrite IH; [done|]. intros a' Ha'. apply H. by right.
Qed.

Lemma mapR_no_Exit {A B : Type} (f : A -> result B) (l : list A) c :
  (forall a c', f a <> Exit c') -> mapR f l <> Exit c.
Proof.
  intros Hf. revert c. induction l as [|a l IH]; intros c; simpl; [done|].
  destruct (f a) as [b| |c'] eqn:Ha; simpl; [|done|by destruct (Hf a c')].
  destruct (mapR f l) as [bs| |c'] eqn:Hl; simpl; [done|done|]. by destruct (IH c').
Qed.

Lemma volume_change_no_Exit data i row c : volume_change data i row <> Exit c.
Proof.
  unfold volume_change.
  destruct (_ && _); [|done].
  destruct (replace_commas (element_prop data (Z.of_nat i - 1) "Volume")) as [a| |c'] eqn:Ha;
    simpl; [|done|].
  - destruct (replace_commas (row !! "Volume")) as [b| |c'] eqn:Hb; simpl; [done|done|].
    by destruct (row !! "Volume") as [[]|].
  - by destruct (element_prop data (Z.of_nat i - 1) "Volume") as [[]|].
Qed.

Lemma price_change_no_Exit data i row key c : price_change data i row key <> Exit c.
Proof.
  unfold price_change.
  destruct (_ && _); [|done].
  destruct (replace_commas (element_prop data (Z.of_nat i - 1) key)) as [a| |c'] eqn:Ha;
    simpl; [|done|].
  - destruct (replace_commas (row !! key)) as [b| |c'] eqn:Hb; simpl; [done|done|].
    by destruct (row !! key) as [[]|].
  - by destruct (element_prop data (Z.of_nat i - 1) key) as [[]|].
Qed.

Lemma write_columns_empty_None name val keys k :
  k ∉ name <$> keys -> write_columns name val keys (∅ : object) !! k = None.
Proof. intros Hk. by rewrite write_columns_other. Qed.

Lemma volume_writes_sources : reads_sources volume_writes.
Proof.
  split.
  - intros d d' i r r' Hd Hr. unfold volume_writes. by rewrite (volume_change_agree d d' i r r').
  - intros d i r x k H Hk. unfold volume_writes in H.
    apply bind_Ok_inv in H as (c & _ & H). injection H as <-.
    apply lookup_singleton_ne. intros <-. by apply volume_column_not_source.
  - intros d i r c. unfold volume_writes.
    destruct (volume_change d i r) as [v| |c'] eqn:Hv; simpl; [done|done|].
    by destruct (volume_change_no_Exit d i r c').
Qed.

Lemma price_writes_sources : reads_sources price_writes.
Proof.
  split.
  - intros d d' i r r' Hd Hr. unfold price_writes.
    rewrite (mapR_ext (price_change d' i r') (price_change d i r))
      by (intros; by apply price_change_agree).
    destruct (mapR (price_change d i r) VALUE_CELLS); simpl; [|done|done]. f_equal.
    apply write_columns_ext. intros c Hc. by rewrite (price_change_agree d d' i r r').
  - intros d i r x k H Hk. unfold price_writes in H.
    apply bind_Ok_inv in H as (c & _ & H). injection H as <-.
    apply write_columns_empty_None. intros Hin.
    apply list_elem_of_fmap in Hin as (c' & -> & Hc').
    by apply (price_column_not_source c' (price_column c')).
  - intros d i r c. unfold price_writes.
    destruct (mapR (price_change d i r) VALUE_CELLS) as [v| |c'] eqn:Hv; simpl; [done|done|].
    exfalso. revert Hv. apply mapR_no_Exit. intros. apply price_change_no_Exit.
Qed.

Lemma moving_average_writes_sources multiplier : reads_sources (moving_average_writes multiplier).
Proof.
  split.
  - intros d d' i r r' Hd Hr. unfold moving_average_writes. apply (f_equal Ok).
    apply write_columns_ext. intros c Hc. by apply moving_average_cell_agree.
  - intros d i r x k H Hk. unfold moving_average_writes in H. injection H as <-.
    apply write_columns_empty_None. intros Hin.
    apply list_elem_of_fmap in Hin as (c' & -> & Hc').
    by apply (moving_average_column_not_source multiplier c' (moving_average_column multiplier c')).
  - done.
Qed.

(** Cells written under different names can be laid over a row in any order. *)
Lemma union_apart (x1 x2 row : object) :
  (forall k, is_Some (x1 !! k) -> x2 !! k = None) -> x2 ∪ (x1 ∪ row) = x1 ∪ (x2 ∪ row).
Proof.
  intros H. rewrite !(assoc_L (∪)). f_equal. apply map_union_comm.
  apply map_disjoint_spec. intros k a b Ha Hb. rewrite H in Ha; [done|by eexists].
Qed.

Lemma write_columns_empty_Some name val keys k :
  is_Some (write_columns name val keys (∅ : object) !! k) -> k ∈ name <$> keys.
Proof.
  intros [v Hv]. destruct (write_columns_cases name val keys (∅ : object) k) as [[_ H]|(c & Hc & <- & _)].
  - rewrite H, lookup_empty in Hv. done.
  - apply list_elem_of_fmap. by exists c.
Qed.

Lemma moving_average_columns_apart a b c :
  toString a <> toString b -> c ∈ VALUE_CELLS ->
  moving_average_column a c ∉ moving_average_column b <$> VALUE_CELLS.
Proof.
  intros Hab Hc Hin. apply list_elem_of_fmap in Hin as (c' & Heq & Hc').
  apply VALUE_CELLS_cases in Hc, Hc'. unfold moving_average_column in Heq.
  destruct Hc as [-> | [-> | [-> | ->]]]; destruct Hc' as [-> | [-> | [-> | ->]]];
    simpl in Heq; try discriminate Heq; injection Heq as Heq;
    exact (Hab (string_app_inj_r (toString a) (toString b) " days" Heq)).
Qed.

(** The cells of different stages lie apart. *)
Lemma volume_price_apart d i r x1 x2 (row : object) :
  volume_writes d i r = Ok x1 -> price_writes d i r = Ok x2 ->
  x2 ∪ (x1 ∪ row) = x1 ∪ (x2 ∪ row).
Proof.
  intros H1 H2. apply union_apart. intros k Hk.
  unfold volume_writes in H1. apply bind_Ok_inv in H1 as (c & _ & H1). injection H1 as <-.
  unfold price_writes in H2. apply bind_Ok_inv in H2 as (cs & _ & H2). injection H2 as <-.
  destruct Hk as [v Hv]. apply lookup_singleton_Some in Hv as [<- _].
  apply write_columns_empty_None, volume_column_not_price.
Qed.

Lemma volume_moving_average_apart m d i r x1 x2 (row : object) :
  volume_writes d i r = Ok x1 -> moving_average_writes m d i r = Ok x2 ->
  x2 ∪ (x1 ∪ row) = x1 ∪ (x2 ∪ row).
Proof.
  intros H1 H2. apply union_apart. intros k Hk.
  unfold volume_writes in H1. apply bind_Ok_inv in H1 as (c & _ & H1). injection H1 as <-.
  unfold moving_average_writes in H2. injection H2 as <-.
  destruct Hk as [v Hv]. apply lookup_singleton_Some in Hv as [<- _].
  apply write_columns_empty_None, volume_column_not_moving_average.
Qed.

Lemma price_moving_average_apart m d i r x1 x2 (row : object) :
  price_writes d i r = Ok x1 -> moving_average_writes m d i r = Ok x2 ->
  x2 ∪ (x1 ∪ row) = x1 ∪ (x2 ∪ row).
Proof.
  intros H1 H2. apply union_apart. intros k Hk.
  unfold price_writes in H1. apply bind_Ok_inv in H1 as (cs & _ & H1). injection H1 as <-.
  unfold moving_average_writes in H2. injection H2 as <-.
  apply write_columns_empty_Some, list_elem_of_fmap in Hk as (c & -> & Hc).
  by apply write_columns_empty_None, price_column_not_moving_average.
Qed.

Lemma moving_averages_apart a b d i r x1 x2 (row : object) :
  toString a <> toString b ->
  moving_average_writes a d i r = Ok x1 -> moving_average_writes b d i r = Ok x2 ->
  x2 ∪ (x1 ∪ row) = x1 ∪ (x2 ∪ row).
Proof.
  intros Hab H1 H2. apply union_apart. intros k Hk.
  unfold moving_average_writes in H1, H2. injection H1 as <-. injection H2 as <-.
  apply write_columns_empty_Some, list_elem_of_fmap in Hk as (c & -> & Hc).
  by apply write_columns_empty_None, moving_average_columns_apart.
Qed.

Lemma bind_ext {A B : Type} (m : result A) (f g : A -> result B) :
  (forall a, f a = g a) -> m ≫= f = m ≫= g.
Proof. intros H. destruct m; simpl; [apply H|done|done]. Qed.

(** X1. The two percentage-change stages give the same result in either
    order, and so does each of them with a moving-average stage: the same
    records, or the same failure. *)
Theorem stages_commute (data : list object) :
  percentagesChangeInVolume data ≫= percentagesChangeInPrices =
    percentagesChangeInPrices data ≫= percentagesChangeInVolume /\
  (forall multiplier,
     percentagesChangeInVolume data ≫= movingAverage multiplier =
       movingAverage multiplier data ≫= percentagesChangeInVolume) /\
  (forall multiplier,
     percentagesChangeInPrices data ≫= movingAverage multiplier =
       movingAverage multiplier data ≫= percentagesChangeInPrices).
Proof.
  split; [|split; intros multiplier].
  - rewrite percentagesChangeInVolume_written, percentagesChangeInPrices_written.
    rewrite (bind_ext _ _ _ percentagesChangeInPrices_written).
    rewrite (bind_ext _ _ _ percentagesChangeInVolume_written).
    apply written_commute;
      [apply volume_writes_sources|apply price_writes_sources|apply volume_price_apart].
  - rewrite percentagesChangeInVolume_written, movingAverage_written.
    rewrite (bind_ext _ _ _ (movingAverage_written multiplier)).
    rewrite (bind_ext _ _ _ percentagesChangeInVolume_written).
    apply written_commute;
      [apply volume_writes_sources|apply moving_average_writes_sources|
       apply volume_moving_average_apart].
  - rewrite percentagesChangeInPrices_written, movingAverage_written.
    rewrite (bind_ext _ _ _ (movingAverage_written multiplier)).
    rewrite (bind_ext _ _ _ percentagesChangeInPrices_written).
    apply written_commute;
      [apply price_writes_sources|apply moving_average_writes_sources|
       apply price_moving_average_apart].
Qed.

(** X2. Two moving-average stages whose window lengths are written
    differently give, in either order, records with the same cells under the
    same names. The order in which a record lists its columns, which a map
    does not record, is not part of the statement: the stage that runs first
    adds its columns first. *)
Theorem movingAverages_commute (a b : float) (data : list object) :
  toString a <> toString b ->
  movingAverage a data ≫= movingAverage b = movingAverage b data ≫= movingAverage a.
Proof.
  intros Hab. rewrite !movingAverage_written.
  rewrite (bind_ext _ _ _ (movingAverage_written b)).
  rewrite (bind_ext _ _ _ (movingAverage_written a)).
  apply written_commute; [apply moving_average_writes_sources ..|].
  intros d i r x1 x2 row. by apply moving_averages_apart.
Qed.

(** The windows 5 and 50 on the prices 10 .. 50. *)
Lemma movingAverages_commute_5_50 :
  movingAverage 5 prices_10_to_50 ≫= movingAverage 50 =
    movingAverage 50 prices_10_to_50 ≫= movingAverage 5.
Proof.
  apply (movingAverages_commute 5 50 prices_10_to_50). vm_compute. discriminate.
Defined.

(** X3. Each stage run on its own result gives that result again. *)
Theorem stages_idempotent :
  (forall data out, percentagesChangeInVolume data = Ok out ->
     percentagesChangeInVolume out = Ok out) /\
  (forall data out, percentagesChangeInPrices data = Ok out ->
     percentagesChangeInPrices out = Ok out) /\
  (forall multiplier data out, movingAverage multiplier data = Ok out ->
     movingAverage multiplier out = Ok out).
Proof.
  split; [|split].
  - intros data out. rewrite !percentagesChangeInVolume_written.
    apply written_idempotent, volume_writes_sources.
  - intros data out. rewrite !percentagesChangeInPrices_written.
    apply written_idempotent, price_writes_sources.
  - intros multiplier data out. rewrite !movingAverage_written.
    apply written_idempotent, moving_average_writes_sources.
Qed.

(** The volume stage on the volumes 100, "-", 150, twice. *)
Lemma stages_idempotent_100_dash_150 :
  exists out, percentagesChangeInVolume volumes_100_dash_150 = Ok out /\
    percentagesChangeInVolume out = Ok out.
Proof.
  destruct (percentagesChangeInVolume_total volumes_100_dash_150 eq_refl) as [out Hout].
  exists out. split; [exact Hout|].
  exact (proj1 stages_idempotent volumes_100_dash_150 out Hout).
Defined.

(** A failed indexed map has a row that failed, and a row that fails makes
    the map fail unless [process.exit] came first. *)
Lemma mapR_indexed_TypeError g l : forall i,
  (forall j r c, g j r <> Exit c) ->
  mapR_indexed g i l = TypeError <-> exists j r, l !! j = Some r /\ g (i + j)%nat r = TypeError.
Proof.
  induction l as [|r l IH]; intros i Hg; simpl.
  - split; [done|]. intros (j & r & Hj & _). by rewrite lookup_nil in Hj.
  - destruct (g i r) as [r'| |c] eqn:Hr; simpl.
    + destruct (mapR_indexed g (S i) l) as [rest| |c] eqn:Hrest; simpl.
      * split; [done|]. intros ([|j] & r0 & Hj & Hf); simpl in Hj.
        -- injection Hj as <-. rewrite Nat.add_0_r in Hf. congruence.
        -- assert (H : mapR_indexed g (S i) l = TypeError); [|congruence].
           apply IH; [done|]. exists j, r0. split; [done|].
           by replace (S i + j)%nat with (i + S j)%nat by lia.
      * split; [|done]. intros _. apply (IH (S i) Hg) in Hrest as (j & r0 & Hj & Hf).
        exists (S j), r0. split; [done|]. by replace (i + S j)%nat with (S i + j)%nat by lia.
      * by destruct (mapR_indexed_no_Exit g l (S i) c Hg).
    + split; [|done]. intros _. exists 0%nat, r. split; [done|]. by rewrite Nat.add_0_r.
    + by destruct (Hg i r c).
Qed.

Lemma is_string_strict_neq v s : is_string v = false -> strict_neq v s = true.
Proof. by destruct v as [[]|]. Qed.

(** When the changes fail: the guard holds and one of the two cells is not a
    string. *)
Lemma volume_change_TypeError data i row :
  volume_change data i row = TypeError <->
  (1 <= i)%nat /\
  strict_neq (row !! "Volume") NOT_APPLICABLE = true /\
  strict_neq (element_prop data (Z.of_nat i - 1) "Volume") NOT_APPLICABLE = true /\
  (is_string (element_prop data (Z.of_nat i - 1) "Volume") = false \/
   is_string (row !! "Volume") = false).
Proof.
  unfold volume_change.
  destruct (Z.of_nat i - 1 >=? 0) eqn:Hi; simpl.
  - assert (1 <= i)%nat by lia.
    destruct (strict_neq (row !! "Volume") NOT_APPLICABLE); simpl; [|by intuition].
    destruct (strict_neq (element_prop data (Z.of_nat i - 1) "Volume") NOT_APPLICABLE); simpl;
      [|by intuition].
    destruct (element_prop data (Z.of_nat i - 1) "Volume") as [[]|];
      destruct (row !! "Volume") as [[]|]; simpl; intuition; try done.
  - split; [done|]. intros [? _]. lia.
Qed.

Lemma price_change_TypeError data i row key :
  price_change data i row key = TypeError <->
  (2 <= i)%nat /\
  strict_neq (row !! key) NOT_APPLICABLE = true /\
  strict_neq (element_prop data (Z.of_nat i - 1) key) NOT_APPLICABLE = true /\
  (is_string (element_prop data (Z.of_nat i - 1) key) = false \/
   is_string (row !! key) = false).
Proof.
  unfold price_change.
  destruct (Z.of_nat i - 1 >? 0) eqn:Hi; simpl.
  - assert (2 <= i)%nat by lia.
    destruct (strict_neq (row !! key) NOT_APPLICABLE); simpl; [|by intuition].
    destruct (strict_neq (element_prop data (Z.of_nat i - 1) key) NOT_APPLICABLE); simpl;
      [|by intuition].
    destruct (element_prop data (Z.of_nat i - 1) key) as [[]|];
      destruct (row !! key) as [[]|]; simpl; intuition; try done.
  - split; [done|]. intros [? _]. lia.
Qed.

Lemma mapR_TypeError {A B : Type} (f : A -> result B) (l : list A) :
  (forall a c, f a <> Exit c) ->
  mapR f l = TypeError <-> exists a, a ∈ l /\ f a = TypeError.
Proof.
  intros Hf. induction l as [|a l IH]; simpl.
  - split; [done|]. intros (a & Ha & _). by apply elem_of_nil in Ha.
  - destruct (f a) as [b| |c] eqn:Ha; simpl.
    + destruct (mapR f l) as [bs| |c] eqn:Hl; simpl.
      * split; [done|]. intros (a' & Ha' & Hf'). apply elem_of_cons in Ha' as [->|Ha'];
          [congruence|]. assert (@TypeError (list B) = TypeError) by done.
        assert (H' : Ok bs = @TypeError (list B)); [|done].
        apply IH. by exists a'.
      * split; [|done]. intros _. destruct (proj1 IH eq_refl) as (a' & Ha' & Hf').
        exists a'. split; [by right|done].
      * by destruct (mapR_no_Exit f l c Hf).
    + split; [|done]. intros _. exists a. split; [by left|done].
    + by destruct (Hf a c).
Qed.

Lemma written_TypeError w data :
  reads_sources w ->
  written w data = TypeError <-> exists i row, data !! i = Some row /\ w data i row = TypeError.
Proof.
  intros Hw. unfold written. rewrite mapR_indexed_TypeError.
  - split; intros (i & row & Hi & H); exists i, row; (split; [done|]); simpl in *.
    + by destruct (w data i row).
    + by rewrite H.
  - intros j r c. destruct (w data j r) as [x| |c'] eqn:Hx; simpl; [done|done|].
    by destruct (never_exits w Hw data j r c').
Qed.

Lemma written_Ok_or_TypeError w data :
  reads_sources w -> written w data <> TypeError -> exists out, written w data = Ok out.
Proof.
  intros Hw H. destruct (written w data) as [out| |c] eqn:Hout; [by exists out|done|].
  by destruct (written_no_Exit w Hw data c).
Qed.

(** X4. The volume stage fails, with a [TypeError], exactly when two rows
    that follow each other have a [Volume] that is not a string in one of
    them and the sentinel in neither; in every other case it returns the
    records. A single row, or no row, never fails. *)
Theorem percentagesChangeInVolume_fails (data : list object) :
  (percentagesChangeInVolume data = TypeError <->
   exists i prev row, data !! i = Some prev /\ data !! S i = Some row /\
     prev !! "Volume" <> Some (VStr NOT_APPLICABLE) /\
     row !! "Volume" <> Some (VStr NOT_APPLICABLE) /\
     (is_string (prev !! "Volume") = false \/ is_string (row !! "Volume") = false)) /\
  (percentagesChangeInVolume data <> TypeError ->
   exists out, percentagesChangeInVolume data = Ok out).
Proof.
  rewrite percentagesChangeInVolume_written. split.
  - rewrite (written_TypeError _ _ volume_writes_sources). split.
    + intros (i & row & Hi & H). unfold volume_writes in H.
      destruct (volume_change data i row) as [v| |c] eqn:Hv; simpl in H; [done| |done].
      apply volume_change_TypeError in Hv as (Hge & Hrow & Hprev & Hstr).
      destruct (lookup_lt_is_Some_2 data (i - 1)) as [prev Hp].
      { apply lookup_lt_Some in Hi. lia. }
      rewrite (element_prop_pred data i prev) in Hprev, Hstr by done.
      exists (i - 1)%nat, prev, row. replace (S (i - 1)) with i by lia.
      split; [done|]. split; [done|].
      split; [intros Heq; by rewrite Heq in Hprev|].
      split; [intros Heq; by rewrite Heq in Hrow|done].
    + intros (i & prev & row & Hp & Hi & Hprev & Hrow & Hstr).
      exists (S i), row. split; [done|]. unfold volume_writes.
      assert (Hv : volume_change data (S i) row = TypeError); [|by rewrite Hv].
      apply volume_change_TypeError.
      rewrite (element_prop_pred data (S i) prev) by (lia || by rewrite Nat.sub_1_r).
      split; [lia|].
      split; [destruct (row !! "Volume") as [[s|]|]; try done; simpl;
              destruct (String.eqb_spec s NOT_APPLICABLE); [by subst|done]|].
      split; [destruct (prev !! "Volume") as [[s|]|]; try done; simpl;
              destruct (String.eqb_spec s NOT_APPLICABLE); [by subst|done]|done].
  - apply written_Ok_or_TypeError, volume_writes_sources.
Qed.

(** Without a column [Volume], rows 0 and 1 make the stage fail. *)
Lemma percentagesChangeInVolume_fails_without_volume :
  percentagesChangeInVolume rows_without_volume = TypeError.
Proof.
  apply (proj1 (percentagesChangeInVolume_fails rows_without_volume)).
  eexists 0%nat, _, _. split; [reflexivity|]. split; [reflexivity|].
  split; [discriminate|]. split; [discriminate|]. by left.
Defined.

(** X5. The price stage fails, with a [TypeError], exactly when two rows that
    follow each other, the first of them not row 0, have a price field that is
    not a string in one of them and the sentinel in neither; in every other
    case it returns the records. What row 0 holds in its price fields is never
    read. *)
Theorem percentagesChangeInPrices_fails (data : list object) :
  (percentagesChangeInPrices data = TypeError <->
   exists i prev row key, (1 <= i)%nat /\ key ∈ VALUE_CELLS /\
     data !! i = Some prev /\ data !! S i = Some row /\
     prev !! key <> Some (VStr NOT_APPLICABLE) /\
     row !! key <> Some (VStr NOT_APPLICABLE) /\
     (is_string (prev !! key) = false \/ is_string (row !! key) = false)) /\
  (percentagesChangeInPrices data <> TypeError ->
   exists out, percentagesChangeInPrices data = Ok out).
Proof.
  rewrite percentagesChangeInPrices_written. split.
  - rewrite (written_TypeError _ _ price_writes_sources). split.
    + intros (i & row & Hi & H). unfold price_writes in H.
      destruct (mapR (price_change data i row) VALUE_CELLS) as [v| |c] eqn:Hv;
        simpl in H; [done| |done].
      apply mapR_TypeError in Hv as (key & Hkey & Hv);
        [|intros; apply price_change_no_Exit].
      apply price_change_TypeError in Hv as (Hge & Hrow & Hprev & Hstr).
      destruct (lookup_lt_is_Some_2 data (i - 1)) as [prev Hp].
      { apply lookup_lt_Some in Hi. lia. }
      rewrite (element_prop_pred data i prev) in Hprev, Hstr by (lia || done).
      exists (i - 1)%nat, prev, row, key. replace (S (i - 1)) with i by lia.
      split; [lia|]. split; [done|]. split; [done|]. split; [done|].
      split; [intros Heq; by rewrite Heq in Hprev|].
      split; [intros Heq; by rewrite Heq in Hrow|done].
    + intros (i & prev & row & key & Hge & Hkey & Hp & Hi & Hprev & Hrow & Hstr).
      exists (S i), row. split; [done|]. unfold price_writes.
      assert (Hv : mapR (price_change data (S i) row) VALUE_CELLS = TypeError);
        [|by rewrite Hv].
      apply mapR_TypeError; [intros; apply price_change_no_Exit|].
      exists key. split; [done|]. apply price_change_TypeError.
      rewrite (element_prop_pred data (S i) prev) by (lia || by rewrite Nat.sub_1_r).
      split; [lia|].
      split; [destruct (row !! key) as [[s|]|]; try done; simpl;
              destruct (String.eqb_spec s NOT_APPLICABLE); [by subst|done]|].
      split; [destruct (prev !! key) as [[s|]|]; try done; simpl;
              destruct (String.eqb_spec s NOT_APPLICABLE); [by subst|done]|done].
  - apply written_Ok_or_TypeError, price_writes_sources.
Qed.

(** Without a column [Open], rows 1 and 2 make the stage fail. *)
Lemma percentagesChangeInPrices_fails_without_open :
  percentagesChangeInPrices rows_without_volume = TypeError.
Proof.
  apply (proj1 (percentagesChangeInPrices_fails rows_without_volume)).
  eexists 1%nat, _, _, "Open". split; [lia|]. split; [by left|].
  split; [reflexivity|]. split; [reflexivity|].
  split; [discriminate|]. split; [discriminate|]. by left.
Defined.

(** X6. The chronological sort returns the records it was given, each as
    often as it came; when the date of every record is readable, they come
    back in ascending order of date, and sorting them once more changes
    nothing. *)
Theorem sortDataByDate_sorts (Date_parse : string -> float) (dateKey : string)
  (data : list object) :
  sortDataByDate Date_parse dateKey data ≡ₚ data /\
  ((forall row, row ∈ data -> is_nan (date_of Date_parse dateKey row) = false) ->
   ascending (date_of Date_parse dateKey) (sortDataByDate Date_parse dateKey data) = true /\
   sortDataByDate Date_parse dateKey (sortDataByDate Date_parse dateKey data) =
     sortDataByDate Date_parse dateKey data).
Proof.
  split; [apply sortDataByDate_Permutation|].
  intros Hdata. apply Forall_forall in Hdata.
  pose proof (sortDataByDate_sorted _ _ _ Hdata) as Hsorted.
  split; [done|]. by apply sortDataByDate_ascending.
Qed.

(** The days 3, 1, 2 come back as the days 1, 2, 3. *)
Lemma sortDataByDate_sorts_days_3_1_2 :
  ascending (date_of Date_parse_iso DATE_CELL)
    (sortDataByDate Date_parse_iso DATE_CELL
       (rowsToObjects (drop 1 csv_days_3_1_2) example_header)) = true /\
  sortDataByDate Date_parse_iso DATE_CELL
    (sortDataByDate Date_parse_iso DATE_CELL
       (rowsToObjects (drop 1 csv_days_3_1_2) example_header)) =
    sortDataByDate Date_parse_iso DATE_CELL
      (rowsToObjects (drop 1 csv_days_3_1_2) example_header).
Proof.
  apply (proj2 (sortDataByDate_sorts Date_parse_iso DATE_CELL
                  (rowsToObjects (drop 1 csv_days_3_1_2) example_header))).
  intros row Hrow. simpl in Hrow.
  repeat (apply elem_of_cons in Hrow as [->|Hrow]; [reflexivity|]).
  by apply elem_of_nil in Hrow.
Defined.

(** X7. When the dates of the rows are readable and all different, the
    result of the pipeline does not depend on the order of the rows in the
    file. *)
Theorem main_row_order (Date_parse : string -> float) (avgsString : option string)
  (headers : list string) (rows1 rows2 : list (list string)) :
  rows1 ≡ₚ rows2 ->
  (forall row, row ∈ rowsToObjects rows1 headers ->
     is_nan (date_of Date_parse DATE_CELL row) = false) ->
  (forall i j r r',
     rowsToObjects rows1 headers !! i = Some r -> rowsToObjects rows1 headers !! j = Some r' ->
     i <> j -> (date_of Date_parse DATE_CELL r =? date_of Date_parse DATE_CELL r')%float = false) ->
  main Date_parse avgsString (headers :: rows1) = main Date_parse avgsString (headers :: rows2).
Proof.
  intros Hp Hnan Hdiff. rewrite !main_unfold. simpl drop. simpl lookup. simpl default. f_equal.
  apply sortDataByDate_order; [|by apply Forall_forall|done].
  unfold rowsToObjects. by apply Permutation_map.
Qed.

(** The days 3, 1, 2 and the days 1, 2, 3 give the same. *)
Lemma main_row_order_days :
  main Date_parse_iso None csv_days_3_1_2 = main Date_parse_iso None csv_days_1_2_3.
Proof.
  apply (main_row_order Date_parse_iso None example_header
           (drop 1 csv_days_3_1_2) (drop 1 csv_days_1_2_3)).
  - simpl. rewrite (Permutation_swap _ _ _). apply perm_skip, perm_swap.
  - intros row Hrow. simpl in Hrow.
    repeat (apply elem_of_cons in Hrow as [->|Hrow]; [reflexivity|]).
    by apply elem_of_nil in Hrow.
  - intros [|[|[|i]]] [|[|[|j]]] r r' Hi Hj Hne; try done;
      simpl in Hi, Hj; injection Hi as <-; injection Hj as <-; reflexivity.
Defined.

(** X8. When no record has a readable date, as in a file without a [Date]
    column, the sort leaves the records in the order they came in. *)
Theorem sortDataByDate_without_dates (Date_parse : string -> float) (dateKey : string)
  (data : list object) :
  (forall row, row ∈ data -> is_nan (date_of Date_parse dateKey row) = true) ->
  sortDataByDate Date_parse dateKey data = data.
Proof.
  intros Hdata. apply sortDataByDate_unreadable. by apply Forall_forall.
Qed.

(** Closing prices with no date stay as they are. *)
Lemma sortDataByDate_without_dates_closes :
  sortDataByDate Date_parse_iso DATE_CELL rows_of_closes = rows_of_closes.
Proof.
  apply (sortDataByDate_without_dates Date_parse_iso DATE_CELL rows_of_closes).
  intros row Hrow. unfold rows_of_closes in Hrow. simpl in Hrow.
  repeat (apply elem_of_cons in Hrow as [->|Hrow]; [reflexivity|]).
  by apply elem_of_nil in Hrow.
Defined.

Lemma same_outside_trans written (a b c : object) :
  same_outside written a b -> same_outside written b c -> same_outside written a c.
Proof. intros Hab Hbc k Hk. by rewrite Hbc, Hab. Qed.

Lemma Forall2_same_outside_trans written (a b c : list object) :
  Forall2 (same_outside written) a b -> Forall2 (same_outside written) b c ->
  Forall2 (same_outside written) a c.
Proof.
  intros Hab. revert c. induction Hab as [|x y a b Hxy Hab IH]; intros c Hbc.
  - by apply Forall2_nil_inv_l in Hbc as ->.
  - apply Forall2_cons_inv_l in Hbc as (z & c' & Hyz & Hbc & ->).
    constructor; [by eapply same_outside_trans|by apply IH].
Qed.

(** Stages that keep the cells outside [written], piped. *)
Lemma pipe_same_outside written (stages : list (list object -> result (list object))) :
  (forall f, f ∈ stages -> forall d o, f d = Ok o -> Forall2 (same_outside written) d o) ->
  forall d o, pipe stages d = Ok o -> Forall2 (same_outside written) d o.
Proof.
  induction stages as [|f stages IH]; intros Hstages d o H.
  - injection H as <-. apply Forall2_same_length_lookup. split; [done|].
    intros i x y Hx Hy. rewrite Hx in Hy. injection Hy as <-. by intros k _.
  - rewrite pipe_cons in H. apply bind_Ok_inv in H as (o1 & H1 & H).
    apply Forall2_same_outside_trans with o1.
    + apply (Hstages f); [by left|done].
    + apply IH; [|done]. intros g Hg. apply Hstages. by right.
Qed.

Lemma writes_same_outside name keys Q (written : string -> Prop) (d o : list object) :
  (forall c, c ∈ keys -> written (name c)) ->
  Forall2 (writes name keys Q) d o -> Forall2 (same_outside written) d o.
Proof.
  intros Hw H. eapply Forall2_impl; [exact H|].
  intros row row' Hrow k Hk. eapply writes_other; [exact Hrow|].
  intros Hin. apply list_elem_of_fmap in Hin as (c & -> & Hc). by apply Hk, Hw.
Qed.

Lemma slice_same {A : Type} (l : list A) (a : float) : slice l a a = [].
Proof. unfold slice. by rewrite Z.sub_diag. Qed.

Lemma moving_average_cell_zero (data : list object) i cell :
  Z.of_nat (length data) < 2 ^ 53 -> (i < length data)%nat ->
  moving_average_cell 0 data i cell = VStr "NaN".
Proof.
  intros Hlen Hi. unfold moving_average_cell, window_sum.
  assert (Hguard : (number_of_nat i <? 0 - 1)%float = false).
  { rewrite FloatAxioms.ltb_spec, Prim2SF_number_of_nat by lia.
    change (Prim2SF (0 - 1)) with (S754_finite true 4503599627370496 (-52)).
    destruct (Z.of_nat i) as [|p|p] eqn:Hp; [done|done|lia]. }
  rewrite Hguard, number_of_nat_add_1 by lia.
  change 0%float with (number_of_nat 0) at 1. rewrite number_of_nat_sub by lia.
  rewrite Nat.sub_0_r, slice_same. reflexivity.
Qed.

Lemma main_total Date_parse avgsString lengths (csv : list (list string)) :
  formatInputtedMovingAverages avgsString = Ok lengths ->
  columns_are_strings ("Volume" :: VALUE_CELLS)
    (rowsToObjects (drop 1 csv) (default [] (csv !! 0%nat))) = true ->
  exists out, main Date_parse avgsString csv = Ok out.
Proof.
  intros Hlengths Hstrings. rewrite main_unfold.
  destruct (prepareData_enriches avgsString lengths
              (sortDataByDate Date_parse DATE_CELL
                 (rowsToObjects (drop 1 csv) (default [] (csv !! 0%nat)))))
    as (out & Hout & _); [done| |by exists out].
  rewrite sortDataByDate_Permutation. by apply columns_are_strings_Forall.
Qed.

(** X9. [rowsToObjects] on any header, also one that names a column twice: a
    record holds under a name other than [__proto__] the cell of the last
    position of the row that bears the name (a position past the header bears
    the name [undefined]), nothing under a name that no position of the row
    bears, and nothing under the name [__proto__], whatever the header. *)
Theorem rowsToObjects_cells (rows : list (list string)) (headers : list string)
  (i : nat) (row : list string) :
  rows !! i = Some row ->
  exists record, rowsToObjects rows headers !! i = Some record /\
    (forall k j, k <> "__proto__" ->
       (j < length row)%nat -> property_key (headers !! j) = k ->
       (forall j', (j < j' < length row)%nat -> property_key (headers !! j') <> k) ->
       record !! k = VStr <$> row !! j) /\
    (forall k, (forall j, (j < length row)%nat -> property_key (headers !! j) <> k) ->
       record !! k = None) /\
    record !! "__proto__" = None.
Proof.
  intros Hi. unfold rowsToObjects. rewrite list_lookup_fmap, Hi. simpl.
  eexists. split; [done|]. split; [|split; [|by rewrite reduce_indexed_proto]].
  - intros k j Hproto Hj Hk Hlast.
    rewrite (reduce_indexed_lookup headers k row 0 j);
      [by rewrite Nat.sub_0_r|done|lia|done|].
    intros j' Hj'. apply Hlast. lia.
  - intros k Hk. rewrite reduce_indexed_other; [done|]. intros j Hj. apply Hk. lia.
Qed.

(** With two columns [Close], the record holds the cell of the second. *)
Lemma rowsToObjects_cells_two_closes :
  exists record,
    rowsToObjects (drop 1 csv_with_two_closes) ["Date"; "Close"; "Close"] !! 0%nat =
      Some record /\
    record !! "Close" = Some (VStr "11") /\ record !! "Volume" = None.
Proof.
  destruct (rowsToObjects_cells (drop 1 csv_with_two_closes) ["Date"; "Close"; "Close"]
              0%nat _ eq_refl) as (record & Hrecord & Hcells & Habsent & _).
  exists record. split; [exact Hrecord|]. split.
  - apply (Hcells "Close" 2%nat); [discriminate|simpl; lia|reflexivity|].
    intros j' Hj'. simpl in Hj'. lia.
  - apply Habsent. intros [|[|[|j]]] Hj; simpl in Hj; try lia; discriminate.
Defined.

(** X10. The window length 0, which the configuration accepts: every
    moving-average cell of every row is the text [NaN]. *)
Theorem movingAverage_zero (data : list object) :
  Z.of_nat (length data) < 2 ^ 53 ->
  exists out, movingAverage 0 data = Ok out /\ length out = length data /\
    forall i row' cell, out !! i = Some row' -> cell ∈ VALUE_CELLS ->
      row' !! (cell +:+ " Moving Average - 0 days") = Some (VStr "NaN").
Proof.
  intros Hlen. destruct (movingAverage_Ok 0 data) as (out & Hout & Hlen' & Hrows).
  exists out. split; [done|]. split; [done|]. intros i row' cell Hi Hcell.
  destruct (lookup_lt_is_Some_2 data i) as [row Hrow].
  { rewrite <- Hlen'. by eapply lookup_lt_Some. }
  destruct (Hrows i row Hrow) as (row'' & Hrow'' & _ & Hcolumns).
  rewrite Hrow'' in Hi. injection Hi as <-.
  change (cell +:+ " Moving Average - 0 days") with (moving_average_column 0 cell).
  rewrite (Hcolumns cell Hcell). f_equal.
  apply moving_average_cell_zero; [done|by eapply lookup_lt_Some].
Qed.

(** On the prices 10 .. 50. *)
Lemma movingAverage_zero_10_to_50 :
  exists out, movingAverage 0 prices_10_to_50 = Ok out /\ length out = 5%nat /\
    forall i row' cell, out !! i = Some row' -> cell ∈ VALUE_CELLS ->
      row' !! (cell +:+ " Moving Average - 0 days") = Some (VStr "NaN").
Proof.
  apply (movingAverage_zero prices_10_to_50). reflexivity.
Defined.

(** X11. Whenever the pipeline returns, its records are the records of the
    file in the order of the sort, each with every cell it had outside the
    derived columns. *)
Theorem main_keeps_cells (Date_parse : string -> float) (avgsString : option string)
  (csv : list (list string)) (out : list object) :
  main Date_parse avgsString csv = Ok out ->
  exists lengths, formatInputtedMovingAverages avgsString = Ok lengths /\
    Forall2 (same_outside (derived_column (default DEFAULT_MOVING_AVERAGES lengths)))
      (sortDataByDate Date_parse DATE_CELL
         (rowsToObjects (drop 1 csv) (default [] (csv !! 0%nat))))
      out.
Proof.
  rewrite main_unfold. unfold prepareData, movingAverages. intros H.
  apply bind_Ok_inv in H as (stages & Hstages & H).
  apply bind_Ok_inv in Hstages as (lengths & Hlengths & Hstages). injection Hstages as <-.
  exists lengths. split; [done|]. revert H. apply pipe_same_outside.
  intros f Hf d o Hfd.
  apply elem_of_cons in Hf as [Hf|Hf]; [subst f|apply elem_of_cons in Hf as [Hf|Hf]; [subst f|]].
  - apply (writes_same_outside (fun _ => volume_column) [EmptyString] is_change);
      [intros; by left|by apply percentagesChangeInVolume_writes].
  - apply (writes_same_outside price_column VALUE_CELLS is_change);
      [|by apply percentagesChangeInPrices_writes].
    intros c Hc. right. left. apply list_elem_of_fmap. by exists c.
  - apply list_elem_of_fmap in Hf as (len & -> & Hlen).
    destruct (movingAverage_writes len d) as (o' & Ho' & Hw).
    rewrite Ho' in Hfd. injection Hfd as <-.
    apply (writes_same_outside (moving_average_column len) VALUE_CELLS is_average); [|exact Hw].
    intros c Hc. right. right. exists len. split; [done|]. apply list_elem_of_fmap. by exists c.
Qed.

(** On the days 3, 1, 2 the dates come back in order. *)
Lemma main_keeps_cells_days :
  exists out, main Date_parse_iso None csv_days_3_1_2 = Ok out /\
    (fun row : object => row !! "Date") <$> out =
      [Some (VStr "2020-01-01"); Some (VStr "2020-01-02"); Some (VStr "2020-01-03")].
Proof.
  destruct (main_total Date_parse_iso None None csv_days_3_1_2 eq_refl eq_refl) as [out Hout].
  exists out. split; [exact Hout|].
  destruct (main_keeps_cells Date_parse_iso None csv_days_3_1_2 out Hout)
    as (lengths & _ & Hsame).
  assert (Hdate : forall row row' : object,
            same_outside (derived_column (default DEFAULT_MOVING_AVERAGES lengths)) row row' ->
            row' !! "Date" = row !! "Date").
  { intros row row' H. apply H. intros [H'|[H'|(len & _ & H')]]; [done| |].
    - apply list_elem_of_fmap in H' as (c & Hc & Hin). apply VALUE_CELLS_cases in Hin.
      destruct Hin as [-> | [-> | [-> | ->]]]; discriminate Hc.
    - apply list_elem_of_fmap in H' as (c & Hc & Hin). apply VALUE_CELLS_cases in Hin.
      unfold moving_average_column in Hc.
      destruct Hin as [-> | [-> | [-> | ->]]]; discriminate Hc. }
  transitivity ((fun row : object => row !! "Date") <$>
                  sortDataByDate Date_parse_iso DATE_CELL
                    (rowsToObjects (drop 1 csv_days_3_1_2) example_header)); [|reflexivity].
  symmetry. clear Hout. revert Hsame. simpl drop. simpl lookup. simpl default.
  generalize (sortDataByDate Date_parse_iso DATE_CELL
                (rowsToObjects (drop 1 csv_days_3_1_2) example_header)).
  intros sorted Hsame. induction Hsame as [|row row' l l' Hrow Hl IH]; [done|].
  rewrite !fmap_cons, IH. f_equal. symmetry. by apply Hdate.
Defined.

(** X12. Without [--moving-averages], and with an empty one, the pipeline
    does what it does with [5,50,100,200]. *)
Theorem main_default_moving_averages (Date_parse : string -> float) (csv : list (list string)) :
  main Date_parse None csv = main Date_parse (Some "5,50,100,200") csv /\
  main Date_parse (Some "") csv = main Date_parse (Some "5,50,100,200") csv.
Proof.
  rewrite !main_unfold. unfold prepareData, movingAverages.
  assert (H : formatInputtedMovingAverages (Some "5,50,100,200") =
              Ok (Some DEFAULT_MOVING_AVERAGES)) by reflexivity.
  rewrite H. by split.
Qed.

(** X13. [pipe] of a list of stages followed by another is the first list,
    then, if that returns, the second on its result: a failure ends the
    pipe. *)
Theorem pipe_composes {A : Type} (fns gns : list (A -> result A)) (x : A) :
  pipe (fns ++ gns)%list x = pipe fns x ≫= pipe gns /\
  (forall f, pipe (f :: gns) x = f x ≫= pipe gns) /\
  pipe [] x = Ok x.
Proof. split; [apply pipe_app|]. split; [intros f; apply pipe_cons|done]. Qed.

(** *** Searching with the patterns of the program *)

Lemma RegExp_exec_unfold r b s :
  RegExp_exec r b s =
    match matches r b s with
    | m :: _ => Some (EmptyString, snd m)
    | [] =>
        match s with
        | String a s' =>
            match RegExp_exec r false s' with
            | Some (before, rest) => Some (String a before, rest)
            | None => None
            end
        | EmptyString => None
        end
    end.
Proof. by destruct s. Qed.

Lemma RegExp_exec_found r b s :
  match RegExp_exec r b s with
  | Some _ => true
  | None => false
  end =
  match matches r b s with
  | _ :: _ => true
  | [] =>
      match s with
      | String _ s' => match RegExp_exec r false s' with Some _ => true | None => false end
      | EmptyString => false
      end
  end.
Proof.
  destruct s as [|a s]; simpl; destruct (matches r b _); try done.
  by destruct (RegExp_exec r false s) as [[]|].
Qed.

(** A text followed by the end matches the string that is that text, and
    leaves nothing. *)
Lemma matches_literal t : forall b s,
  (s = t -> exists b', matches (RLiteral t REol) b s = [(b', EmptyString)]) /\
  (s <> t -> matches (RLiteral t REol) b s = []).
Proof.
  induction t as [|c t IH]; intros b s; simpl.
  - destruct s; split; try done. intros _. by eexists.
  - destruct s as [|a s]; [by split|].
    destruct (Ascii.eqb_spec a c) as [->|Hne]; simpl.
    + rewrite app_nil_r. destruct (IH false s) as [Heq Hneq]. split.
      * intros H. injection H as ->. by apply Heq.
      * intros H. apply Hneq. congruence.
    + split; [congruence|done].
Qed.

Lemma matches_literal_eq t b : exists b', matches (RLiteral t REol) b t = [(b', EmptyString)].
Proof. by apply matches_literal. Qed.

Lemma string_app_nil_inv (p t : string) : p +:+ t = t -> p = EmptyString.
Proof.
  intros H. apply (f_equal String.length) in H. rewrite string_length_app in H.
  destruct p; [done|simpl in H; lia].
Qed.

(** A text at the end of a string is found there, after what comes before. *)
Lemma RegExp_exec_literal t (p : string) : forall b,
  RegExp_exec (RLiteral t REol) b (p +:+ t) = Some (p, EmptyString).
Proof.
  induction p as [|a p IH]; intros b.
  - change (EmptyString +:+ t) with t.
    destruct (matches_literal_eq t b) as [b' Hm].
    by rewrite RegExp_exec_unfold, Hm.
  - change (String a p +:+ t) with (String a (p +:+ t)). rewrite RegExp_exec_unfold.
    rewrite (proj2 (matches_literal t b (String a (p +:+ t)))), IH; [done|].
    intros H. by apply (string_app_nil_inv (String a p) t) in H.
Qed.

(** A string that does not end with the text has no match. *)
Lemma RegExp_exec_literal_None t (s : string) : forall b,
  (forall p, s <> p +:+ t) -> RegExp_exec (RLiteral t REol) b s = None.
Proof.
  induction s as [|a s IH]; intros b Hs.
  - rewrite RegExp_exec_unfold, (proj2 (matches_literal t b EmptyString)); [done|].
    intros H. by apply (Hs EmptyString).
  - rewrite RegExp_exec_unfold, (proj2 (matches_literal t b (String a s))).
    + rewrite IH; [done|]. intros p Hp. apply (Hs (String a p)). simpl. by rewrite Hp.
    + intros H. by apply (Hs EmptyString).
Qed.

(** [/^~/] *)
Lemma isHomePath_prefix (file : string) : isHomePath file = starts_with "~" file.
Proof.
  unfold isHomePath, String_match.
  assert (Hnone : forall s, RegExp_exec (RSeq RBol (RChar "~")) false s = None).
  { induction s as [|a s IH]; simpl; [done|]. by rewrite IH. }
  destruct file as [|a s]; [done|]. simpl.
  destruct (Ascii.eqb a "~"); simpl; [done|]. by rewrite Hnone.
Qed.

(** [/(^\.\/|^\.\.\/|\w)/] *)
Lemma isAbsolutePath_cases (file : string) :
  isAbsolutePath file = starts_with "./" file || starts_with "../" file || has_word_char file.
Proof.
  unfold isAbsolutePath, String_match.
  set (r := RAlt _ _).
  assert (Hlater : forall s, match RegExp_exec r false s with Some _ => true | None => false end
                             = has_word_char s).
  { induction s as [|a s IH]; [done|]. rewrite RegExp_exec_found. simpl.
    destruct (is_word_char a); [done|]. by rewrite IH. }
  rewrite RegExp_exec_found.
  destruct file as [|a s]; [done|]. rewrite Hlater. simpl.
  destruct (Ascii.eqb a "."); simpl.
  - destruct s as [|a' s']; simpl; [by destruct (is_word_char a)|].
    destruct (Ascii.eqb a' "/"); simpl; [done|].
    destruct (Ascii.eqb a' "."); simpl.
    + destruct s' as [|a'' s'']; simpl; [by destruct (is_word_char a)|].
      destruct (Ascii.eqb a'' "/"); simpl; [done|]. by destruct (is_word_char a).
    + by destruct (is_word_char a).
  - by destruct (is_word_char a).
Qed.

(** [.json$] and [.csv$]: any character but a line terminator, the
    extension, the end. *)
Lemma String_match_extension (extension s : string) :
  String_match s (RSeq RAny (RLiteral extension REol)) = ends_with_extension extension s.
Proof.
  unfold String_match.
  assert (H : forall b, match RegExp_exec (RSeq RAny (RLiteral extension REol)) b s with
                        | Some _ => true | None => false end = ends_with_extension extension s);
    [|apply H].
  induction s as [|a s IH]; intros b; [done|].
  rewrite RegExp_exec_found, IH. simpl.
  destruct (is_line_terminator a); simpl; [done|]. rewrite app_nil_r.
  destruct (String.eqb_spec s extension) as [->|Hne].
  - by destruct (matches_literal_eq extension false) as [b' ->].
  - by rewrite (proj2 (matches_literal extension false s) Hne).
Qed.

(** *** Pieces of a path *)

Lemma split_nonempty separator s : split separator s <> [].
Proof.
  destruct s as [|a s]; simpl; [done|].
  destruct (Ascii.eqb a separator); [done|]. by destruct (split separator s).
Qed.

(** The last piece of a path is what follows the last separator. *)
Lemma split_last_name separator (name : string) :
  without_char separator name = true -> split separator name = [name].
Proof.
  induction name as [|a name IH]; simpl; [done|].
  intros H. apply andb_prop in H as [Ha Hname]. apply negb_true_iff in Ha.
  by rewrite Ha, IH.
Qed.

Lemma split_app separator (dir name : string) :
  split separator (dir +:+ String separator name) =
    (split separator dir ++ split separator name)%list.
Proof.
  induction dir as [|a dir IH].
  - change (EmptyString +:+ String separator name) with (String separator name).
    simpl. by rewrite Ascii.eqb_refl.
  - change (String a dir +:+ String separator name)
      with (String a (dir +:+ String separator name)).
    simpl. rewrite IH. destruct (Ascii.eqb a separator); [done|].
    pose proof (split_nonempty separator dir). by destruct (split separator dir).
Qed.

Lemma split_last separator (dir name : string) :
  without_char separator name = true ->
  last (split separator (dir +:+ String separator name)) = Some name.
Proof.
  intros Hname. by rewrite split_app, (split_last_name _ _ Hname), last_snoc.
Qed.

(** No piece has the separator in it. *)
Lemma split_without separator (s : string) :
  Forall (fun piece => without_char separator piece = true) (split separator s).
Proof.
  induction s as [|a s IH]; simpl; [by repeat constructor|].
  destruct (Ascii.eqb a separator) eqn:Ha; [by constructor|].
  destruct (split separator s) as [|piece rest]; [by repeat constructor; simpl; rewrite Ha|].
  apply Forall_cons in IH as [Hpiece Hrest]. constructor; [|done]. simpl. by rewrite Ha.
Qed.

Lemma without_char_app a (s t : string) :
  without_char a (s +:+ t) = without_char a s && without_char a t.
Proof. induction s as [|b s IH]; simpl; [done|]. by rewrite IH, andb_assoc. Qed.

(** What a match leaves is the end of what it was given. *)
Lemma matches_suffix r : forall b s m,
  m ∈ matches r b s -> exists mid, s = mid +:+ snd m.
Proof.
  induction r as [c| | | | |r1 IH1 r2 IH2|r1 IH1 r2 IH2]; intros b s m Hm; simpl in Hm.
  - destruct s as [|a s]; [by apply elem_of_nil in Hm|].
    destruct (Ascii.eqb a c); [|by apply elem_of_nil in Hm].
    apply list_elem_of_singleton in Hm as ->. by exists (String a EmptyString).
  - destruct s as [|a s]; [by apply elem_of_nil in Hm|].
    destruct (is_line_terminator a); [by apply elem_of_nil in Hm|].
    apply list_elem_of_singleton in Hm as ->. by exists (String a EmptyString).
  - destruct s as [|a s]; [by apply elem_of_nil in Hm|].
    destruct (is_word_char a); [|by apply elem_of_nil in Hm].
    apply list_elem_of_singleton in Hm as ->. by exists (String a EmptyString).
  - destruct b; [|by apply elem_of_nil in Hm].
    apply list_elem_of_singleton in Hm as ->. by exists EmptyString.
  - destruct s as [|a s]; [|by apply elem_of_nil in Hm].
    apply list_elem_of_singleton in Hm as ->. by exists EmptyString.
  - apply list_elem_of_In, in_flat_map in Hm as (m1 & Hm1 & Hm).
    apply list_elem_of_In in Hm1, Hm.
    destruct (IH1 _ _ _ Hm1) as [mid1 ->]. destruct (IH2 _ _ _ Hm) as [mid2 Hmid2].
    exists (mid1 +:+ mid2). by rewrite Hmid2, string_app_assoc.
  - apply elem_of_app in Hm as [Hm|Hm]; eauto.
Qed.

(** A match cuts the string in three: before, the match, after. *)
Lemma RegExp_exec_parts r s : forall b before rest,
  RegExp_exec r b s = Some (before, rest) -> exists mid, s = before +:+ mid +:+ rest.
Proof.
  induction s as [|a s IH]; intros b before rest; rewrite RegExp_exec_unfold.
  - destruct (matches r b EmptyString) as [|m ms] eqn:Hm; [done|].
    intros H. injection H as <- <-. apply (matches_suffix r b EmptyString m).
    rewrite Hm. by left.
  - destruct (matches r b (String a s)) as [|m ms] eqn:Hm.
    + destruct (RegExp_exec r false s) as [[before' rest']|] eqn:He; [|done].
      intros H. injection H as <- <-. destruct (IH _ _ _ He) as [mid ->]. by exists mid.
    + intros H. injection H as <- <-. apply (matches_suffix r b (String a s) m).
      rewrite Hm. by left.
Qed.

Lemma String_replace_without a r (s : string) :
  without_char a s = true -> without_char a (String_replace s r EmptyString) = true.
Proof.
  intros Hs. unfold String_replace.
  destruct (RegExp_exec r true s) as [[before rest]|] eqn:He; [|done].
  destruct (RegExp_exec_parts _ _ _ _ _ He) as [mid ->].
  rewrite !without_char_app in *. simpl.
  apply andb_prop in Hs as [Hb Hs]. apply andb_prop in Hs as [_ Hr]. by rewrite Hb, Hr.
Qed.

Lemma last_split_without separator (s : string) :
  without_char separator (default EmptyString (last (split separator s))) = true.
Proof.
  pose proof (split_without separator s) as H.
  destruct (last (split separator s)) as [piece|] eqn:Hl; [|done].
  apply last_Some_elem_of in Hl. by apply (proj1 (Forall_forall _ _) H).
Qed.

(** X14. [getFilePath] by the shape of the name: a name that begins with [~]
    goes to [untildify]; any other name that has a letter, a digit or an
    underscore somewhere, or begins with [./] or [../], is resolved as it is,
    whether it is absolute or not; only what is left is joined to the working
    directory. *)
Theorem getFilePath_cases (h : host) (file : string) :
  getFilePath h file =
    if starts_with "~" file then untildify h file
    else if starts_with "./" file || starts_with "../" file || has_word_char file
         then path_resolve h [file]
         else path_resolve h [process_cwd h; file].
Proof. unfold getFilePath. by rewrite isHomePath_prefix, isAbsolutePath_cases. Qed.

(** X15. Without [--output], the name of the output has no directory in it:
    it is the last piece of the path of the input, less a [.csv] at its end,
    with [.normalized.] and the extension after it. *)
Theorem getOutputFilename_default (h : host) (args : filename_args) (extension : format)
  (file : string) :
  truthy (arg_output args) = false -> truthy (arg_o args) = false ->
  arg_input args = Some file ->
  (exists stem,
     getOutputFilename h args extension =
       Ok (stem +:+ ".normalized." +:+ extension_of extension) /\
     without_char "/" stem = true) /\
  (forall dir name,
     getFilePath h file = dir +:+ "/" +:+ name +:+ ".csv" -> without_char "/" name = true ->
     getOutputFilename h args extension =
       Ok (name +:+ ".normalized." +:+ extension_of extension)).
Proof.
  intros Hout Ho Hin. unfold getOutputFilename. rewrite Hout, Hin.
  assert (Hstem : forall stem : string,
            match arg_o args with
            | Some (String _ _ as outputFile) =>
                if String_match outputFile (RSeq RAny (RLiteral (extension_of extension) REol))
                then Ok (getFilePath h outputFile)
                else Ok (getFilePath h (outputFile +:+ "." +:+ extension_of extension))
            | _ => Ok (stem +:+ ".normalized." +:+ extension_of extension)
            end = Ok (stem +:+ ".normalized." +:+ extension_of extension)).
  { intros stem. by destruct (arg_o args) as [[|? ?]|]. }
  cbv zeta. rewrite Hstem. split.
  - eexists. split; [done|]. apply String_replace_without, last_split_without.
  - intros dir name Hpath Hname. rewrite Hpath.
    change ("/" +:+ name +:+ ".csv") with (String "/" (name +:+ ".csv")).
    rewrite split_last by (by rewrite without_char_app, Hname).
    simpl default. unfold String_replace.
    change (RSeq (RChar ".") (RLiteral "csv" REol)) with (RLiteral ".csv" REol).
    rewrite RegExp_exec_literal.
    change (EmptyString +:+ EmptyString) with EmptyString. by rewrite string_app_nil_r.
Qed.

(** The input [prices/data.csv] gives [data.normalized.csv]. *)
Lemma getOutputFilename_default_data :
  getOutputFilename example_host
    {| arg_output := None; arg_o := None; arg_input := Some "prices/data.csv" |} CSV =
    Ok "data.normalized.csv".
Proof.
  apply (proj2 (getOutputFilename_default example_host
                  {| arg_output := None; arg_o := None; arg_input := Some "prices/data.csv" |}
                  CSV "prices/data.csv" eq_refl eq_refl eq_refl) "/work/prices" "data");
    reflexivity.
Defined.

(** X16. With [--output], the name is taken as it is when it ends with the
    letters of the extension after one more character, which need not be a
    dot; to any other name a dot and the extension are added. *)
Theorem getOutputFilename_explicit (h : host) (args : filename_args) (extension : format)
  (outputFile : string) :
  (if truthy (arg_output args) then arg_output args else arg_o args) = Some outputFile ->
  outputFile <> EmptyString ->
  getOutputFilename h args extension =
    Ok (getFilePath h
          (if ends_with_extension (extension_of extension) outputFile then outputFile
           else outputFile +:+ "." +:+ extension_of extension)).
Proof.
  intros Hout Hne. unfold getOutputFilename. rewrite Hout.
  destruct outputFile as [|a s]; [done|]. rewrite String_match_extension.
  by destruct (ends_with_extension _ _).
Qed.

(** The names [out.json], [outjson] and [out] for a JSON output. *)
Lemma getOutputFilename_explicit_names :
  getOutputFilename example_host
    {| arg_output := Some "out.json"; arg_o := Some "out.json"; arg_input := None |} JSON =
    Ok "/work/out.json" /\
  getOutputFilename example_host
    {| arg_output := Some "outjson"; arg_o := Some "outjson"; arg_input := None |} JSON =
    Ok "/work/outjson" /\
  getOutputFilename example_host
    {| arg_output := Some "out"; arg_o := Some "out"; arg_input := None |} JSON =
    Ok "/work/out.json".
Proof.
  split; [|split].
  - apply (getOutputFilename_explicit example_host
             {| arg_output := Some "out.json"; arg_o := Some "out.json"; arg_input := None |}
             JSON "out.json" eq_refl).
    discriminate.
  - apply (getOutputFilename_explicit example_host
             {| arg_output := Some "outjson"; arg_o := Some "outjson"; arg_input := None |}
             JSON "outjson" eq_refl).
    discriminate.
  - apply (getOutputFilename_explicit example_host
             {| arg_output := Some "out"; arg_o := Some "out"; arg_input := None |}
             JSON "out" eq_refl).
    discriminate.
Defined.

(** X17. [convertToCsv] fails, with a [TypeError], on no record and on
    nothing else. Of the first record it writes the names only: two lists of
    records that differ in the cells of the first record give the same text. *)
Theorem convertToCsv_first_record (h : host) :
  (forall data, convertToCsv h data = TypeError <-> data = []) /\
  (forall first first' rest,
     Object_keys h first = Object_keys h first' ->
     convertToCsv h (first :: rest) = convertToCsv h (first' :: rest)).
Proof.
  split.
  - intros [|first rest]; by split.
  - intros first first' rest Hkeys. unfold convertToCsv. simpl. by rewrite Hkeys.
Qed.

(** No record: a [TypeError]. *)
Lemma convertToCsv_no_record : convertToCsv example_host [] = TypeError.
Proof.
  by apply (proj1 (convertToCsv_first_record example_host)).
Defined.

(** X18. [output] ends the process with status 1 exactly when both output
    types are asked for, whatever else holds; it fails with a [TypeError]
    exactly when they are not and either there is neither an output name nor
    an input name, or the type is CSV and there is no record. In every other
    case it asks for one file to be written. *)
Theorem output_fails (h : host) (args : output_args) (name_args : filename_args)
  (data : list object) :
  let both := (arg_json args || arg_j args) && (arg_csv args || arg_c args) in
  let unnamed := negb (truthy (arg_output name_args)) && negb (truthy (arg_o name_args)) &&
                 negb (bool_decide (is_Some (arg_input name_args))) in
  let no_csv := negb (arg_json args || arg_j args) && bool_decide (data = []) in
  (output h args name_args data = Exit 1 <-> both = true) /\
  (output h args name_args data = TypeError <-> both = false /\ unnamed || no_csv = true) /\
  (both = false -> unnamed || no_csv = false ->
   exists pathToFile text, output h args name_args data = Ok (pathToFile, text)).
Proof.
  unfold output, hasMultipleOutputTypes, getOutputFilename, convertToCsv.
  destruct args as [j1 j2 c1 c2], name_args as [o1 o2 input]. simpl.
  destruct j1, j2, c1, c2; simpl;
    destruct o1 as [[|? ?]|], o2 as [[|? ?]|], input as [?|], data as [|? ?]; simpl;
    repeat match goal with
           | |- context [String_match ?s ?r] => destruct (String_match s r); simpl
           end;
    (split; [split; (done || intros [? ?]; done)|]);
    (split; [split; (done || intros [? ?]; done)|]);
    try done; intros _ _; by eexists _, _.
Qed.

(** Both [--json] and [--csv]: status 1. *)
Lemma output_fails_both :
  output example_host {| arg_json := true; arg_j := true; arg_csv := true; arg_c := true |}
    {| arg_output := None; arg_o := None; arg_input := Some "data.csv" |} prices_10_20_30 =
    Exit 1.
Proof.
  apply (proj1 (output_fails example_host
                  {| arg_json := true; arg_j := true; arg_csv := true; arg_c := true |}
                  {| arg_output := None; arg_o := None; arg_input := Some "data.csv" |}
                  prices_10_20_30)).
  reflexivity.
Defined.

(** *** Window lengths and unchanged values *)

Lemma mapR_Ok_Forall2 {A B : Type} (f : A -> result B) (l : list A) : forall out,
  mapR f l = Ok out -> Forall2 (fun a b => f a = Ok b) l out.
Proof.
  induction l as [|a l IH]; intros out H; simpl in H.
  - injection H as <-. constructor.
  - apply bind_Ok_inv in H as (b & Hb & H). apply bind_Ok_inv in H as (bs & Hbs & H).
    injection H as <-. constructor; [done|by apply IH].
Qed.

Lemma split_comma_nonempty s : split_comma s <> [].
Proof.
  destruct s as [|a s]; simpl; [done|].
  destruct (Ascii.eqb a ","); [done|]. by destruct (split_comma s).
Qed.

Lemma finite_nonzero_Prim2SF (x : float) :
  is_finite x = true -> PrimFloat.is_zero x = false ->
  exists s m e, Prim2SF x = S754_finite s m e.
Proof.
  unfold is_finite, is_nan, is_infinity, PrimFloat.is_zero.
  rewrite !FloatAxioms.eqb_spec, FloatAxioms.abs_spec.
  change (Prim2SF PrimFloat.zero) with (S754_zero false).
  change (Prim2SF infinity) with (S754_infinity false).
  destruct (Prim2SF x) as [s|s| |s m e]; try done.
  - by destruct s.
  - intros _ _. by exists s, m, e.
Qed.

Lemma Prim2SF_zero_is_zero (x : float) s : Prim2SF x = S754_zero s -> PrimFloat.is_zero x = true.
Proof.
  intros H. unfold PrimFloat.is_zero. rewrite FloatAxioms.eqb_spec, H. done.
Qed.

(** The percentage change of a value to itself is zero. *)
Lemma percentage_of_same (v : float) :
  is_finite v = true -> PrimFloat.is_zero v = false ->
  PrimFloat.is_zero ((v - v) / v * 100)%float = true.
Proof.
  intros Hf Hz. destruct (finite_nonzero_Prim2SF v Hf Hz) as (s & m & e & Hv).
  assert (Hsub : Prim2SF (v - v) = S754_zero false).
  { rewrite FloatAxioms.sub_spec, Hv. unfold SF64sub, SFsub.
    by rewrite Z.sub_diag. }
  assert (Hdiv : Prim2SF ((v - v) / v) = S754_zero s).
  { rewrite FloatAxioms.div_spec, Hsub, Hv. done. }
  apply (Prim2SF_zero_is_zero _ s).
  rewrite FloatAxioms.mul_spec, Hdiv.
  change (Prim2SF 100) with (S754_finite false 7036874417766400 (-46)).
  by destruct s.
Qed.

Lemma mapR_Exit_inv {A B : Type} (f : A -> result B) (l : list A) c :
  mapR f l = Exit c -> exists a, a ∈ l /\ f a = Exit c.
Proof.
  induction l as [|a l IH]; intros H; simpl in H; [done|].
  destruct (f a) as [b| |c'] eqn:Hfa; simpl in H; [|done|].
  - destruct (mapR f l) as [bs| |c'] eqn:Hl; simpl in H; [done|done|].
    injection H as ->. destruct (IH eq_refl) as (a' & Ha' & Hfa').
    exists a'. split; [by right|done].
  - injection H as ->. exists a. split; [by left|done].
Qed.

Lemma pipe_no_Exit {A : Type} (fns : list (A -> result A)) : forall x c,
  (forall f y c', f ∈ fns -> f y <> Exit c') -> pipe fns x <> Exit c.
Proof.
  induction fns as [|f fns IH]; intros x c Hfns; [done|].
  rewrite pipe_cons. destruct (f x) as [y| |c'] eqn:Hfx; simpl; [|done|].
  - apply IH. intros g z c' Hg. apply Hfns. by right.
  - by destruct (Hfns f x c' ltac:(left)).
Qed.

Lemma stages_no_Exit (lengths : list float) (data : list object) c :
  pipe (percentagesChangeInVolume :: percentagesChangeInPrices :: map movingAverage lengths)
    data <> Exit c.
Proof.
  apply pipe_no_Exit. intros f y c' Hf.
  apply elem_of_cons in Hf as [->|Hf].
  { rewrite percentagesChangeInVolume_written.
    apply (written_no_Exit volume_writes volume_writes_sources). }
  apply elem_of_cons in Hf as [->|Hf].
  { rewrite percentagesChangeInPrices_written.
    apply (written_no_Exit price_writes price_writes_sources). }
  apply list_elem_of_fmap in Hf as (len & -> & _).
  rewrite movingAverage_written.
  apply (written_no_Exit _ (moving_average_writes_sources len)).
Qed.

Lemma formatInputtedMovingAverages_Exit_inv avgsString c :
  formatInputtedMovingAverages avgsString = Exit c ->
  c = 1 /\ exists s a, avgsString = Some s /\ a ∈ map trim (split_comma s) /\ isNaN a = true.
Proof.
  destruct avgsString as [[|a0 s]|]; [done| |done].
  rewrite formatInputtedMovingAverages_Some by done. intros H.
  destruct (mapR _ _) as [| |c'] eqn:Hm; simpl in H; [done|done|]. injection H as ->.
  apply mapR_Exit_inv in Hm as (a & Ha & Hfa).
  destruct (isNaN a) eqn:Hnan; [|done]. injection Hfa as <-.
  split; [done|]. by exists (String a0 s), a.
Qed.

Lemma main_of_no_rows Date_parse avgsString lengths (csv : list (list string)) :
  (length csv <= 1)%nat -> formatInputtedMovingAverages avgsString = Ok lengths ->
  main Date_parse avgsString csv = Ok [].
Proof.
  intros Hcsv Hlengths. rewrite main_unfold.
  assert (Hrows : drop 1 csv = []) by (destruct csv as [|? [|? ?]]; simpl in *; [done|done|lia]).
  rewrite Hrows.
  destruct (prepareData_enriches avgsString lengths
              (sortDataByDate Date_parse DATE_CELL (rowsToObjects [] (default [] (csv !! 0%nat)))))
    as (out & Hout & Hlen & _); [done|done|].
  rewrite Hout. by destruct out.
Qed.

(** X19. The pipeline ends the process exactly when the list of window
    lengths has a piece that does not read as a number, and then with the
    status 1, whatever the file holds: no stage ends the process, every
    other failure is a [TypeError]. *)
Theorem main_exit_status (Date_parse : string -> float) (avgsString : option string)
  (csv : list (list string)) (code : Z) :
  main Date_parse avgsString csv = Exit code <->
  code = 1 /\
  exists s a, avgsString = Some s /\ a ∈ map trim (split_comma s) /\ isNaN a = true.
Proof.
  split.
  - intros H. rewrite main_unfold in H. unfold prepareData, movingAverages in H.
    destruct (formatInputtedMovingAverages avgsString) as [lengths| |c] eqn:Hf; simpl in H.
    + by destruct (stages_no_Exit _ _ _ H).
    + done.
    + injection H as ->. by apply formatInputtedMovingAverages_Exit_inv.
  - intros (-> & s & a & -> & Ha & Hnan). apply main_exits.
    apply (formatInputtedMovingAverages_rejects s a); [|done|done].
    intros ->. simpl in Ha. apply list_elem_of_singleton in Ha as ->. done.
Qed.

(** X20. What [formatInputtedMovingAverages] accepts: it gives no list
    exactly when the argument is absent or empty; a list it gives has one
    length for each piece between the commas, so at least one, and no length
    is [NaN]. *)
Theorem formatInputtedMovingAverages_lengths (avgsString : option string) :
  (formatInputtedMovingAverages avgsString = Ok None <->
   avgsString = None \/ avgsString = Some EmptyString) /\
  (forall lengths, formatInputtedMovingAverages avgsString = Ok (Some lengths) ->
     exists s, avgsString = Some s /\ lengths <> [] /\
       length lengths = length (split_comma s) /\
       forall x, x ∈ lengths -> is_nan x = false).
Proof.
  destruct avgsString as [[|a s]|].
  - split; [split; [by right|done]|done].
  - rewrite formatInputtedMovingAverages_Some by done. split.
    + split; [|by intros [|]].
      destruct (mapR _ _); simpl; done.
    + intros lengths H. apply bind_Ok_inv in H as (out & Hout & H). injection H as <-.
      exists (String a s). split; [done|].
      apply mapR_Ok_Forall2 in Hout.
      pose proof (Forall2_length _ _ _ Hout) as Hlen. rewrite length_map in Hlen.
      split; [|split; [done|]].
      * intros ->. pose proof (split_comma_nonempty (String a s)).
        by destruct (split_comma (String a s)).
      * intros x Hx. apply list_elem_of_lookup in Hx as [i Hi].
        destruct (Forall2_lookup_r _ _ _ _ _ Hout Hi) as (t & _ & Ht).
        unfold isNaN in Ht. destruct (is_nan (StringToNumber t)) eqn:Hnan; [done|].
        by injection Ht as <-.
  - split; [split; [by left|done]|done].
Qed.

(** The lengths of [5, 50]. *)
Lemma formatInputtedMovingAverages_lengths_5_50 :
  exists s, Some "5, 50" = Some s /\ [5; 50]%float <> [] /\
    length [5; 50]%float = length (split_comma s) /\
    forall x, x ∈ [5; 50]%float -> is_nan x = false.
Proof.
  apply (proj2 (formatInputtedMovingAverages_lengths (Some "5, 50")) [5; 50]%float).
  reflexivity.
Defined.

(** X21. A file without data rows, empty or with the header line only,
    gives no records when the window lengths are accepted, and writing no
    records as CSV throws a [TypeError]. *)
Theorem main_without_rows (h : host) (Date_parse : string -> float)
  (avgsString : option string) (lengths : option (list float)) (csv : list (list string)) :
  (length csv <= 1)%nat -> formatInputtedMovingAverages avgsString = Ok lengths ->
  main Date_parse avgsString csv = Ok [] /\
  main Date_parse avgsString csv ≫= convertToCsv h = TypeError.
Proof.
  intros Hcsv Hlengths.
  rewrite (main_of_no_rows Date_parse avgsString lengths csv Hcsv Hlengths). done.
Qed.

(** The header line alone. *)
Lemma main_without_rows_header_only :
  main Date_parse_iso None [example_header] = Ok [] /\
  main Date_parse_iso None [example_header] ≫= convertToCsv example_host = TypeError.
Proof.
  apply (main_without_rows example_host Date_parse_iso None None [example_header]).
  - simpl. lia.
  - reflexivity.
Defined.

(** X22. A number below [1e21] in magnitude is written by
    [numberToCurrencyValue] as a whole part of one or more decimal digits, a
    point and two decimal digits, with a minus sign in front only when the
    number is negative. *)
Theorem numberToCurrencyValue_two_decimals (num : float) :
  (PrimFloat.abs num <? 1e21)%float = true ->
  exists sign whole cents,
    numberToCurrencyValue num = sign +:+ whole +:+ "." +:+ cents /\
    (sign = "" \/ sign = "-" /\ (num <? 0)%float = true) /\
    (1 <= String.length whole)%nat /\ decimal_digits whole = true /\
    String.length cents = 2%nat /\ decimal_digits cents = true.
Proof.
  intros Hlt. unfold numberToCurrencyValue, CURRENCY_DECIMAL_PLACES, toFixed.
  destruct (Prim2SF num) as [s|s| |s m e] eqn:Hx.
  - by exists "", "0", "00"; repeat split; try left.
  - rewrite FloatAxioms.ltb_spec, FloatAxioms.abs_spec, Hx in Hlt. done.
  - rewrite FloatAxioms.ltb_spec, FloatAxioms.abs_spec, Hx in Hlt. done.
  - rewrite (below_1e21 num s m e Hlt Hx). cbv zeta.
    set (n := if 0 <=? e then _ else _).
    assert (Hn : 0 <= n).
    { unfold n. destruct (Z.leb_spec 0 e) as [He|He].
      - pose proof (pow2_pos e He). simpl Z.of_nat. lia.
      - apply Z.div_pos; [|apply pow2_pos; lia].
        pose proof (pow2_pos (- e) ltac:(lia)). simpl Z.of_nat. lia. }
    destruct (fixed_digits n Hn) as (H1 & H2 & H3 & H4).
    eexists (if s then "-" else ""), _, _.
    split; [by destruct s|]. split; [|done].
    destruct s; [right|by left]. split; [done|].
    by rewrite FloatAxioms.ltb_spec, Hx.
Qed.

(** The text of 12.5. *)
Lemma numberToCurrencyValue_two_decimals_12_5 :
  exists sign whole cents,
    numberToCurrencyValue 12.5 = sign +:+ whole +:+ "." +:+ cents /\
    (sign = "" \/ sign = "-" /\ (12.5 <? 0)%float = true) /\
    (1 <= String.length whole)%nat /\ decimal_digits whole = true /\
    String.length cents = 2%nat /\ decimal_digits cents = true.
Proof.
  apply (numberToCurrencyValue_two_decimals 12.5). reflexivity.
Defined.

(** *** The sign of a percentage change *)

Lemma shr_fexp_nonneg m e l : 0 <= m -> 0 <= shr_m (fst (shr_fexp prec emax m e l)).
Proof.
  intros Hm. unfold shr_fexp, shr.
  destruct (fexp prec emax (Zdigits2 m + e) - e) as [|k|k]; simpl fst;
    rewrite ?iter_pos_shr_m by (by rewrite shr_record_of_loc_m);
    rewrite shr_record_of_loc_m; [done| |done].
  apply Z.div_pos; [done|by apply Z.pow_pos_nonneg].
Qed.

(** Rounding keeps the sign it is given. *)
Lemma binary_round_aux_signed s m e l :
  0 <= m -> is_signed s (binary_round_aux prec emax s m e l) = true.
Proof.
  intros Hm. unfold binary_round_aux.
  pose proof (shr_fexp_nonneg m e l Hm) as Hm1.
  destruct (shr_fexp prec emax m e l) as [mrs' e']. simpl in Hm1.
  pose proof (round_nearest_even_ge (shr_m mrs') (loc_of_shr_record mrs')) as Hge.
  pose proof (shr_fexp_nonneg (round_nearest_even (shr_m mrs') (loc_of_shr_record mrs')) e'
                loc_Exact ltac:(lia)) as Hm2.
  destruct (shr_fexp prec emax _ e' loc_Exact) as [mrs'' e'']. simpl in Hm2.
  destruct (shr_m mrs''); [by destruct s| |lia].
  destruct (e'' <=? emax - prec); by destruct s.
Qed.

Lemma binary_normalize_signed z e :
  z <> 0 -> is_signed (z <? 0) (binary_normalize prec emax z e false) = true.
Proof.
  intros Hz. destruct z as [|m|m]; [done| |]; unfold binary_normalize, binary_round;
    destruct (shl_align m e _) as [mz ez]; by apply binary_round_aux_signed.
Qed.

(** The sign of a difference is the order of the keys. *)
Lemma sub_sign_key (x y : spec_float) :
  valid_binary x = true -> valid_binary y = true -> x <> S754_nan -> y <> S754_nan ->
  float_key x <> float_key y ->
  is_signed (float_key x <? float_key y) (SF64sub x y) = true.
Proof.
  intros Hx Hy Hnx Hny Hne.
  destruct x as [sx|sx| |sx mx ex], y as [sy|sy| |sy my ey]; try done;
    try (pose proof (finite_key_bound _ _ _ Hx)); try (pose proof (finite_key_bound _ _ _ Hy));
    try (simpl float_key in *; unfold cond_Zopp in *;
         destruct sx, sy; simpl SF64sub; unfold is_signed;
         match goal with
         | |- Bool.eqb _ (?a <? ?b) = true => destruct (Z.ltb_spec a b)
         end; simpl; done || lia).
  - destruct sx, sy; try (by destruct Hne); reflexivity.
  - apply valid_binary_bounds in Hx as (Hex & _). apply valid_binary_bounds in Hy as (Hey & _).
    unfold SF64sub, SFsub. set (ez := Z.min ex ey).
    rewrite <- (aligned_key sx mx ex ez), <- (aligned_key sy my ey ez) in * by lia.
    pose proof (pow2_pos (ez + 1074) ltac:(lia)) as Hp.
    set (a := cond_Zopp sx (Zpos (fst (shl_align mx ex ez)))) in *.
    set (b := cond_Zopp sy (Zpos (fst (shl_align my ey ez)))) in *.
    replace (a * 2 ^ (ez + 1074) <? b * 2 ^ (ez + 1074)) with (a - b <? 0).
    + apply binary_normalize_signed. intros Heq. apply Hne. f_equal. lia.
    + destruct (Z.ltb_spec (a - b) 0); symmetry; [apply Z.ltb_lt|apply Z.ltb_ge]; nia.
Qed.

Lemma div_sign s (d : spec_float) m e :
  is_signed s d = true -> is_signed s (SF64div d (S754_finite false m e)) = true.
Proof.
  intros Hs. unfold SF64div, SFdiv.
  destruct d as [sd|sd| |sd md ed]; simpl in Hs; rewrite ?xorb_false_r; try done.
  destruct (SFdiv_core_binary prec emax (Zpos md) ed (Zpos m) e) as [[mz ez] lz] eqn:Hcore.
  apply Bool.eqb_prop in Hs as ->. apply binary_round_aux_signed.
  unfold SFdiv_core_binary in Hcore.
  set (m' := match _ - _ - _ with 0 => _ | Zpos _ => _ | Zneg _ => _ end) in Hcore.
  assert (Hm' : 0 <= m').
  { unfold m'. destruct (_ - _ - _); [done| |done]. by apply Z.shiftl_nonneg. }
  change (IntDef.Z.div_eucl m' (Zpos m)) with (Z.div_eucl m' (Zpos m)) in Hcore.
  pose proof (Z.div_pos m' (Zpos m) Hm' ltac:(done)) as Hq. unfold Z.div in Hq.
  destruct (Z.div_eucl m' (Zpos m)) as [q r]. by injection Hcore as <- _ _.
Qed.

Lemma mul_sign s (x : spec_float) m e :
  is_signed s x = true -> is_signed s (SF64mul x (S754_finite false m e)) = true.
Proof.
  intros Hs. unfold SF64mul, SFmul.
  destruct x as [sx|sx| |sx mx ex]; simpl in Hs; rewrite ?xorb_false_r; try done.
  apply Bool.eqb_prop in Hs as ->. by apply binary_round_aux_signed.
Qed.

Lemma is_signed_leb (x : float) :
  (is_signed false (Prim2SF x) = true -> (0 <=? x)%float = true) /\
  (is_signed true (Prim2SF x) = true -> (x <=? 0)%float = true).
Proof.
  rewrite !FloatAxioms.leb_spec. change (Prim2SF 0) with (S754_zero false).
  destruct (Prim2SF x) as [[]|[]| |[] ? ?]; by split.
Qed.

(** An order between two numbers, on the keys. *)
Lemma ltb_key_inv (x y : float) :
  (x <? y)%float = true ->
  Prim2SF x <> S754_nan /\ Prim2SF y <> S754_nan /\
  float_key (Prim2SF x) < float_key (Prim2SF y).
Proof.
  rewrite FloatAxioms.ltb_spec. unfold SFltb. intros H.
  assert (Hx : Prim2SF x <> S754_nan) by (intros Hx; by rewrite Hx in H).
  assert (Hy : Prim2SF y <> S754_nan).
  { intros Hy. rewrite Hy in H. by destruct (Prim2SF x). }
  rewrite compare_key in H by auto using Prim2SF_valid.
  split; [done|]. split; [done|].
  by destruct (Z.compare_spec (float_key (Prim2SF x)) (float_key (Prim2SF y))).
Qed.

Lemma positive_finite_Prim2SF (q : float) :
  is_finite q = true -> (0 <? q)%float = true ->
  exists m e, Prim2SF q = S754_finite false m e.
Proof.
  intros Hf Hq.
  assert (Hz : PrimFloat.is_zero q = false).
  { unfold PrimFloat.is_zero. rewrite FloatAxioms.eqb_spec.
    rewrite FloatAxioms.ltb_spec in Hq. change (Prim2SF PrimFloat.zero) with (S754_zero false).
    change (Prim2SF 0) with (S754_zero false) in Hq. by destruct (Prim2SF q) as [[]|[]| |[] ? ?]. }
  destruct (finite_nonzero_Prim2SF q Hf Hz) as (s & m & e & Hq').
  rewrite FloatAxioms.ltb_spec, Hq' in Hq. change (Prim2SF 0) with (S754_zero false) in Hq.
  destruct s; [done|]. by exists m, e.
Qed.

Lemma eqb_finite_eq (c q : float) s m e :
  Prim2SF q = S754_finite s m e -> (c =? q)%float = true -> c = q.
Proof.
  intros Hq H. rewrite FloatAxioms.eqb_spec, Hq in H. apply Prim2SF_inj. rewrite Hq.
  unfold SFeqb, SFcompare in H.
  destruct (Prim2SF c) as [sc|sc| |sc mc ec];
    try (by destruct s); try (by destruct sc, s); try done.
  destruct sc, s; try done;
    destruct (ec ?= e) eqn:He; try done;
    destruct (Pos.compare_cont Eq mc m) eqn:Hm; try done;
    apply Z.compare_eq in He; apply Pos.compare_eq in Hm; by subst.
Qed.

(** The percentage change from a positive value follows the move. *)
Lemma percentage_follows_move (c q : float) :
  is_finite q = true -> (0 <? q)%float = true ->
  follows_move c q ((c - q) / q * 100)%float = true.
Proof.
  intros Hf Hq. destruct (positive_finite_Prim2SF q Hf Hq) as (m & e & Hq').
  assert (Hsign : forall s, is_signed s (Prim2SF (c - q)) = true ->
                    is_signed s (Prim2SF ((c - q) / q * 100)) = true).
  { intros s Hs. rewrite FloatAxioms.mul_spec, FloatAxioms.div_spec, Hq'.
    change (Prim2SF 100) with (S754_finite false 7036874417766400 (-46)).
    by apply mul_sign, div_sign. }
  unfold follows_move. apply andb_true_intro. split; [apply andb_true_intro; split|].
  - destruct (q <? c)%float eqn:Hlt; [|done]. simpl.
    apply ltb_key_inv in Hlt as (Hnq & Hnc & Hlt).
    apply (proj1 (is_signed_leb _)), Hsign. rewrite FloatAxioms.sub_spec.
    pose proof (sub_sign_key (Prim2SF c) (Prim2SF q) (Prim2SF_valid c) (Prim2SF_valid q)
                  Hnc Hnq ltac:(lia)) as H.
    by rewrite (proj2 (Z.ltb_ge _ _)) in H by lia.
  - destruct (c <? q)%float eqn:Hlt; [|done]. simpl.
    apply ltb_key_inv in Hlt as (Hnc & Hnq & Hlt).
    apply (proj2 (is_signed_leb _)), Hsign. rewrite FloatAxioms.sub_spec.
    pose proof (sub_sign_key (Prim2SF c) (Prim2SF q) (Prim2SF_valid c) (Prim2SF_valid q)
                  Hnc Hnq ltac:(lia)) as H.
    by rewrite (proj2 (Z.ltb_lt _ _)) in H by lia.
  - destruct (c =? q)%float eqn:Heq; [|done]. simpl.
    apply (eqb_finite_eq c q false m e Hq') in Heq as ->.
    apply percentage_of_same; [done|].
    unfold PrimFloat.is_zero. by rewrite FloatAxioms.eqb_spec, Hq'.
Qed.

(** The change cell of a row whose value and the value before it are not the
    sentinel. *)
Lemma volume_change_cell data out i row prev cur p :
  percentagesChangeInVolume data = Ok out ->
  (1 <= i)%nat -> data !! i = Some row -> data !! (i - 1)%nat = Some prev ->
  row !! "Volume" = Some (VStr cur) -> prev !! "Volume" = Some (VStr p) ->
  cur <> NOT_APPLICABLE -> p <> NOT_APPLICABLE ->
  exists row', out !! i = Some row' /\
    row' !! volume_column =
      Some (VNum ((parseFloat (remove_commas cur) - parseFloat (remove_commas p)) /
                  parseFloat (remove_commas p) * 100)%float).
Proof.
  intros Hout Hi Hrow Hprev Hcur Hp Hcur' Hp'.
  destruct (percentagesChangeInVolume_Ok data out Hout) as [_ Hrows].
  destruct (Hrows i row Hrow) as (row' & change & Hrow' & Hchange & ->).
  rewrite (volume_change_value data i row prev cur p) in Hchange by done.
  injection Hchange as <-. eexists. split; [done|]. apply lookup_insert_eq.
Qed.

Lemma price_change_cell data out i row prev key cur p :
  percentagesChangeInPrices data = Ok out -> key ∈ VALUE_CELLS ->
  (2 <= i)%nat -> data !! i = Some row -> data !! (i - 1)%nat = Some prev ->
  row !! key = Some (VStr cur) -> prev !! key = Some (VStr p) ->
  cur <> NOT_APPLICABLE -> p <> NOT_APPLICABLE ->
  exists row', out !! i = Some row' /\
    row' !! price_column key =
      Some (VNum ((parseFloat (remove_commas cur) - parseFloat (remove_commas p)) /
                  parseFloat (remove_commas p) * 100)%float).
Proof.
  intros Hout Hkey Hi Hrow Hprev Hcur Hp Hcur' Hp'.
  destruct (percentagesChangeInPrices_Ok data out Hout) as [_ Hrows].
  destruct (Hrows i row Hrow) as (row' & Hrow' & _ & Hcolumns).
  destruct (Hcolumns key Hkey) as (change & Hchange & Hcolumn).
  rewrite (price_change_value data i row prev key cur p) in Hchange by done.
  injection Hchange as <-. by exists row'.
Qed.

(** X23. After a value that reads as a positive finite number, the
    percentage change that the volume stage and the price stage write follows
    the move: it is not negative when the value rose, not positive when it
    fell, and zero when it reads the same. *)
Theorem change_follows_move (data : list object) :
  (forall out i row prev cur p,
     percentagesChangeInVolume data = Ok out ->
     (1 <= i)%nat -> data !! i = Some row -> data !! (i - 1)%nat = Some prev ->
     row !! "Volume" = Some (VStr cur) -> prev !! "Volume" = Some (VStr p) ->
     cur <> NOT_APPLICABLE -> p <> NOT_APPLICABLE ->
     is_finite (parseFloat (remove_commas p)) = true ->
     (0 <? parseFloat (remove_commas p))%float = true ->
     exists row' x, out !! i = Some row' /\ row' !! volume_column = Some (VNum x) /\
       follows_move (parseFloat (remove_commas cur)) (parseFloat (remove_commas p)) x = true) /\
  (forall out i row prev key cur p,
     percentagesChangeInPrices data = Ok out -> key ∈ VALUE_CELLS ->
     (2 <= i)%nat -> data !! i = Some row -> data !! (i - 1)%nat = Some prev ->
     row !! key = Some (VStr cur) -> prev !! key = Some (VStr p) ->
     cur <> NOT_APPLICABLE -> p <> NOT_APPLICABLE ->
     is_finite (parseFloat (remove_commas p)) = true ->
     (0 <? parseFloat (remove_commas p))%float = true ->
     exists row' x, out !! i = Some row' /\ row' !! price_column key = Some (VNum x) /\
       follows_move (parseFloat (remove_commas cur)) (parseFloat (remove_commas p)) x = true).
Proof.
  split.
  - intros out i row prev cur p Hout Hi Hrow Hprev Hcur Hp Hcur' Hp' Hf Hq.
    destruct (volume_change_cell data out i row prev cur p) as (row' & Hrow' & Hcell); try done.
    eexists row', _. split; [done|]. split; [done|]. by apply percentage_follows_move.
  - intros out i row prev key cur p Hout Hkey Hi Hrow Hprev Hcur Hp Hcur' Hp' Hf Hq.
    destruct (price_change_cell data out i row prev key cur p) as (row' & Hrow' & Hcell);
      try done.
    eexists row', _. split; [done|]. split; [done|]. by apply percentage_follows_move.
Qed.

(** The volume that rises from 100 to 150. *)
Lemma change_follows_move_100_150 :
  exists out row' x, percentagesChangeInVolume volumes_100_150 = Ok out /\
    out !! 1%nat = Some row' /\ row' !! volume_column = Some (VNum x) /\
    follows_move (parseFloat (remove_commas "150")) (parseFloat (remove_commas "100")) x = true.
Proof.
  destruct (percentagesChangeInVolume_total volumes_100_150 eq_refl) as [out Hout].
  destruct (proj1 (change_follows_move volumes_100_150) out 1%nat _ _ "150" "100"
              Hout (le_n 1) eq_refl eq_refl eq_refl eq_refl) as (row' & x & H);
    [discriminate|discriminate|reflexivity|reflexivity|].
  by exists out, row', x.
Defined.
